(** * nbodykit.utils.config: schema declaration, casting, namespace filling
      and constructor binding

    A shallow embedding of [nbodykit/utils/config.py].  Python objects are
    modelled by the inductive [value]; [OrderedDict]s and [Namespace]s are
    association lists in insertion order; exceptions are values of [exn]
    carried by the error monad [res].  Mutation of a dictionary that is
    passed around (the configuration document, the schema, the [missing]
    list) is explicit state passing.  A document is a tree: a mapping that
    the loader hands out under two keys at once (a YAML alias) is not part
    of the embedding.  Strings are sequences of bytes; [str.lower], the case
    mapping of Unicode, is the operation [str_lower] of the interface
    [Lowercase], and every statement holds for whatever function implements
    it. *)

From Stdlib Require Import ZArith List String Ascii Bool Lia Permutation.
From Stdlib Require Import Numbers.DecimalString.
Import ListNotations.
Set Warnings "-register-all".
Open Scope list_scope.
Open Scope string_scope.

(** ** Strings as Python handles them *)

Module PyStr.

(** [str.lower] on strings of the ASCII range, where it maps [A]-[Z] to
    [a]-[z] and keeps every other character: the implementation of
    [Lowercase] that the examples, whose names are ASCII, compute with. *)
Definition lower_ascii (c : ascii) : ascii :=
  let n := nat_of_ascii c in
  if andb (Nat.leb 65 n) (Nat.leb n 90) then ascii_of_nat (n + 32) else c.

Fixpoint lower (s : string) : string :=
  match s with
  | EmptyString => EmptyString
  | String c r => String (lower_ascii c) (lower r)
  end.

(** [s.split('.')]: always at least one segment, empty segments kept. *)
Fixpoint split_on (sep : ascii) (s : string) : list string :=
  match s with
  | EmptyString => [EmptyString]
  | String c r =>
      if Ascii.eqb c sep then EmptyString :: split_on sep r
      else match split_on sep r with
           | [] => [String c EmptyString]
           | seg :: segs => String c seg :: segs
           end
  end.

(** [sep.join(l)]. *)
Fixpoint join (sep : string) (l : list string) : string :=
  match l with
  | [] => EmptyString
  | [x] => x
  | x :: r => x ++ sep ++ join sep r
  end.

Fixpoint repeat_char (c : ascii) (n : nat) : string :=
  match n with
  | O => EmptyString
  | S k => String c (repeat_char c k)
  end.

(** ["%-25s" % s]: left-justified in a field of 25. *)
Definition ljust (w : nat) (s : string) : string :=
  s ++ repeat_char " "%char (w - String.length s).

(** ["%d" % n]. *)
Definition dec (z : Z) : string := NilZero.string_of_int (Z.to_int z).

Definition tab : string := String (ascii_of_nat 9) EmptyString.
Definition nl : string := String (ascii_of_nat 10) EmptyString.
Definition squote : ascii := ascii_of_nat 39.
Definition dquote : ascii := ascii_of_nat 34.
Definition backslash : ascii := ascii_of_nat 92.

Fixpoint has_char (c : ascii) (s : string) : bool :=
  match s with
  | EmptyString => false
  | String d r => orb (Ascii.eqb c d) (has_char c r)
  end.

Definition hex_digit (n : nat) : ascii :=
  if Nat.ltb n 10 then ascii_of_nat (48 + n) else ascii_of_nat (87 + n).

(** One character of [repr(s)] inside quotes [q]. *)
Definition escape_char (q c : ascii) : string :=
  let n := nat_of_ascii c in
  if Ascii.eqb c backslash then String backslash (String backslash EmptyString)
  else if Ascii.eqb c q then String backslash (String q EmptyString)
  else if Nat.eqb n 10 then String backslash "n"
  else if Nat.eqb n 13 then String backslash "r"
  else if Nat.eqb n 9 then String backslash "t"
  else if orb (Nat.ltb n 32) (Nat.eqb n 127) then
    String backslash (String "x"%char
      (String (hex_digit (n / 16)) (String (hex_digit (n mod 16)) EmptyString)))
  else String c EmptyString.

Fixpoint escape (q : ascii) (s : string) : string :=
  match s with
  | EmptyString => EmptyString
  | String c r => escape_char q c ++ escape q r
  end.

(** [repr(s)] of a string: single quotes unless the string holds a single
    quote and no double quote.  Characters above the ASCII range are kept
    as they are. *)
Definition repr (s : string) : string :=
  let q := if andb (has_char squote s) (negb (has_char dquote s))
           then dquote else squote in
  String q (escape q s ++ String q EmptyString).

(** [str(l)] of a list of strings: ["['a', 'b']"]. *)
Definition repr_list (l : list string) : string :=
  "[" ++ join ", " (map repr l) ++ "]".

(** [s.endswith(t)]. *)
Fixpoint endswith (s t : string) : bool :=
  if String.eqb s t then true
  else match s with
       | EmptyString => false
       | String _ r => endswith r t
       end.

(** [t in s] for strings. *)
Fixpoint contains (s t : string) : bool :=
  if String.prefix t s then true
  else match s with
       | EmptyString => false
       | String _ r => contains r t
       end.

Definition is_space (c : ascii) : bool :=
  let n := nat_of_ascii c in
  orb (Nat.eqb n 32) (andb (Nat.leb 9 n) (Nat.leb n 13)).

Fixpoint lstrip (s : string) : string :=
  match s with
  | String c r => if is_space c then lstrip r else s
  | EmptyString => EmptyString
  end.

Fixpoint rstrip (s : string) : string :=
  match s with
  | EmptyString => EmptyString
  | String c r =>
      match rstrip r with
      | EmptyString => if is_space c then EmptyString else String c EmptyString
      | r' => String c r'
      end
  end.

Definition strip (s : string) : string := rstrip (lstrip s).

Definition digit_val (c : ascii) : option Z :=
  let n := nat_of_ascii c in
  if andb (Nat.leb 48 n) (Nat.leb n 57) then Some (Z.of_nat (n - 48)) else None.

(** One or more digits, with single underscores between digits;
    [after_digit] tells whether the character before was a digit. *)
Fixpoint digits (acc : Z) (after_digit : bool) (s : string) : option Z :=
  match s with
  | EmptyString => if after_digit then Some acc else None
  | String c r =>
      if Ascii.eqb c "_"%char then
        if after_digit then digits acc false r else None
      else
        match digit_val c with
        | Some d => digits (acc * 10 + d)%Z true r
        | None => None
        end
  end.

(** The decimal literals [int(s)] accepts (Python 3.6 and later):
    surrounding blanks, an optional sign, one or more ASCII digits with
    single underscores between them.  The digits and blanks of Unicode
    above the ASCII range are not recognised. *)
Definition parse_int (s : string) : option Z :=
  match strip s with
  | EmptyString => None
  | String c r =>
      if Ascii.eqb c "-"%char then option_map Z.opp (digits 0 false r)
      else if Ascii.eqb c "+"%char then digits 0 false r
      else digits 0 false (String c r)
  end.

(** The names of a [TypeError] of a call: ['a'], ['a' and 'b'],
    ['a', 'b', and 'c']. *)
Definition quoted_names (l : list string) : string :=
  match l with
  | [] => EmptyString
  | [a] => repr a
  | [a; b] => repr a ++ " and " ++ repr b
  | _ => join ", " (map repr (removelast l)) ++ ", and " ++ repr (last l EmptyString)
  end.

End PyStr.

(** [str.lower]: Python lowers a string with the case mapping of Unicode,
    which reaches beyond [A]-[Z] (an accented capital is lowered too).  The
    module uses it through this interface. *)
Class Lowercase : Type := str_lower : string -> string.

(** ** Values, exceptions, results *)

(** Python values that reach this module: what the YAML loader produces
    ([None], integers, strings, lists, ordered mappings with string keys) and
    the [argparse.Namespace]s the filler builds.  Floats and booleans are not
    part of the embedding. *)
Inductive value : Type :=
| VNone
| VInt (z : Z)
| VStr (s : string)
| VList (l : list value)
| VDict (d : list (string * value))
| VNamespace (d : list (string * value)).

(** Exception classes: the three this module declares and the builtin ones it
    raises or meets.  All of them derive from [Exception]. *)
Inductive exn_class : Type :=
| ConfigurationError
| EmptyConfigurationError
| PluginParsingError
| ValueError
| TypeError
| AttributeError
| KeyError
| IndexError
| OtherError (name : string).

(** An exception object: its class and its single argument [e.args[0]]. *)
Record exn : Type := mkExn { exn_class_of : exn_class; exn_arg : string }.

(** [str(e)]: the argument, which [KeyError] shows through [repr]. *)
Definition exn_str (e : exn) : string :=
  match exn_class_of e with
  | KeyError => PyStr.repr (exn_arg e)
  | _ => exn_arg e
  end.

(** [e.args = (msg,)] *)
Definition set_args (e : exn) (msg : string) : exn := mkExn (exn_class_of e) msg.

Inductive res (A : Type) : Type :=
| Ok (a : A)
| Raise (e : exn).
Arguments Ok {A} a.
Arguments Raise {A} e.

Definition bind {A B} (m : res A) (k : A -> res B) : res B :=
  match m with
  | Ok a => k a
  | Raise e => Raise e
  end.

Notation "x <- m ;; k" := (bind m (fun x => k))
  (at level 61, m at next level, right associativity).
Notation "' p <- m ;; k" := (bind m (fun p => k))
  (at level 61, p pattern, m at next level, right associativity).

(** [[f(v) for v in l]] where [f] may raise. *)
Fixpoint mapM {A B} (f : A -> res B) (l : list A) : res (list B) :=
  match l with
  | [] => Ok []
  | x :: r => y <- f x ;; ys <- mapM f r ;; Ok (y :: ys)
  end.

(** ** Ordered dictionaries *)

(** An [OrderedDict], and the attribute dictionary of a [Namespace], is an
    association list in insertion order with one entry per key; the
    operations below keep it so.  On such a list, iterating over the keys
    and looking each key up again is iterating over the entries. *)
Module OD.
Section Ops.
Context {V : Type}.

Fixpoint get (k : string) (d : list (string * V)) : option V :=
  match d with
  | [] => None
  | (k', v) :: r => if String.eqb k k' then Some v else get k r
  end.

Definition mem (k : string) (d : list (string * V)) : bool :=
  match get k d with Some _ => true | None => false end.

(** [d[k] = v]: in place when the key exists, appended otherwise. *)
Fixpoint set (k : string) (v : V) (d : list (string * V)) : list (string * V) :=
  match d with
  | [] => [(k, v)]
  | (k', v') :: r => if String.eqb k k' then (k, v) :: r else (k', v') :: set k v r
  end.

(** [del d[k]] *)
Fixpoint remove (k : string) (d : list (string * V)) : list (string * V) :=
  match d with
  | [] => []
  | (k', v) :: r => if String.eqb k k' then r else (k', v) :: remove k r
  end.

Definition keys (d : list (string * V)) : list string := map fst d.

(** [for k in l: if k in d: acc[k] = d[k]] *)
Definition copy_keys (d : list (string * V)) (l : list string)
    (acc : list (string * V)) : list (string * V) :=
  fold_left (fun acc k => match get k d with
                          | Some v => set k v acc
                          | None => acc
                          end) l acc.
End Ops.
End OD.

Definition mem_str (s : string) (l : list string) : bool :=
  existsb (String.eqb s) l.

(** [l.index(s)] for a string present in [l]. *)
Fixpoint index_of (s : string) (l : list string) : option nat :=
  match l with
  | [] => None
  | x :: r => if String.eqb s x then Some O else option_map S (index_of s r)
  end.

(** ** Builtins used on values *)

Definition type_name (v : value) : string :=
  match v with
  | VNone => "NoneType"
  | VInt _ => "int"
  | VStr _ => "str"
  | VList _ => "list"
  | VDict _ => "OrderedDict"
  | VNamespace _ => "Namespace"
  end.

Definition no_attribute (v : value) (attr : string) : exn :=
  mkExn AttributeError
    ("'" ++ type_name v ++ "' object has no attribute '" ++ attr ++ "'").

(** [repr(v)], as Python 3.9 and 3.10 print it. *)
Fixpoint py_repr (v : value) : string :=
  match v with
  | VNone => "None"
  | VInt z => PyStr.dec z
  | VStr s => PyStr.repr s
  | VList l => "[" ++ PyStr.join ", " (map py_repr l) ++ "]"
  | VDict d =>
      match d with
      | [] => "OrderedDict()"
      | _ => "OrderedDict(["
             ++ PyStr.join ", "
                  (map (fun p => "(" ++ PyStr.repr (fst p) ++ ", " ++ py_repr (snd p) ++ ")") d)
             ++ "])"
      end
  | VNamespace d =>
      "Namespace("
      ++ PyStr.join ", " (map (fun p => fst p ++ "=" ++ py_repr (snd p)) d) ++ ")"
  end.

(** The builtin [str] as a cast function. *)
Definition py_str (v : value) : res value :=
  match v with
  | VStr s => Ok (VStr s)
  | _ => Ok (VStr (py_repr v))
  end.

(** The builtin [int] as a cast function. *)
Definition py_int (v : value) : res value :=
  match v with
  | VInt z => Ok (VInt z)
  | VStr s =>
      match PyStr.parse_int s with
      | Some z => Ok (VInt z)
      | None =>
          Raise (mkExn ValueError
                   ("invalid literal for int() with base 10: " ++ PyStr.repr s))
      end
  | _ =>
      Raise (mkExn TypeError
               ("int() argument must be a string, a bytes-like object or a number, not '"
                ++ type_name v ++ "'"))
  end.

(** [len(v)] *)
Definition py_len (v : value) : res nat :=
  match v with
  | VList l => Ok (List.length l)
  | VStr s => Ok (String.length s)
  | VDict d => Ok (List.length d)
  | _ => Raise (mkExn TypeError ("object of type '" ++ type_name v ++ "' has no len()"))
  end.

Fixpoint chars (s : string) : list value :=
  match s with
  | EmptyString => []
  | String c r => VStr (String c EmptyString) :: chars r
  end.

(** [for x in v] *)
Definition py_iter (v : value) : res (list value) :=
  match v with
  | VList l => Ok l
  | VStr s => Ok (chars s)
  | VDict d => Ok (map (fun p => VStr (fst p)) d)
  | _ => Raise (mkExn TypeError ("'" ++ type_name v ++ "' object is not iterable"))
  end.

Definition is_str (k : string) (v : value) : bool :=
  match v with VStr s => String.eqb k s | _ => false end.

(** [k in v] for a string [k] *)
Definition py_contains (k : string) (v : value) : res bool :=
  match v with
  | VDict d => Ok (OD.mem k d)
  | VNamespace d => Ok (OD.mem k d)
  | VList l => Ok (existsb (is_str k) l)
  | VStr s => Ok (PyStr.contains s k)
  | _ => Raise (mkExn TypeError ("argument of type '" ++ type_name v ++ "' is not iterable"))
  end.

(** [v[k]] for a string [k] *)
Definition py_getitem (v : value) (k : string) : res value :=
  match v with
  | VDict d =>
      match OD.get k d with
      | Some x => Ok x
      | None => Raise (mkExn KeyError k)
      end
  | VList _ => Raise (mkExn TypeError "list indices must be integers or slices, not str")
  | VStr _ => Raise (mkExn TypeError "string indices must be integers")
  | _ => Raise (mkExn TypeError ("'" ++ type_name v ++ "' object is not subscriptable"))
  end.

(** [v.pop(k)]: the value and the object after the removal. *)
Definition py_pop (v : value) (k : string) : res (value * value) :=
  match v with
  | VDict d =>
      match OD.get k d with
      | Some x => Ok (x, VDict (OD.remove k d))
      | None => Raise (mkExn KeyError k)
      end
  | VList _ => Raise (mkExn TypeError "'str' object cannot be interpreted as an integer")
  | _ => Raise (no_attribute v "pop")
  end.

(** [v.pop(k, None)] *)
Definition py_pop_default (v : value) (k : string) : res (value * value) :=
  match v with
  | VDict d =>
      match OD.get k d with
      | Some x => Ok (x, VDict (OD.remove k d))
      | None => Ok (VNone, v)
      end
  | VList _ => Raise (mkExn TypeError "pop expected at most 1 argument, got 2")
  | _ => Raise (no_attribute v "pop")
  end.

(** [v.copy()]: a shallow copy.  The copy and the original share their
    sub-mappings; the original is not used after the copy is taken, and a
    document is a tree, so popping from a sub-mapping of the copy is seen
    nowhere else. *)
Definition py_copy (v : value) : res value :=
  match v with
  | VDict _ | VList _ => Ok v
  | _ => Raise (no_attribute v "copy")
  end.

(** ** Argument and ConstructorSchema *)

Definition castfn : Type := value -> res value.

(** The [type] field: one entry ([None] or a callable), or a tuple of
    entries. *)
Inductive argtype : Type :=
| TSingle (c : option castfn)
| TTuple (cs : list (option castfn)).

(** The [nargs] field: [None], an integer, ['+'], or another marker such as
    ['*']. *)
Inductive nargs_t : Type :=
| NNone
| NInt (n : Z)
| NPlus
| NStar.

Inductive Argument : Type :=
  mkArgument {
    name : string;
    required : bool;
    type : argtype;
    default : value;
    choices : option (list value);
    nargs : nargs_t;
    help : option string;
    subfields : list (string * Argument)
  }.

Definition schema_t : Type := list (string * Argument).

(** [Argument(name, required)], the other fields at their defaults. *)
Definition Argument_new (n : string) (req : bool) : Argument :=
  mkArgument n req (TSingle None) VNone None NNone (Some "") [].

Module ConstructorSchema.

(** Lines 300-301: a value that is not a list is wrapped when [nargs] is
    not [None]. *)
Definition wrap (arg : Argument) (val : value) : value :=
  match nargs arg with
  | NNone => val
  | _ => match val with VList _ => val | _ => VList [val] end
  end.

(** Lines 300-305: wrapping and the two cardinality checks. *)
Definition check_nargs (arg : Argument) (val : value) : res value :=
  let val := wrap arg val in
  _ <- match nargs arg with
       | NInt n =>
           len <- py_len val ;;
           if Z.eqb (Z.of_nat len) n then Ok tt
           else Raise (mkExn ValueError
                         ("'" ++ name arg ++ "' requires exactly "
                          ++ PyStr.dec n ++ " arguments"))
       | _ => Ok tt
       end ;;
  _ <- match nargs arg with
       | NPlus =>
           len <- py_len val ;;
           if Nat.eqb len 0 then
             Raise (mkExn ValueError
                      ("'" ++ name arg ++ "' requires at least one argument"))
           else Ok tt
       | _ => Ok tt
       end ;;
  Ok val.

(** The inner function [cast1], closed over [arg] and the wrapped value. *)
Definition cast1 (arg : Argument) (val : value) (cast : option castfn) : res value :=
  match cast with
  | None => Ok val
  | Some f =>
      match nargs arg with
      | NNone => f val
      | _ => l <- py_iter val ;; r <- mapM f l ;; Ok (VList r)
      end
  end.

(** The loop over [casts[:-1]]: the first candidate that returns wins, a
    candidate that raises is skipped. *)
Fixpoint try_casts (arg : Argument) (val : value) (casts : list (option castfn))
  : option value :=
  match casts with
  | [] => None
  | c :: rest =>
      match cast1 arg val c with
      | Ok r => Some r
      | Raise _ => try_casts arg val rest
      end
  end.

Fixpoint last_cast (casts : list (option castfn)) : res (option castfn) :=
  match casts with
  | [] => Raise (mkExn IndexError "tuple index out of range")
  | [c] => Ok c
  | _ :: rest => last_cast rest
  end.

Definition cast (arg : Argument) (val : value) : res value :=
  val <- check_nargs arg val ;;
  let casts := match type arg with
               | TSingle c => [c]
               | TTuple cs => cs
               end in
  match try_casts arg val (removelast casts) with
  | Some r => Ok r
  | None => c <- last_cast casts ;; cast1 arg val c
  end.

(** A candidate that raises on [val]. *)
Definition fails (arg : Argument) (val : value) (c : option castfn) : Prop :=
  exists e, cast1 arg val c = Raise e.

(** [contains], lines 334-340.  The loop looks every prefix segment up in
    [self], the top-level mapping, as the source does ([self[k]]). *)
Fixpoint contains_walk (self obj : schema_t) (prefix : list string) : res schema_t :=
  match prefix with
  | [] => Ok obj
  | k :: rest =>
      match OD.get k self with
      | Some a => contains_walk self (subfields a) rest
      | None => Raise (mkExn KeyError k)
      end
  end.

Definition contains (self : schema_t) (key : string) : res bool :=
  let split := PyStr.split_on "."%char key in
  let prefix := removelast split in
  let name := last split EmptyString in
  obj <- contains_walk self self prefix ;;
  Ok (OD.mem name obj).

(** An Argument whose [subfields] mapping, a shared mutable object, has
    been changed in place. *)
Definition map_subfields (f : schema_t -> schema_t) (a : Argument) : Argument :=
  mkArgument (name a) (required a) (type a) (default a) (choices a)
    (nargs a) (help a) (f (subfields a)).

(** The entry at [k] with its [subfields] mapping changed in place. *)
Fixpoint in_subfields (k : string) (f : schema_t -> schema_t) (obj : schema_t)
  : schema_t :=
  match obj with
  | [] => []
  | (k', a) :: r =>
      if String.eqb k k' then (k', map_subfields f a) :: r
      else (k', a) :: in_subfields k f r
  end.

(** Lines 368-372: the walk down the prefix, creating the parents that do
    not exist.  [seen] is [prefix[:i]]. *)
Fixpoint create_parents (required : bool) (seen prefix : list string)
    (obj : schema_t) : schema_t :=
  match prefix with
  | [] => obj
  | k :: rest =>
      let path := (seen ++ [k])%list in
      let obj1 := if OD.mem k obj then obj
                  else OD.set k (Argument_new (PyStr.join "." path) required) obj in
      in_subfields k (create_parents required path rest) obj1
  end.

(** The mapping [obj] the walk of lines 368-372 ends in. *)
Fixpoint descend (prefix : list string) (obj : schema_t) : option schema_t :=
  match prefix with
  | [] => Some obj
  | k :: rest =>
      match OD.get k obj with
      | Some a => descend rest (subfields a)
      | None => None
      end
  end.

(** A change of the mapping reached by [prefix]. *)
Fixpoint at_path (prefix : list string) (f : schema_t -> schema_t) (obj : schema_t)
  : schema_t :=
  match prefix with
  | [] => f obj
  | k :: rest => in_subfields k (at_path rest f) obj
  end.

(** [a._replace(type=, default=, choices=, help=, required=, nargs=)] *)
Definition replace_fields (a : Argument) (ty : argtype) (dflt : value)
    (ch : option (list value)) (na : nargs_t) (hlp : option string) (req : bool)
  : Argument :=
  mkArgument (name a) req ty dflt ch na hlp (subfields a).

(** [add_argument]: the schema after the call, and how the call ended. *)
Definition add_argument (self : schema_t) (nm : string) (ty : argtype)
    (dflt : value) (ch : option (list value)) (na : nargs_t)
    (hlp : option string) (req : bool) : schema_t * res unit :=
  let split := PyStr.split_on "."%char nm in
  let prefix := removelast split in
  let suffix := last split EmptyString in
  let self1 := create_parents req [] prefix self in
  match contains self1 nm with
  | Raise e => (self1, Raise e)
  | Ok false =>
      (at_path prefix (OD.set suffix (mkArgument nm req ty dflt ch na hlp [])) self1,
       Ok tt)
  | Ok true =>
      match descend prefix self1 with
      | Some obj =>
          match OD.get suffix obj with
          | Some old =>
              (at_path prefix
                 (OD.set suffix (replace_fields old ty dflt ch na hlp req)) self1,
               Ok tt)
          | None => (self1, Raise (mkExn KeyError suffix))
          end
      | None => (self1, Raise (mkExn KeyError suffix))
      end
  end.

(** Sequential access [schema[k1][k2]...], as the class documents it. *)
Fixpoint lookup (path : list string) (obj : schema_t) : option Argument :=
  match path with
  | [] => None
  | [k] => OD.get k obj
  | k :: rest =>
      match OD.get k obj with
      | Some a => lookup rest (subfields a)
      | None => None
      end
  end.

End ConstructorSchema.

(** ** Reconciling a schema with a signature *)

Fixpoint remove_first (s : string) (l : list string) : list string :=
  match l with
  | [] => []
  | x :: r => if String.eqb s x then r else x :: remove_first s r
  end.

Definition list_eqb (l1 l2 : list string) : bool :=
  if list_eq_dec string_dec l1 l2 then true else false.

(** Lines 647-653: required and defaulted names of the signature. *)
Definition signature_names (attrs : list string) (defaults : option (list value))
  : list string * list string * list string :=
  let args := tl attrs in
  match defaults with
  | Some ((_ :: _) as ds) =>
      let n := List.length ds in
      (args, firstn (List.length args - n) args, skipn (List.length args - n) args)
  | _ => (args, args, [])
  end.

(** Lines 661-666: the entry rebuilt with the inferred [required] and
    [default]. *)
Definition update_entry (required default_names : list string)
    (defaults : option (list value)) (a : Argument) : Argument :=
  let req := mem_str (name a) required in
  let dflt :=
    match index_of (name a) default_names with
    | Some i => nth i (match defaults with Some ds => ds | None => [] end) VNone
    | None => default a
    end in
  mkArgument (name a) req (type a) dflt (choices a) (nargs a) (help a) (subfields a).

(** Lines 669-672: bookkeeping of [extra] and [missing] for one entry. *)
Definition check_entry (args allowed : list string)
    (st : list string * list string) (a : Argument) : list string * list string :=
  let '(extra, missing) := st in
  if andb (negb (mem_str (name a) args)) (negb (mem_str (name a) allowed))
  then ((extra ++ [name a])%list, missing)
  else if mem_str (name a) missing then (extra, remove_first (name a) missing)
  else (extra, missing).

(** Lines 683-690: the schema rebuilt in signature order, the allowed names
    after it. *)
Definition reorder (args allowed : list string) (schema : schema_t) : schema_t :=
  OD.copy_keys schema (args ++ allowed)%list [].

(** Lines 674-690: the two sanity checks, then the reordering. *)
Definition check_and_reorder (args allowed : list string) (schema1 : schema_t)
    (extra missing : list string) : schema_t * res unit :=
  match missing with
  | _ :: _ =>
      (schema1, Raise (mkExn ValueError
                         ("missing arguments in schema : " ++ PyStr.repr_list missing ++ " ")))
  | [] =>
      match extra with
      | _ :: _ =>
          (schema1, Raise (mkExn ValueError
                             ("extra arguments in schema : " ++ PyStr.repr_list extra)))
      | [] =>
          let schema_keys := filter (fun k => mem_str k args) (OD.keys schema1) in
          if list_eqb schema_keys args then (schema1, Ok tt)
          else (reorder args allowed schema1, Ok tt)
      end
  end.

(** [update_schema]: the schema attached to [func] after the call, and how
    the call ended.  The update of [func.__doc__] (lines 693-696) is a help
    text and is not part of the embedding. *)
Definition update_schema (schema : schema_t) (attrs : list string)
    (defaults : option (list value)) (allowed : list string)
  : schema_t * res unit :=
  let '(args, required, default_names) := signature_names attrs defaults in
  let schema1 :=
    map (fun p => (fst p, update_entry required default_names defaults (snd p))) schema in
  let '(extra, missing) :=
    fold_left (check_entry args allowed) (map snd schema)
      ([], (default_names ++ required)%list) in
  check_and_reorder args allowed schema1 extra missing.

(** ** Filling a namespace from a configuration document *)

Definition namespace : Type := list (string * value).

(** [case_insensitive_name_match], lines 64-76. *)
Definition case_insensitive_name_match {L : Lowercase} (schema_name : string)
    (config : list (string * value)) : option string :=
  let config_names := OD.keys config in
  let lowered_config_names := map str_lower config_names in
  let lowered_schema_name := str_lower schema_name in
  match index_of lowered_schema_name lowered_config_names with
  | Some index => nth_error config_names index
  | None => None
  end.

(** The local name [arg.name.split('.')[-1]]. *)
Definition local_name (arg : Argument) : string :=
  last (PyStr.split_on "."%char (name arg)) EmptyString.

Section Filler.

Context {L : Lowercase}.

(** [traceback.format_exc()] for the exception being handled. *)
Variable format_exc : exn -> string.

(** The state the recursion threads: the namespace being filled, the
    document (or [None]) it pops from, and the [missing] list.  The names
    [setattr] is given here are local names of the schema, which are
    parameter names of a constructor: it stores them in the attribute
    dictionary. *)
Definition fill_state : Type := namespace * value * list string.

Fixpoint fill_namespace (ns : namespace) (arg : Argument) (config : value)
    (missing : list string) {struct arg} : res fill_state :=
  let schema_name := local_name arg in
  match arg with
  | mkArgument _ _ _ _ _ _ _ [] =>
      match config with
      | VNone => Ok (ns, config, missing)
      | VDict d =>
          match case_insensitive_name_match schema_name d with
          | Some config_match =>
              '(val, config') <- py_pop config config_match ;;
              match ConstructorSchema.cast arg val with
              | Ok r => Ok (OD.set schema_name r ns, config', missing)
              | Raise e =>
                  Raise (mkExn ConfigurationError
                           ("unable to cast '" ++ name arg ++ "' value: "
                            ++ format_exc e))
              end
          | None =>
              if required arg then Ok (ns, config, (missing ++ [name arg])%list)
              else Ok (ns, config, missing)
          end
      | _ => Raise (no_attribute config "keys")
      end
  | mkArgument _ _ _ _ _ _ _ ((_ :: _) as subs) =>
      '(subconfig, config') <- py_pop_default config schema_name ;;
      '(subns, _, missing') <-
        (fix fill_children (l : list (string * Argument)) (subns : namespace)
             (subconfig : value) (missing : list string) {struct l} : res fill_state :=
           match l with
           | [] => Ok (subns, subconfig, missing)
           | (_, child) :: rest =>
               '(subns', subconfig', missing') <-
                 fill_namespace subns child subconfig missing ;;
               fill_children rest subns' subconfig' missing'
           end) subs [] subconfig missing ;;
      match subns with
      | [] => Ok (ns, config', missing')
      | _ :: _ =>
          match ConstructorSchema.cast arg (VNamespace subns) with
          | Ok r => Ok (OD.set schema_name r ns, config', missing')
          | Raise e =>
              Raise (mkExn ConfigurationError
                       ("unable to cast '" ++ name arg ++ "' value: " ++ exn_str e))
          end
      end
  end.

(** The loop [for k in arg.subfields: fill_namespace(subns, arg[k], ...)],
    also the loop of [ReadConfigFile] over the top-level entries. *)
Fixpoint fill_children (l : list (string * Argument)) (ns : namespace)
    (config : value) (missing : list string) : res fill_state :=
  match l with
  | [] => Ok (ns, config, missing)
  | (_, child) :: rest =>
      '(ns', config', missing') <- fill_namespace ns child config missing ;;
      fill_children rest ns' config' missing'
  end.

(** The YAML loader, the plugin loader and the cosmology collaborators. *)
Variable ordered_load : string -> res value.
Variable load : value -> res unit.
Variable cosmology : Type.
Variable Cosmology : list (string * value) -> res cosmology.
Variable set_nbkit_cosmo : cosmology -> res unit.

(** Lines 180-191 *)
Definition load_config (config_stream : string) : res value :=
  match ordered_load config_stream with
  | Ok config =>
      match config with
      | VStr _ | VNone => Raise (mkExn EmptyConfigurationError "no valid keys found")
      | _ => Ok config
      end
  | Raise e =>
      match exn_class_of e with
      | EmptyConfigurationError => Raise e
      | _ => Raise (mkExn ConfigurationError
                      ("error parsing YAML file: " ++ exn_str e))
      end
  end.

(** Lines 194-200 *)
Definition load_plugins (config : value) : res value :=
  has <- py_contains "X" config ;;
  if has then
    plugins <- py_getitem config "X" ;;
    let plugins := match plugins with VStr _ => VList [plugins] | _ => plugins end in
    l <- py_iter plugins ;;
    _ <- mapM load l ;;
    '(_, config') <- py_pop config "X" ;;
    Ok config'
  else Ok config.

(** Lines 203-206 *)
Definition load_cosmo (config : value) : res value :=
  has <- py_contains "cosmo" config ;;
  if has then
    '(kw, config') <- py_pop config "cosmo" ;;
    match kw with
    | VDict d => cosmo <- Cosmology d ;; _ <- set_nbkit_cosmo cosmo ;; Ok config'
    | _ => Raise (mkExn TypeError
                    ("type object argument after ** must be a mapping, not "
                     ++ type_name kw))
    end
  else Ok config.

(** [setattr(unknown, k, v)] on a fresh [Namespace], for a name [k] that
    comes from the document.  Three names are not stored in the attribute
    dictionary: [__class__] wants a class, which no value of a document is;
    [__dict__] wants a mapping and makes it the attribute dictionary;
    [__weakref__] is read-only. *)
Definition special_attribute (k : string) : bool :=
  mem_str k ["__class__"; "__dict__"; "__weakref__"].

Definition py_setattr (ns : namespace) (k : string) (v : value) : res namespace :=
  if String.eqb k "__class__" then
    Raise (mkExn TypeError
             ("__class__ must be set to a class, not '" ++ type_name v ++ "' object"))
  else if String.eqb k "__dict__" then
    match v with
    | VDict d => Ok d
    | _ => Raise (mkExn TypeError
                    ("__dict__ must be set to a dictionary, not a '"
                     ++ type_name v ++ "'"))
    end
  else if String.eqb k "__weakref__" then
    Raise (mkExn AttributeError
             "attribute '__weakref__' of '_AttributeHolder' objects is not writable")
  else Ok (OD.set k v ns).

(** [for k in keys: setattr(unknown, k, extra[k])] *)
Fixpoint set_each (extra : list (string * value)) (keys : list string)
    (unknown : namespace) : res namespace :=
  match keys with
  | [] => Ok unknown
  | k :: rest =>
      match OD.get k extra with
      | Some v => unknown' <- py_setattr unknown k v ;; set_each extra rest unknown'
      | None => Raise (mkExn KeyError k)
      end
  end.

(** Lines 215-216: [for k in extra: setattr(unknown, k, extra[k])] *)
Definition store_unknown (extra : value) : res namespace :=
  match extra with
  | VDict d => set_each d (OD.keys d) []
  | VList [] => Ok []
  | VList ((VInt i :: _) as l) =>
      if andb (Z.leb (- Z.of_nat (List.length l)) i) (Z.ltb i (Z.of_nat (List.length l)))
      then Raise (mkExn TypeError "attribute name must be string, not 'int'")
      else Raise (mkExn IndexError "list index out of range")
  | VList (x :: _) =>
      Raise (mkExn TypeError
               ("list indices must be integers or slices, not " ++ type_name x))
  | _ => Raise (mkExn TypeError ("'" ++ type_name extra ++ "' object is not iterable"))
  end.

Definition ReadConfigFile (config_stream : string) (schema : schema_t)
  : res (namespace * namespace) :=
  config <- load_config config_stream ;;
  config <- load_plugins config ;;
  config <- load_cosmo config ;;
  extra <- py_copy config ;;
  '(ns, extra, missing) <- fill_children schema [] extra [] ;;
  unknown <- store_unknown extra ;;
  match missing with
  | _ :: _ =>
      Raise (mkExn ValueError
               ("missing required arguments: " ++ PyStr.repr_list missing))
  | [] => Ok (ns, unknown)
  end.

End Filler.

(** ** The constructor wrapper *)

(** The result of [inspect.getargspec(init)]. *)
Record argspec : Type := mkArgspec {
  attrs : list string;
  varargs : option string;
  varkw : option string;
  defaults : list value
}.

Section Binding.

(** [==] on values, as [val not in arg.choices] uses it. *)
Variable py_eq : value -> value -> bool.

(** The order in which Python lists the elements of a [set] built from
    the given names. *)
Variable set_order : list string -> list string.

(** [check_choices], lines 625-629 *)
Definition check_choices (schema : schema_t) (attr : string) (val : value)
  : res unit :=
  match OD.get attr schema with
  | Some arg =>
      match choices arg with
      | Some cs =>
          if existsb (py_eq val) cs then Ok tt
          else Raise (mkExn ValueError
                        ("valid choices for '" ++ name arg ++ "' are: '"
                         ++ py_repr (VList cs) ++ "'"))
      | None => Ok tt
      end
  | None => Ok tt
  end.

(** One line of the diagnostic: ["\t%-25s: %s\n" % (s, str(names))] *)
Definition errmsg_line (s : string) (names : list string) : string :=
  PyStr.tab ++ PyStr.ljust 25 s ++ ": " ++ PyStr.repr_list names ++ PyStr.nl.

(** [list(set(posargs.keys()) & set(kwargs.keys()))] *)
Definition duplicated_names (posargs kwargs : namespace) : list string :=
  set_order (filter (fun k => OD.mem k kwargs) (OD.keys posargs)).

(** Lines 598-602 *)
Definition missing_names (schema : schema_t) (posargs kwargs : namespace)
  : list string :=
  let required := filter (fun s => match OD.get s schema with
                                   | Some a => required a
                                   | None => false
                                   end) (OD.keys schema) in
  filter (fun r => andb (negb (OD.mem r posargs)) (negb (OD.mem r kwargs))) required.

(** Lines 608-612 *)
Definition extra_names (schema : schema_t) (posargs kwargs : namespace)
  : list string :=
  let keys := set_order (OD.keys posargs ++ OD.keys kwargs)%list in
  filter (fun k => negb (OD.mem k schema)) keys.

(** [if len(names): errmsg += "\t%-25s: %s\n" % (s, str(names))] *)
Definition errmsg_part (s : string) (names : list string) : string :=
  match names with
  | [] => EmptyString
  | _ :: _ => errmsg_line s names
  end.

Definition get_init_errmsg (schema : schema_t) (posargs kwargs : namespace)
  : string :=
  errmsg_part "duplicated arguments" (duplicated_names posargs kwargs)
  ++ errmsg_part "missing arguments" (missing_names schema posargs kwargs)
  ++ errmsg_part "extra arguments" (extra_names schema posargs kwargs).

(** What the decorator is applied to and closes over. *)
Variable spec : argspec.
Variable schema : schema_t.
Variable attach_comm attach_cosmo : bool.
Variable class_name : string.
Variable get_nbkit_comm get_nbkit_cosmo : value.

(** The call [init(self, *args, **kwargs)]: the instance when it returns. *)
Variable init : namespace -> list value -> namespace -> res namespace.

Definition allowed : list string :=
  ((if attach_cosmo then ["cosmo"] else []) ++ (if attach_comm then ["comm"] else []))%list.

Definition rule : string := PyStr.repeat_char "-"%char 75.

(** Lines 570-575: the message that replaces [e.args]. *)
Definition init_error_message (e : exn) (errmsg : string) : string :=
  PyStr.nl ++ rule ++ PyStr.nl
  ++ "error initializing __init__ for '" ++ class_name ++ "':" ++ PyStr.nl
  ++ PyStr.tab ++ PyStr.ljust 25 "original error message" ++ ": '" ++ exn_str e ++ "'"
  ++ PyStr.nl
  ++ (match errmsg with EmptyString => EmptyString | _ => errmsg ++ PyStr.nl end)
  ++ rule ++ PyStr.nl.

(** Lines 534-536 *)
Definition pop_allowed (st : namespace * namespace) (k : string)
  : namespace * namespace :=
  let '(self, kwargs) := st in
  match OD.get k kwargs with
  | Some v => (OD.set k v self, OD.remove k kwargs)
  | None => (self, kwargs)
  end.

(** Lines 543-548 *)
Fixpoint bind_positional (l : list (string * value)) (self posargs : namespace)
  : res (namespace * namespace) :=
  match l with
  | [] => Ok (self, posargs)
  | (attr, val) :: rest =>
      _ <- check_choices schema attr val ;;
      bind_positional rest (OD.set attr val self) (OD.set attr val posargs)
  end.

(** Lines 556-559 *)
Fixpoint bind_keywords (l : list (string * value)) (self : namespace)
  : res namespace :=
  match l with
  | [] => Ok self
  | (attr, val) :: rest =>
      _ <- check_choices schema attr val ;;
      bind_keywords rest (OD.set attr val self)
  end.

(** Everything the wrapper does before it calls [init]: the instance, the
    positional bindings and the keywords that remain. *)
Definition bind_arguments (self : namespace) (args : list value) (kwargs : namespace)
  : res (namespace * namespace * namespace) :=
  let self := if attach_comm then OD.set "comm" get_nbkit_comm self else self in
  let self := if attach_cosmo then OD.set "cosmo" get_nbkit_cosmo self else self in
  let '(self, kwargs) := fold_left pop_allowed allowed (self, kwargs) in
  let self := fold_left (fun s p => OD.set (fst p) (snd p) s)
                (combine (rev (attrs spec)) (rev (defaults spec))) self in
  let positional_attrs := tl (attrs spec) in
  '(self, posargs) <- bind_positional (combine positional_attrs args) self [] ;;
  let self := match varargs spec with
              | Some va => OD.set va (VList (skipn (List.length positional_attrs) args)) self
              | None => self
              end in
  self <- bind_keywords kwargs self ;;
  Ok (self, posargs, kwargs).

Definition wrapper (self : namespace) (args : list value) (kwargs : namespace)
  : res namespace :=
  '(self, posargs, kwargs) <- bind_arguments self args kwargs ;;
  match init self args kwargs with
  | Ok r => Ok r
  | Raise e =>
      let errmsg := get_init_errmsg schema posargs kwargs in
      Raise (set_args e (init_error_message e errmsg))
  end.

End Binding.

(** Python's binding of the call [init(self, *args, **kwargs)] to the
    signature [spec], before the body runs: keywords against the positional
    slots, then the number of positional arguments, then the parameters left
    without a value.  The messages are worded as Python 3.9 words them
    (later versions put the name of the class in front). *)
Definition call_init (spec : argspec) (body : namespace -> res namespace)
    (self : namespace) (args : list value) (kwargs : namespace) : res namespace :=
  let params := tl (attrs spec) in
  let filled := firstn (List.length args) params in
  let kw_error :=
    find (fun k => orb (mem_str k filled)
                       (andb (negb (mem_str k params))
                             (match varkw spec with None => true | Some _ => false end)))
         (OD.keys kwargs) in
  match kw_error with
  | Some k =>
      if mem_str k filled then
        Raise (mkExn TypeError ("__init__() got multiple values for argument '" ++ k ++ "'"))
      else
        Raise (mkExn TypeError ("__init__() got an unexpected keyword argument '" ++ k ++ "'"))
  | None =>
      if andb (Nat.ltb (List.length params) (List.length args))
              (match varargs spec with None => true | Some _ => false end)
      then
        let most := List.length (attrs spec) in
        let least := most - List.length (defaults spec) in
        let given := S (List.length args) in
        Raise (mkExn TypeError
                 ("__init__() takes "
                  ++ (if Nat.eqb least most then PyStr.dec (Z.of_nat most)
                      else "from " ++ PyStr.dec (Z.of_nat least) ++ " to "
                           ++ PyStr.dec (Z.of_nat most))
                  ++ " positional argument" ++ (if Nat.eqb most 1 then "" else "s")
                  ++ " but " ++ PyStr.dec (Z.of_nat given)
                  ++ (if Nat.eqb given 1 then " was" else " were") ++ " given"))
      else
        let required := firstn (List.length params - List.length (defaults spec)) params in
        match filter (fun k => andb (negb (mem_str k filled)) (negb (OD.mem k kwargs)))
                required with
        | [] => body self
        | missing =>
            Raise (mkExn TypeError
                     ("__init__() missing " ++ PyStr.dec (Z.of_nat (List.length missing))
                      ++ " required positional argument"
                      ++ (match missing with [_] => "" | _ => "s" end) ++ ": "
                      ++ PyStr.quoted_names missing))
        end
  end.

(** ** Notions the statements use *)

(** The first key of a document that equals [schema_name] up to case: what
    [case_insensitive_name_match] computes, by recursion on the document. *)
Fixpoint ci_find {L : Lowercase} (schema_name : string)
    (config : list (string * value)) : option string :=
  match config with
  | [] => None
  | (k, _) :: r =>
      if String.eqb (str_lower schema_name) (str_lower k) then Some k
      else ci_find schema_name r
  end.

(** A document without its entries under [k]. *)
Definition without (k : string) (d : list (string * value)) : list (string * value) :=
  filter (fun p => negb (String.eqb (fst p) k)) d.

(** Whether filling the top-level entry [a] can take the document key [k]:
    a leaf matches up to case, a container pops its own local name. *)
Definition consumes {L : Lowercase} (a : Argument) (k : string) : bool :=
  match subfields a with
  | [] => String.eqb (str_lower (local_name a)) (str_lower k)
  | _ :: _ => String.eqb (local_name a) k
  end.

(** A key that is not reserved and that no top-level entry can take. *)
Definition unmatched {L : Lowercase} (schema : schema_t) (k : string) : bool :=
  andb (andb (negb (String.eqb k "X")) (negb (String.eqb k "cosmo")))
       (forallb (fun p => negb (consumes (snd p) k)) schema).

Fixpoint distinctb (l : list string) : bool :=
  match l with
  | [] => true
  | x :: r => andb (negb (mem_str x r)) (distinctb r)
  end.

(** The local names of the entries of a mapping of Arguments, lowered. *)
Definition lowered_names {L : Lowercase} (subs : list (string * Argument))
  : list string :=
  map (fun p => str_lower (local_name (snd p))) subs.

(** At every node below [a], no two children have local names equal up to
    case. *)
Fixpoint distinct_names {L : Lowercase} (a : Argument) : bool :=
  match a with
  | mkArgument _ _ _ _ _ _ _ subs =>
      andb (distinctb (map (fun p => str_lower (local_name (snd p))) subs))
           (forallb (fun p => distinct_names (snd p)) subs)
  end.

(** [unmatched_leaf a d n]: [n] is the dotted name of a required leaf at or
    below [a] that has no key equal up to case in its mapping, which is [d]
    for [a] itself and, below a container, the mapping the document holds
    under the container's local name. *)
Inductive unmatched_leaf {L : Lowercase}
  : Argument -> list (string * value) -> string -> Prop :=
| UL_leaf a d :
    subfields a = [] -> required a = true ->
    ci_find (local_name a) d = None ->
    unmatched_leaf a d (name a)
| UL_sub a d sub k child n :
    OD.get (local_name a) d = Some (VDict sub) ->
    In (k, child) (subfields a) ->
    unmatched_leaf child sub n ->
    unmatched_leaf a d n.

(** The fill of [a] records every unmatched required leaf at or below [a]. *)
Definition reports_unmatched {L : Lowercase} (format_exc : exn -> string)
    (a : Argument) : Prop :=
  forall ns d m ns' c' m' n,
    distinct_names a = true ->
    fill_namespace format_exc ns a (VDict d) m = Ok (ns', c', m') ->
    unmatched_leaf a d n -> In n m'.

(** The fields of a parent that [add_argument] creates at [path]. *)
Definition is_created_parent (req : bool) (path : list string) (a : Argument) : Prop :=
  name a = PyStr.join "." path /\ required a = req /\ type a = TSingle None
  /\ default a = VNone /\ choices a = None /\ nargs a = NNone /\ help a = Some "".

(** The outcome of a fill with the key [k] taken out of what is left of the
    document. *)
Definition strip_key (k : string) (r : res (namespace * value * list string))
  : res (namespace * value * list string) :=
  match r with
  | Ok (ns, VDict e, missing) => Ok (ns, VDict (without k e), missing)
  | _ => r
  end.

Definition strip_doc (k : string) (r : res value) : res value :=
  match r with
  | Ok (VDict e) => Ok (VDict (without k e))
  | _ => r
  end.

(** ** Schemas and documents of the examples *)

Module Examples.

Definition leaf (n : string) (req : bool) : Argument :=
  mkArgument n req (TSingle None) VNone None NNone None [].

(** A container [field] with the required leaf [field.Nmesh]. *)
Definition field : Argument :=
  mkArgument "field" false (TSingle None) VNone None NNone (Some "")
    [("Nmesh", leaf "field.Nmesh" true)].

(** A container whose child is a container. *)
Definition outer : Argument :=
  mkArgument "outer" false (TSingle None) VNone None NNone (Some "")
    [("field", mkArgument "outer.field" false (TSingle None) VNone None NNone (Some "")
                 [("Nmesh", leaf "outer.field.Nmesh" true)])].

Definition two_required : schema_t := [("a", leaf "a" true); ("b", leaf "b" true)].

Definition plain_traceback (e : exn) : string := exn_str e.
Definition no_plugin (_ : value) : res unit := Ok tt.
Definition no_cosmology (_ : list (string * value)) : res unit := Ok tt.
Definition register (_ : unit) : res unit := Ok tt.

(** A loader that hands back the parsed document [doc] for any stream. *)
Definition loads (doc : value) (_ : string) : res value := Ok doc.

(** The names of the examples are ASCII. *)
Definition ascii_names : Lowercase := PyStr.lower.

Definition read (doc : value) (schema : schema_t) : res (namespace * namespace) :=
  ReadConfigFile (L := ascii_names) plain_traceback (loads doc) no_plugin unit
    no_cosmology register EmptyString schema.

(** The constructor of the scenario: a required [name], a [size] that
    defaults to 10. *)
Definition box_spec : argspec := mkArgspec ["self"; "name"; "size"] None None [VInt 10].

Definition box_schema : schema_t :=
  [("name", mkArgument "name" true (TSingle (Some py_str)) VNone None NNone None []);
   ("size", mkArgument "size" false (TSingle (Some py_int)) (VInt 10) None NNone None [])].

Definition box_init : namespace -> list value -> namespace -> res namespace :=
  call_init box_spec (fun self => Ok self).

Definition same_value (_ _ : value) : bool := true.

Definition box_wrapper : namespace -> list value -> namespace -> res namespace :=
  wrapper same_value (nodup string_dec) box_spec box_schema false false "Box"
    VNone VNone box_init.

End Examples.

(** ** Declaration time *)

(** [attribute(name, **kwargs)] applied to a function: the schema attached
    to the function afterwards ([None] when it had none before). *)
Definition attribute (func_schema : option schema_t) (nm : string) (ty : argtype)
    (dflt : value) (ch : option (list value)) (na : nargs_t)
    (hlp : option string) (req : bool) : schema_t * res unit :=
  ConstructorSchema.add_argument
    (match func_schema with Some s => s | None => [] end) nm ty dflt ch na hlp req.

Definition cosmo_help : string := "the `Cosmology` class relevant for the DataSource".
Definition comm_help : string := "the global MPI communicator".

(** Lines 506-509 and 511-514: an ambient argument is declared unless the
    schema has it. *)
Definition declare_ambient (nm hlp : string) (schema : schema_t) : schema_t * res unit :=
  if OD.mem nm schema then (schema, Ok tt)
  else ConstructorSchema.add_argument schema nm (TSingle None) VNone None NNone
         (Some hlp) false.

(** What [autoassign] does to [init.schema] when the decorator is applied
    (lines 502-518): the schema afterwards, and how the declaration ended. *)
Definition autoassign_declare (schema : schema_t) (spec : argspec)
    (attach_comm attach_cosmo : bool) : schema_t * res unit :=
  let '(schema1, r1) :=
    if attach_cosmo then declare_ambient "cosmo" cosmo_help schema
    else (schema, Ok tt) in
  match r1 with
  | Raise e => (schema1, Raise e)
  | Ok _ =>
      let '(schema2, r2) :=
        if attach_comm then declare_ambient "comm" comm_help schema1
        else (schema1, Ok tt) in
      match r2 with
      | Raise e => (schema2, Raise e)
      | Ok _ =>
          update_schema schema2 (attrs spec) (Some (defaults spec))
            (allowed attach_comm attach_cosmo)
      end
  end.

(** ** Further notions the statements use *)

(** The candidates [casts] of lines 315-319. *)
Definition candidates (arg : Argument) : list (option castfn) :=
  match type arg with
  | TSingle c => [c]
  | TTuple cs => cs
  end.

(** [required_leaf_of a n]: [n] is the dotted name of a required leaf at or
    below [a]. *)
Inductive required_leaf_of : Argument -> string -> Prop :=
| RL_leaf a :
    subfields a = [] -> required a = true -> required_leaf_of a (name a)
| RL_sub a k child n :
    In (k, child) (subfields a) -> required_leaf_of child n -> required_leaf_of a n.

(** The classes of the exceptions a fill can end in. *)
Definition fill_error_class (c : exn_class) : bool :=
  match c with
  | ConfigurationError | AttributeError | TypeError => true
  | _ => false
  end.

(** The keys [copy_keys] leaves: each key of [l] that [d] has is appended
    unless it is there. *)
Definition append_keys {V} (d : list (string * V)) (l ks : list string) : list string :=
  fold_left (fun ks k => if andb (OD.mem k d) (negb (mem_str k ks))
                         then (ks ++ [k])%list else ks) l ks.

(** ** Further schemas, documents and calls of the examples *)

Module MoreExamples.

Definition int_only : Argument :=
  mkArgument "n" false (TTuple [Some py_int]) VNone None NNone None [].

Definition one_or_more : Argument :=
  mkArgument "files" false (TSingle (Some py_str)) VNone None NPlus None [].

Definition int_or_raw : Argument :=
  mkArgument "v" false (TTuple [Some py_int; None]) VNone None NNone None [].

Definition nmesh : Argument :=
  mkArgument "Nmesh" true (TSingle (Some py_int)) VNone None NNone None [].

Definition nmesh_doc : list (string * value) :=
  [("mode", VStr "1d"); ("nmesh", VStr "64")].

Definition plugin_doc : list (string * value) :=
  [("X", VStr "plugin.py"); ("cosmo", VDict [("H0", VInt 70)]); ("nmesh", VStr "64")].

(** A loader that knows two streams. *)
Definition two_streams (d d' : list (string * value)) (s : string) : res value :=
  if String.eqb s "second" then Ok (VDict d') else Ok (VDict d).

Definition no_document (s : string) : res value :=
  if String.eqb s "empty" then Ok VNone
  else Raise (mkExn (OtherError "ScannerError") "mapping values are not allowed here").

Definition read_from (loader : string -> res value) (stream : string)
    (schema : schema_t) : res (namespace * namespace) :=
  ReadConfigFile (L := Examples.ascii_names) Examples.plain_traceback loader
    Examples.no_plugin unit Examples.no_cosmology Examples.register stream schema.

(** The schema of the box, declared in the other order. *)
Definition box_schema_reversed : schema_t :=
  [("size", mkArgument "size" true (TSingle (Some py_int)) VNone None NNone None []);
   ("name", mkArgument "name" false (TSingle (Some py_str)) VNone None NNone None [])].

Definition colour_schema : schema_t :=
  [("name", mkArgument "name" true (TSingle (Some py_str)) VNone
              (Some [VStr "red"; VStr "blue"]) NNone None []);
   ("size", mkArgument "size" false (TSingle (Some py_int)) (VInt 10) None NNone None [])].

(** [str.lower] on UTF-8 strings of the ASCII range and of the capitals of
    the Latin-1 supplement (the bytes [C3 80]-[C3 9E] but [C3 97], lowered by
    32 in the second byte). *)
Fixpoint lower_latin (s : string) : string :=
  match s with
  | EmptyString => EmptyString
  | String c r =>
      if Nat.eqb (nat_of_ascii c) 195 then
        match r with
        | EmptyString => String c EmptyString
        | String d r' =>
            let n := nat_of_ascii d in
            String c
              (String (if andb (andb (Nat.leb 128 n) (Nat.leb n 158))
                               (negb (Nat.eqb n 151))
                       then ascii_of_nat (n + 32) else d)
                 (lower_latin r'))
        end
      else String (PyStr.lower_ascii c) (lower_latin r)
  end.

Definition latin_names : Lowercase := lower_latin.

(** The word ecole with an acute accent on its first letter, in capitals
    and in small letters (UTF-8). *)
Definition ECOLE : string :=
  String (ascii_of_nat 195) (String (ascii_of_nat 137) "COLE").
Definition ecole : string :=
  String (ascii_of_nat 195) (String (ascii_of_nat 169) "cole").

(** [==] on the strings and integers of the examples. *)
Definition scalar_eq (a b : value) : bool :=
  match a, b with
  | VStr s, VStr t => String.eqb s t
  | VInt x, VInt y => Z.eqb x y
  | VNone, VNone => true
  | _, _ => false
  end.

End MoreExamples.

(** * Properties *)

(** ** The error monad and the list helpers *)

Lemma bind_ok_inv {A B} (m : res A) (k : A -> res B) (b : B) :
  bind m k = Ok b -> exists a, m = Ok a /\ k a = Ok b.
Proof.
  destruct m as [a | e]; simpl; intros H; [eauto | discriminate].
Qed.

Lemma mapM_ok_iff {A B} (f : A -> res B) (l : list A) (r : list B) :
  mapM f l = Ok r <-> Forall2 (fun x y => f x = Ok y) l r.
Proof.
  revert r; induction l as [| x l IH]; intros r; simpl.
  - split; intros H.
    + injection H as <-. constructor.
    + inversion H. reflexivity.
  - split; intros H.
    + apply bind_ok_inv in H as (y & Hy & H).
      apply bind_ok_inv in H as (ys & Hys & H).
      injection H as <-. constructor; [assumption | now apply IH].
    + inversion H as [| ? y ? ys Hy Hys]; subst.
      rewrite Hy; simpl. apply IH in Hys. rewrite Hys. reflexivity.
Qed.

Lemma mapM_length {A B} (f : A -> res B) (l : list A) (r : list B) :
  mapM f l = Ok r -> List.length r = List.length l.
Proof.
  intros H. apply mapM_ok_iff in H. symmetry. eapply Forall2_length; eassumption.
Qed.

Lemma mem_str_In (s : string) (l : list string) : mem_str s l = true <-> In s l.
Proof.
  unfold mem_str. rewrite existsb_exists. split.
  - intros (x & Hx & E). apply String.eqb_eq in E. now subst.
  - intros H. exists s. split; [assumption | apply String.eqb_refl].
Qed.

(** ** Ordered dictionaries and key matching *)

Module ODFacts.
Section Get.
Context {V : Type}.
Implicit Types (d : list (string * V)) (k : string).

Lemma get_remove_ne k k' d :
  k <> k' -> OD.get k (OD.remove k' d) = OD.get k d.
Proof.
  intros N. induction d as [| [x v] d IH]; simpl; [reflexivity |].
  destruct (String.eqb_spec k' x) as [-> | N'].
  - destruct (String.eqb_spec k x); [contradiction | reflexivity].
  - simpl. rewrite IH. reflexivity.
Qed.

Lemma get_set k k' (v : V) d :
  OD.get k (OD.set k' v d) = if String.eqb k k' then Some v else OD.get k d.
Proof.
  induction d as [| [x w] d IH]; simpl.
  - reflexivity.
  - destruct (String.eqb_spec k' x) as [-> | N]; simpl.
    + destruct (String.eqb_spec k x); reflexivity.
    + rewrite IH. destruct (String.eqb_spec k x) as [-> | N2];
        [| reflexivity].
      destruct (String.eqb_spec x k'); [congruence | reflexivity].
Qed.

Lemma get_In k d : OD.get k d <> None <-> In k (OD.keys d).
Proof.
  induction d as [| [x v] d IH]; simpl.
  - split; [congruence | intros []].
  - destruct (String.eqb_spec k x) as [-> | N].
    + split; [now left | discriminate].
    + rewrite IH. split; [now right | intros [E | H]; congruence].
Qed.

Lemma get_not_In k d : ~ In k (OD.keys d) -> OD.get k d = None.
Proof.
  intros H. destruct (OD.get k d) eqn:E; [| reflexivity].
  exfalso. apply H, get_In. congruence.
Qed.

Lemma get_copy_keys d k l acc :
  OD.get k (OD.copy_keys d l acc)
  = if mem_str k l then
      match OD.get k d with Some v => Some v | None => OD.get k acc end
    else OD.get k acc.
Proof.
  unfold OD.copy_keys.
  revert acc. induction l as [| x l IH]; intros acc; simpl; [reflexivity |].
  rewrite IH. destruct (String.eqb_spec k x) as [-> | N]; simpl.
  - destruct (OD.get x d) as [v |] eqn:E.
    + rewrite get_set, String.eqb_refl. destruct (mem_str x l); reflexivity.
    + destruct (mem_str x l); reflexivity.
  - destruct (OD.get x d) as [v |] eqn:E; [| reflexivity].
    rewrite get_set. destruct (String.eqb_spec k x); [contradiction |].
    reflexivity.
Qed.

Lemma keys_remove_incl k d x : In x (OD.keys (OD.remove k d)) -> In x (OD.keys d).
Proof.
  induction d as [| [y v] d IH]; simpl; [tauto |].
  destruct (String.eqb k y); simpl; tauto.
Qed.
End Get.

Lemma get_without_ne k k' d : k' <> k -> OD.get k' (without k d) = OD.get k' d.
Proof.
  intros N. induction d as [| [x v] d IH]; simpl; [reflexivity |].
  destruct (String.eqb_spec x k) as [-> | N']; simpl.
  - destruct (String.eqb_spec k' k); [contradiction | exact IH].
  - rewrite IH. reflexivity.
Qed.

Lemma remove_without k k' d :
  k' <> k -> OD.remove k' (without k d) = without k (OD.remove k' d).
Proof.
  intros N. induction d as [| [x v] d IH]; simpl; [reflexivity |].
  destruct (String.eqb_spec x k) as [-> | N1]; simpl.
  - destruct (String.eqb_spec k' k); [contradiction |]. simpl.
    rewrite String.eqb_refl. simpl. exact IH.
  - destruct (String.eqb_spec k' x) as [-> | N2]; [reflexivity |].
    simpl. destruct (String.eqb_spec x k); [contradiction |]. simpl.
    rewrite IH. reflexivity.
Qed.

Section Match.
Context {L : Lowercase}.

(** [case_insensitive_name_match] returns the first key equal up to case. *)
Lemma name_match_find n d : case_insensitive_name_match n d = ci_find n d.
Proof.
  unfold case_insensitive_name_match.
  induction d as [| [x v] d IH]; simpl; [reflexivity |].
  destruct (String.eqb (str_lower n) (str_lower x)); [reflexivity |].
  unfold OD.keys in *.
  destruct (index_of (str_lower n) (map str_lower (map fst d))); simpl; exact IH.
Qed.

Lemma ci_find_Some n d k :
  ci_find n d = Some k ->
  str_lower n = str_lower k /\ In k (OD.keys d).
Proof.
  induction d as [| [x v] d IH]; simpl; [discriminate |].
  destruct (String.eqb_spec (str_lower n) (str_lower x)) as [E | _].
  - intros [= <-]. split; [assumption | now left].
  - intros H. destruct (IH H). split; [assumption | now right].
Qed.

Lemma ci_find_None n d :
  ci_find n d = None <->
  forall k, In k (OD.keys d) -> str_lower n <> str_lower k.
Proof.
  induction d as [| [x v] d IH]; simpl.
  - split; [intros _ k [] | reflexivity].
  - destruct (String.eqb_spec (str_lower n) (str_lower x)) as [E | N].
    + split; [discriminate |]. intros H. exfalso. apply (H x); [now left | assumption].
    + rewrite IH. split.
      * intros H k [<- | Hin]; [assumption | now apply H].
      * intros H k Hin. apply H. now right.
Qed.

Lemma ci_find_without n k d :
  str_lower n <> str_lower k -> ci_find n (without k d) = ci_find n d.
Proof.
  intros N. induction d as [| [x v] d IH]; simpl; [reflexivity |].
  destruct (String.eqb_spec x k) as [-> | N1]; simpl.
  - destruct (String.eqb_spec (str_lower n) (str_lower k)); [contradiction | exact IH].
  - rewrite IH. reflexivity.
Qed.

End Match.

End ODFacts.

(** ** The cast engine *)

Module CastFacts.
Import ConstructorSchema.

Lemma try_casts_all_fail arg val pre rest :
  Forall (fails arg val) pre ->
  try_casts arg val (pre ++ rest)%list = try_casts arg val rest.
Proof.
  induction 1 as [| c pre (e & He) _ IH]; simpl; [reflexivity |].
  rewrite He. exact IH.
Qed.

Lemma removelast_snoc {A} (pre : list A) (c : A) :
  removelast (pre ++ [c])%list = pre.
Proof. apply removelast_last. Qed.

Lemma removelast_mid {A} (pre : list A) (c d : A) (post : list A) :
  removelast (pre ++ c :: d :: post)%list
  = (pre ++ c :: removelast (d :: post))%list.
Proof.
  rewrite removelast_app by discriminate. reflexivity.
Qed.

Lemma last_cast_snoc pre c : last_cast (pre ++ [c])%list = Ok c.
Proof.
  induction pre as [| x pre IH]; simpl; [reflexivity |].
  destruct (pre ++ [c])%list eqn:E; [now destruct pre | exact IH].
Qed.

Lemma check_nargs_none arg val :
  nargs arg = NNone -> check_nargs arg val = Ok val.
Proof. intros H. unfold check_nargs, wrap. rewrite H. reflexivity. Qed.

Lemma cast1_list_shape arg l c out :
  nargs arg <> NNone ->
  cast1 arg (VList l) c = Ok out ->
  exists r, out = VList r /\ List.length r = List.length l.
Proof.
  intros Hn H. destruct c as [f |]; simpl in H.
  - destruct (nargs arg) eqn:E; [congruence | | |]; simpl in H;
      destruct (mapM f l) as [r |] eqn:Hr; simpl in H; try discriminate;
      injection H as <-; exists r; split; auto; eapply mapM_length; eauto.
  - injection H as <-. eauto.
Qed.

Lemma try_casts_list_shape arg l cs out :
  nargs arg <> NNone ->
  try_casts arg (VList l) cs = Some out ->
  exists r, out = VList r /\ List.length r = List.length l.
Proof.
  intros Hn. induction cs as [| c cs IH]; simpl; [discriminate |].
  destruct (cast1 arg (VList l) c) as [r |] eqn:E.
  - intros [= <-]. eapply cast1_list_shape; eauto.
  - exact IH.
Qed.

End CastFacts.

(** C3.  With a tuple of cast functions, on a value that passed the
    cardinality checks: when every candidate before [c] raises, a non-final
    [c] that returns gives the result of [cast] (the exceptions before it are
    dropped), and a final [c] gives its own outcome, result or exception, as
    the outcome of [cast].  With the candidates [(int, str)], ["abc"] makes
    [int] raise and comes back unchanged from [str], and ["42"] comes back as
    the integer 42. *)
Theorem cast_tuple_fallback :
  (forall arg val val' pre c post,
      type arg = TTuple (pre ++ c :: post) ->
      ConstructorSchema.check_nargs arg val = Ok val' ->
      Forall (ConstructorSchema.fails arg val') pre ->
      (post <> [] -> forall r,
          ConstructorSchema.cast1 arg val' c = Ok r ->
          ConstructorSchema.cast arg val = Ok r)
      /\ (post = [] ->
          ConstructorSchema.cast arg val = ConstructorSchema.cast1 arg val' c))
  /\ (forall arg,
      type arg = TTuple [Some py_int; Some py_str] ->
      nargs arg = NNone ->
      (exists e, py_int (VStr "abc") = Raise e)
      /\ ConstructorSchema.cast arg (VStr "abc") = Ok (VStr "abc")
      /\ ConstructorSchema.cast arg (VStr "42") = Ok (VInt 42)).
Proof.
  split.
  - intros arg val val' pre c post Hty Hchk Hpre.
    unfold ConstructorSchema.cast. rewrite Hchk, Hty. simpl. split.
    + intros Hpost r Hc. destruct post as [| d post]; [congruence |].
      rewrite CastFacts.removelast_mid, CastFacts.try_casts_all_fail by assumption.
      simpl. rewrite Hc. reflexivity.
    + intros ->. rewrite CastFacts.removelast_snoc.
      rewrite <- (app_nil_r pre) at 1.
      rewrite CastFacts.try_casts_all_fail by assumption. simpl.
      rewrite CastFacts.last_cast_snoc. reflexivity.
  - intros arg Hty Hn. split; [eexists; reflexivity |].
    unfold ConstructorSchema.cast.
    rewrite !CastFacts.check_nargs_none by assumption. rewrite Hty. simpl.
    unfold ConstructorSchema.cast1. rewrite Hn. split; reflexivity.
Qed.


(** ** Induction on the tree of an Argument *)

Lemma Argument_tree_ind (P : Argument -> Prop) :
  (forall a, Forall (fun p => P (snd p)) (subfields a) -> P a) ->
  forall a, P a.
Proof.
  intros H. fix IH 1. intros a. apply H.
  destruct a as [n rq ty df ch na hl subs]. simpl.
  induction subs as [| p subs IHs]; constructor; [apply IH | exact IHs].
Qed.

Lemma distinctb_cons_inv x l y :
  distinctb (x :: l) = true -> In y l -> x <> y.
Proof.
  simpl. intros H Hin E. subst y. apply andb_prop in H as [H _].
  apply negb_true_iff in H. rewrite (proj2 (mem_str_In x l) Hin) in H. discriminate.
Qed.

Lemma distinct_names_inv {L : Lowercase} a :
  distinct_names a = true ->
  distinctb (lowered_names (subfields a)) = true
  /\ forallb (fun p => distinct_names (snd p)) (subfields a) = true.
Proof.
  destruct a as [n rq ty df ch na hl subs]. simpl. intros H.
  apply andb_prop in H. exact H.
Qed.

(** ** The namespace filler *)

Section FillerFacts.

Context {L : Lowercase}.

Variable format_exc : exn -> string.

Local Abbreviation fill := (fill_namespace format_exc).
Local Abbreviation fill_all := (fill_children format_exc).

(** The two branches of [fill_namespace], as equations. *)
Lemma fill_namespace_leaf ns arg config missing :
  subfields arg = [] ->
  fill ns arg config missing =
  match config with
  | VNone => Ok (ns, config, missing)
  | VDict d =>
      match case_insensitive_name_match (local_name arg) d with
      | Some config_match =>
          '(val, config') <- py_pop config config_match ;;
          match ConstructorSchema.cast arg val with
          | Ok r => Ok (OD.set (local_name arg) r ns, config', missing)
          | Raise e =>
              Raise (mkExn ConfigurationError
                       ("unable to cast '" ++ name arg ++ "' value: " ++ format_exc e))
          end
      | None =>
          if required arg then Ok (ns, config, (missing ++ [name arg])%list)
          else Ok (ns, config, missing)
      end
  | _ => Raise (no_attribute config "keys")
  end.
Proof.
  destruct arg as [n rq ty df ch na hl subs]; simpl. intros ->. reflexivity.
Qed.

Lemma fill_namespace_container ns arg config missing :
  subfields arg <> [] ->
  fill ns arg config missing =
  ('(subconfig, config') <- py_pop_default config (local_name arg) ;;
   '(subns, _, missing') <- fill_all (subfields arg) [] subconfig missing ;;
   match subns with
   | [] => Ok (ns, config', missing')
   | _ :: _ =>
       match ConstructorSchema.cast arg (VNamespace subns) with
       | Ok r => Ok (OD.set (local_name arg) r ns, config', missing')
       | Raise e =>
           Raise (mkExn ConfigurationError
                    ("unable to cast '" ++ name arg ++ "' value: " ++ exn_str e))
       end
   end).
Proof.
  destruct arg as [n rq ty df ch na hl subs]; simpl. intros H.
  destruct subs as [| s subs]; [congruence | reflexivity].
Qed.

Lemma fill_children_cons k child rest ns config missing :
  fill_all ((k, child) :: rest) ns config missing =
  ('(ns', config', missing') <- fill ns child config missing ;;
   fill_all rest ns' config' missing').
Proof. reflexivity. Qed.

(** With [None] for a document, a leaf leaves everything as it is and a
    container fails on [config.pop]. *)
Lemma fill_leaf_None ns arg missing :
  subfields arg = [] -> fill ns arg VNone missing = Ok (ns, VNone, missing).
Proof. intros H. rewrite fill_namespace_leaf by assumption. reflexivity. Qed.

Lemma fill_container_None ns arg missing :
  subfields arg <> [] ->
  fill ns arg VNone missing = Raise (no_attribute VNone "pop").
Proof. intros H. rewrite fill_namespace_container by assumption. reflexivity. Qed.

Lemma fill_children_None l ns missing :
  (exists k child, In (k, child) l /\ subfields child <> []) ->
  fill_all l ns VNone missing = Raise (no_attribute VNone "pop").
Proof.
  induction l as [| [k0 c0] l IH]; intros (k & child & Hin & Hc).
  - destruct Hin.
  - rewrite fill_children_cons.
    destruct (subfields c0) as [| s0 subs0] eqn:E0.
    + rewrite fill_leaf_None by assumption. simpl.
      apply IH. destruct Hin as [E | Hin]; [| eauto].
      injection E as <- <-. congruence.
    + rewrite fill_container_None by congruence. reflexivity.
Qed.

(** C10.  A container whose local name is not a key of the document and
    that has a child with subfields of its own: the children are filled
    with [None] for a document, and the fill ends in the [AttributeError]
    of [None.pop]; nothing is recorded as missing and the error is not a
    [ConfigurationError]. *)
Theorem fill_absent_container_with_container_child :
  forall ns arg d missing,
    OD.get (local_name arg) d = None ->
    (exists k child, In (k, child) (subfields arg) /\ subfields child <> []) ->
    py_pop_default (VDict d) (local_name arg) = Ok (VNone, VDict d)
    /\ fill ns arg (VDict d) missing
       = Raise (mkExn AttributeError "'NoneType' object has no attribute 'pop'").
Proof.
  intros ns arg d missing Hget Hchild.
  assert (Hpop : py_pop_default (VDict d) (local_name arg) = Ok (VNone, VDict d)).
  { unfold py_pop_default. rewrite Hget. reflexivity. }
  split; [exact Hpop |].
  assert (Hsub : subfields arg <> []).
  { destruct Hchild as (k & child & Hin & _). intros E. rewrite E in Hin. destruct Hin. }
  rewrite fill_namespace_container by assumption. rewrite Hpop. simpl.
  rewrite fill_children_None by assumption. reflexivity.
Qed.

(** A leaf and a key of the document equal up to case: the first such key
    is taken out, under its own spelling, and its cast value is set under
    the name the schema declares. *)
Lemma fill_leaf_case_insensitive ns arg d missing k :
  subfields arg = [] ->
  In k (OD.keys d) ->
  str_lower k = str_lower (local_name arg) ->
  exists k' v,
    In k' (OD.keys d)
    /\ str_lower k' = str_lower (local_name arg)
    /\ OD.get k' d = Some v
    /\ fill ns arg (VDict d) missing
       = match ConstructorSchema.cast arg v with
         | Ok r => Ok (OD.set (local_name arg) r ns, VDict (OD.remove k' d), missing)
         | Raise e =>
             Raise (mkExn ConfigurationError
                      ("unable to cast '" ++ name arg ++ "' value: " ++ format_exc e))
         end.
Proof.
  intros Hs Hin Hl. rewrite fill_namespace_leaf by assumption.
  rewrite ODFacts.name_match_find.
  destruct (ci_find (local_name arg) d) as [k' |] eqn:Ef.
  - destruct (ODFacts.ci_find_Some _ _ _ Ef) as [El Hk'].
    destruct (OD.get k' d) as [v |] eqn:Eg.
    + exists k', v. repeat split; try assumption; [congruence |].
      unfold py_pop. rewrite Eg. reflexivity.
    + exfalso. apply (proj2 (ODFacts.get_In k' d)); assumption.
  - exfalso. rewrite ODFacts.ci_find_None in Ef. apply (Ef k Hin). congruence.
Qed.

(** *** What a fill does to the document *)

Lemma consumes_leaf arg k :
  subfields arg = [] -> consumes arg k = false ->
  str_lower (local_name arg) <> str_lower k.
Proof.
  unfold consumes. intros ->. intros H E. rewrite E, String.eqb_refl in H. discriminate.
Qed.

Lemma consumes_container arg k :
  subfields arg <> [] -> consumes arg k = false -> local_name arg <> k.
Proof.
  unfold consumes. destruct (subfields arg); [congruence |].
  intros _ H E. rewrite E, String.eqb_refl in H. discriminate.
Qed.

(** A fill of a mapping leaves a mapping, with keys among the former
    ones, and never shortens [missing]. *)
Lemma fill_dict_result ns arg d missing ns' c missing' :
  fill ns arg (VDict d) missing = Ok (ns', c, missing') ->
  exists e, c = VDict e /\ incl (OD.keys e) (OD.keys d).
Proof.
  destruct (subfields arg) as [| s0 subs] eqn:Es.
  - rewrite fill_namespace_leaf by assumption.
    destruct (case_insensitive_name_match _ d) as [km |].
    + unfold py_pop. destruct (OD.get km d) as [v |]; simpl; [| discriminate].
      destruct (ConstructorSchema.cast arg v); [| discriminate].
      intros [= <- <- <-]. eexists; split; [reflexivity |].
      intros x. apply ODFacts.keys_remove_incl.
    + destruct (required arg); intros [= <- <- <-]; eexists; split;
        try reflexivity; apply incl_refl.
  - rewrite fill_namespace_container by congruence.
    unfold py_pop_default.
    destruct (OD.get (local_name arg) d) as [v |]; simpl;
      (destruct (fill_all _ _ _ _) as [[[subns sc] m1] | ex]; simpl; [| discriminate]);
      (destruct subns as [| p subns];
       [| destruct (ConstructorSchema.cast arg _); [| discriminate]]);
      intros [= <- <- <-]; eexists; split; try reflexivity;
      try apply incl_refl; intros x; apply ODFacts.keys_remove_incl.
Qed.

(** A key that the entry cannot take stays in the document. *)
Lemma fill_keeps_key ns arg d missing ns' e missing' k :
  consumes arg k = false ->
  fill ns arg (VDict d) missing = Ok (ns', VDict e, missing') ->
  OD.get k e = OD.get k d.
Proof.
  intros Hc. destruct (subfields arg) as [| s0 subs] eqn:Es.
  - pose proof (consumes_leaf _ _ Es Hc) as N.
    rewrite fill_namespace_leaf by assumption. rewrite ODFacts.name_match_find.
    destruct (ci_find _ d) as [km |] eqn:Ef.
    + apply ODFacts.ci_find_Some in Ef as [El _].
      unfold py_pop. destruct (OD.get km d) as [v |]; simpl; [| discriminate].
      destruct (ConstructorSchema.cast arg v); [| discriminate].
      intros [= <- <- <-]. apply ODFacts.get_remove_ne. congruence.
    + destruct (required arg); intros [= <- <- <-]; reflexivity.
  - assert (Hs : subfields arg <> []) by congruence.
    pose proof (consumes_container _ _ Hs Hc) as N.
    rewrite fill_namespace_container by assumption.
    unfold py_pop_default.
    destruct (OD.get (local_name arg) d) as [v |]; simpl;
      (destruct (fill_all _ _ _ _) as [[[subns sc] m1] | ex]; simpl; [| discriminate]);
      (destruct subns as [| p subns];
       [| destruct (ConstructorSchema.cast arg _); [| discriminate]]);
      intros [= <- <- <-]; try reflexivity;
      apply ODFacts.get_remove_ne; congruence.
Qed.

(** The fill of the document without [k] is the fill of the document,
    without [k]. *)
Lemma fill_without ns arg d missing k :
  consumes arg k = false ->
  fill ns arg (VDict (without k d)) missing
  = strip_key k (fill ns arg (VDict d) missing).
Proof.
  intros Hc. destruct (subfields arg) as [| s0 subs] eqn:Es.
  - pose proof (consumes_leaf _ _ Es Hc) as N.
    rewrite !fill_namespace_leaf by assumption. rewrite !ODFacts.name_match_find.
    rewrite ODFacts.ci_find_without by assumption.
    destruct (ci_find _ d) as [km |] eqn:Ef.
    + apply ODFacts.ci_find_Some in Ef as [El _].
      assert (Nk : km <> k) by congruence.
      unfold py_pop. rewrite ODFacts.get_without_ne by assumption.
      destruct (OD.get km d) as [v |]; simpl; [| reflexivity].
      rewrite ODFacts.remove_without by assumption.
      destruct (ConstructorSchema.cast arg v); reflexivity.
    + destruct (required arg); reflexivity.
  - assert (Hs : subfields arg <> []) by congruence.
    pose proof (consumes_container _ _ Hs Hc) as N.
    rewrite !fill_namespace_container by assumption.
    unfold py_pop_default. rewrite ODFacts.get_without_ne by assumption.
    destruct (OD.get (local_name arg) d) as [v |]; simpl;
      (destruct (fill_all _ _ _ _) as [[[subns sc] m1] | ex]; simpl; [| reflexivity]);
      (destruct subns as [| p subns];
       [| destruct (ConstructorSchema.cast arg _); [| reflexivity]]);
      simpl; try reflexivity;
      rewrite ODFacts.remove_without by assumption; reflexivity.
Qed.

Lemma fill_all_dict_result schema ns d missing ns' c missing' :
  fill_all schema ns (VDict d) missing = Ok (ns', c, missing') ->
  exists e, c = VDict e /\ incl (OD.keys e) (OD.keys d).
Proof.
  revert ns d missing. induction schema as [| [n a] schema IH]; intros ns d missing.
  - intros [= <- <- <-]. eexists; split; [reflexivity | apply incl_refl].
  - rewrite fill_children_cons.
    destruct (fill ns a (VDict d) missing) as [[[ns1 c1] m1] | ex] eqn:E1; simpl;
      [| discriminate].
    apply fill_dict_result in E1 as (e1 & -> & Hi1).
    intros H. apply IH in H as (e & -> & Hi). eexists; split; [reflexivity |].
    eapply incl_tran; eassumption.
Qed.

Lemma fill_all_keeps_key schema ns d missing ns' e missing' k :
  forallb (fun p => negb (consumes (snd p) k)) schema = true ->
  fill_all schema ns (VDict d) missing = Ok (ns', VDict e, missing') ->
  OD.get k e = OD.get k d.
Proof.
  revert ns d missing. induction schema as [| [n a] schema IH]; intros ns d missing.
  - intros _ [= <- <- <-]. reflexivity.
  - simpl forallb. intros Hall. apply andb_prop in Hall as [Ha Hall].
    apply negb_true_iff in Ha. rewrite fill_children_cons.
    destruct (fill ns a (VDict d) missing) as [[[ns1 c1] m1] | ex] eqn:E1; simpl;
      [| discriminate].
    destruct (fill_dict_result _ _ _ _ _ _ _ E1) as (e1 & -> & _).
    intros H. rewrite (IH _ _ _ Hall H). eapply fill_keeps_key; eassumption.
Qed.

Lemma fill_all_without schema ns d missing k :
  forallb (fun p => negb (consumes (snd p) k)) schema = true ->
  fill_all schema ns (VDict (without k d)) missing
  = strip_key k (fill_all schema ns (VDict d) missing).
Proof.
  revert ns d missing. induction schema as [| [n a] schema IH]; intros ns d missing.
  - reflexivity.
  - simpl forallb. intros Hall. apply andb_prop in Hall as [Ha Hall].
    apply negb_true_iff in Ha. rewrite !fill_children_cons.
    rewrite fill_without by assumption.
    destruct (fill ns a (VDict d) missing) as [[[ns1 c1] m1] | ex] eqn:E1; simpl;
      [| reflexivity].
    destruct (fill_dict_result _ _ _ _ _ _ _ E1) as (e1 & -> & _). simpl.
    apply IH. assumption.
Qed.

(** *** What a fill records as missing *)

Lemma fill_all_missing_grows l :
  Forall (fun p => forall ns c m ns' c' m',
              fill ns (snd p) c m = Ok (ns', c', m') -> incl m m') l ->
  forall ns c m ns' c' m',
    fill_all l ns c m = Ok (ns', c', m') -> incl m m'.
Proof.
  induction 1 as [| [k a] l Ha _ IH]; intros ns c m ns' c' m'.
  - intros [= <- <- <-]. apply incl_refl.
  - rewrite fill_children_cons.
    destruct (fill ns a c m) as [[[ns1 c1] m1] | ex] eqn:E1; simpl; [| discriminate].
    intros H. eapply incl_tran; [eapply Ha; exact E1 | eapply IH; exact H].
Qed.

Lemma fill_missing_grows a :
  forall ns c m ns' c' m',
    fill ns a c m = Ok (ns', c', m') -> incl m m'.
Proof.
  induction a as [a IH] using Argument_tree_ind. intros ns c m ns' c' m'.
  destruct (subfields a) as [| s0 subs] eqn:Es.
  - rewrite fill_namespace_leaf by assumption.
    destruct c; try discriminate.
    + intros [= <- <- <-]. apply incl_refl.
    + destruct (case_insensitive_name_match _ d) as [km |].
      * destruct (py_pop (VDict d) km) as [[v c1] |]; simpl; [| discriminate].
        destruct (ConstructorSchema.cast a v); [| discriminate].
        intros [= <- <- <-]. apply incl_refl.
      * destruct (required a); intros [= <- <- <-];
          [apply incl_appl |]; apply incl_refl.
  - rewrite fill_namespace_container by congruence.
    destruct (py_pop_default c (local_name a)) as [[sc c1] |]; simpl; [| discriminate].
    rewrite <- Es in IH.
    destruct (fill_all (subfields a) [] sc m) as [[[subns sc'] m1] | ex] eqn:E;
      simpl; [| discriminate].
    apply (fill_all_missing_grows _ IH) in E.
    destruct subns as [| p subns];
      [| destruct (ConstructorSchema.cast a _); [| discriminate]];
      intros [= <- <- <-]; exact E.
Qed.

Lemma ci_find_None_incl n d e :
  incl (OD.keys e) (OD.keys d) -> ci_find n d = None -> ci_find n e = None.
Proof.
  rewrite !ODFacts.ci_find_None. intros Hi H k Hk. apply H, Hi, Hk.
Qed.

(** An unmatched leaf stays one in a mapping with fewer keys that agrees
    under the local name of the entry. *)
Lemma unmatched_leaf_transfer a d e n :
  unmatched_leaf a d n ->
  incl (OD.keys e) (OD.keys d) ->
  OD.get (local_name a) e = OD.get (local_name a) d ->
  unmatched_leaf a e n.
Proof.
  intros H Hi Hg. destruct H as [a d Hs Hr Hf | a d sub k child n Hget Hin Hc].
  - apply UL_leaf; try assumption. eapply ci_find_None_incl; eassumption.
  - eapply UL_sub; try eassumption. congruence.
Qed.

Lemma consumes_lower a k :
  str_lower (local_name a) <> str_lower k -> consumes a k = false.
Proof.
  intros N. unfold consumes. destruct (subfields a).
  - now apply String.eqb_neq.
  - apply String.eqb_neq. congruence.
Qed.

Local Abbreviation reports := (reports_unmatched format_exc).

Lemma fill_all_reports l :
  Forall (fun p => reports (snd p)) l ->
  forall ns d m ns' c' m' k child n,
    distinctb (lowered_names l) = true ->
    forallb (fun p => distinct_names (snd p)) l = true ->
    fill_all l ns (VDict d) m = Ok (ns', c', m') ->
    In (k, child) l -> unmatched_leaf child d n -> In n m'.
Proof.
  induction 1 as [| [k0 a0] l Ha _ IH]; intros ns d m ns' c' m' k child n Hd Hw;
    [intros _ [] |].
  rewrite fill_children_cons.
  destruct (fill ns a0 (VDict d) m) as [[[ns1 c1] m1] | ex] eqn:E1; simpl; [| discriminate].
  destruct (fill_dict_result _ _ _ _ _ _ _ E1) as (e1 & -> & Hi).
  simpl in Hw. apply andb_prop in Hw as [Hw0 Hw].
  intros Hrest [E | Hin] Hu.
  - injection E as <- <-.
    assert (Hgrow : incl m1 m').
    { eapply fill_all_missing_grows; [| exact Hrest].
      apply Forall_forall. intros p _. apply fill_missing_grows. }
    apply Hgrow. eapply Ha; eassumption.
  - assert (N : str_lower (local_name a0) <> str_lower (local_name child)).
    { eapply distinctb_cons_inv; [exact Hd |].
      unfold lowered_names. apply in_map_iff. exists (k, child). auto. }
    eapply IH; try eassumption.
    + simpl in Hd. apply andb_prop in Hd as [_ Hd]. exact Hd.
    + eapply unmatched_leaf_transfer; [exact Hu | exact Hi |].
      eapply fill_keeps_key; [| exact E1]. now apply consumes_lower.
Qed.

(** A required top-level leaf without a match is recorded, whatever the
    other entries are. *)
Lemma fill_all_reports_leaf l :
  forall ns d m ns' c' m' k a,
    fill_all l ns (VDict d) m = Ok (ns', c', m') ->
    In (k, a) l -> subfields a = [] -> required a = true ->
    ci_find (local_name a) d = None ->
    In (name a) m'.
Proof.
  induction l as [| [k0 a0] l IH]; intros ns d m ns' c' m' k a; [intros _ [] |].
  rewrite fill_children_cons.
  destruct (fill ns a0 (VDict d) m) as [[[ns1 c1] m1] | ex] eqn:E1; simpl; [| discriminate].
  destruct (fill_dict_result _ _ _ _ _ _ _ E1) as (e1 & -> & Hi).
  intros Hrest [E | Hin] Hs Hr Hf.
  - injection E as <- <-.
    assert (Hgrow : incl m1 m').
    { eapply fill_all_missing_grows; [| exact Hrest].
      apply Forall_forall. intros p _. apply fill_missing_grows. }
    apply Hgrow. rewrite fill_namespace_leaf in E1 by assumption.
    rewrite ODFacts.name_match_find, Hf, Hr in E1.
    injection E1 as <- <- <-. apply in_or_app. right. now left.
  - eapply IH; try eassumption. eapply ci_find_None_incl; eassumption.
Qed.

(** Every unmatched required leaf at or below [a] is in [missing] when the
    fill of [a] returns. *)
Lemma fill_reports a : reports a.
Proof.
  induction a as [a IH] using Argument_tree_ind.
  intros ns d m ns' c' m' n Hw Hfill Hu.
  destruct Hu as [a d Hs Hr Hf | a d sub k child n Hget Hin Hc].
  - rewrite fill_namespace_leaf in Hfill by assumption.
    rewrite ODFacts.name_match_find, Hf, Hr in Hfill.
    injection Hfill as <- <- <-. apply in_or_app. right. now left.
  - assert (Hs : subfields a <> []) by (intros E; rewrite E in Hin; destruct Hin).
    rewrite fill_namespace_container in Hfill by assumption.
    unfold py_pop_default in Hfill. rewrite Hget in Hfill. simpl in Hfill.
    destruct (fill_all (subfields a) [] (VDict sub) m) as [[[subns sc'] m1] | ex] eqn:E;
      simpl in Hfill; [| discriminate].
    apply distinct_names_inv in Hw as [Hd Hw].
    assert (Hn : In n m1) by (eapply fill_all_reports; eassumption).
    destruct subns as [| p subns];
      [| destruct (ConstructorSchema.cast a _); [| discriminate]];
      injection Hfill as <- <- <-; exact Hn.
Qed.

End FillerFacts.

(** ** Storing the keys that are left *)

Module UnknownFacts.

Lemma special_attribute_spec k :
  special_attribute k = false
  <-> k <> "__class__" /\ k <> "__dict__" /\ k <> "__weakref__".
Proof.
  unfold special_attribute. simpl.
  destruct (String.eqb_spec k "__class__"), (String.eqb_spec k "__dict__"),
    (String.eqb_spec k "__weakref__"); simpl; split; intros H;
    try discriminate; try reflexivity; try (repeat split; assumption);
    destruct H as (H1 & H2 & H3); contradiction.
Qed.

(** On a name that is not special, [setattr] is the insertion. *)
Lemma py_setattr_ordinary ns k v :
  special_attribute k = false -> py_setattr ns k v = Ok (OD.set k v ns).
Proof.
  intros H. apply special_attribute_spec in H as (H1 & H2 & H3).
  unfold py_setattr.
  destruct (String.eqb_spec k "__class__"); [contradiction |].
  destruct (String.eqb_spec k "__dict__"); [contradiction |].
  destruct (String.eqb_spec k "__weakref__"); [contradiction | reflexivity].
Qed.

(** What [setattr] raises does not depend on the namespace. *)
Lemma py_setattr_raise ns ns' k v e :
  py_setattr ns k v = Raise e -> py_setattr ns' k v = Raise e.
Proof.
  unfold py_setattr.
  destruct (String.eqb k "__class__"); [trivial |].
  destruct (String.eqb k "__dict__"); [destruct v; trivial; discriminate |].
  destruct (String.eqb k "__weakref__"); [trivial | discriminate].
Qed.

(** A [setattr] that returns was given [__dict__] or a name that is not
    special. *)
Lemma py_setattr_ok ns k v ns' :
  py_setattr ns k v = Ok ns' -> k = "__dict__" \/ special_attribute k = false.
Proof.
  unfold py_setattr.
  destruct (String.eqb_spec k "__class__"); [discriminate |].
  destruct (String.eqb_spec k "__dict__"); [now left |].
  destruct (String.eqb_spec k "__weakref__"); [discriminate |].
  intros _. right. apply special_attribute_spec. auto.
Qed.

Lemma set_each_ext d1 d2 l acc :
  (forall k, In k l -> OD.get k d1 = OD.get k d2) ->
  set_each d1 l acc = set_each d2 l acc.
Proof.
  revert acc. induction l as [| x l IH]; intros acc H; simpl; [reflexivity |].
  rewrite (H x) by now left. destruct (OD.get x d2) as [v |]; [| reflexivity].
  destruct (py_setattr acc x v); simpl; [| reflexivity].
  apply IH. intros k Hk. apply H. now right.
Qed.

(** Without a special name among the keys, the loop copies the entries. *)
Lemma set_each_ordinary d l acc :
  (forall k, In k l -> special_attribute k = false) ->
  incl l (OD.keys d) ->
  set_each d l acc = Ok (OD.copy_keys d l acc).
Proof.
  unfold OD.copy_keys. revert acc.
  induction l as [| x l IH]; intros acc Hs Hi; simpl; [reflexivity |].
  destruct (OD.get x d) as [v |] eqn:E.
  - rewrite py_setattr_ordinary by (apply Hs; now left). simpl.
    apply IH; [intros k Hk; apply Hs; now right |].
    intros k Hk. apply Hi. now right.
  - exfalso. assert (Hx : In x (OD.keys d)) by (apply Hi; now left).
    apply ODFacts.get_In in Hx. contradiction.
Qed.

(** A loop that returns met no special name but, possibly, [__dict__]. *)
Lemma set_each_ok d l acc unknown :
  set_each d l acc = Ok unknown ->
  forall k, In k l -> k = "__dict__" \/ special_attribute k = false.
Proof.
  revert acc. induction l as [| x l IH]; intros acc H k Hk; [destruct Hk |].
  simpl in H. destruct (OD.get x d) as [v |]; [| discriminate].
  destruct (py_setattr acc x v) as [acc' |] eqn:E; simpl in H; [| discriminate].
  destruct Hk as [<- | Hk]; [eapply py_setattr_ok; eassumption |].
  eapply IH; eassumption.
Qed.

Lemma store_unknown_ordinary d :
  (forall k, In k (OD.keys d) -> special_attribute k = false) ->
  store_unknown (VDict d) = Ok (OD.copy_keys d (OD.keys d) []).
Proof.
  intros H. simpl. apply set_each_ordinary; [exact H | apply incl_refl].
Qed.

(** When the mapping has no key [__dict__] and the loop returns, no key is
    special. *)
Lemma store_unknown_keys d unknown :
  OD.get "__dict__" d = None ->
  store_unknown (VDict d) = Ok unknown ->
  forall k, In k (OD.keys d) -> special_attribute k = false.
Proof.
  intros Hd H k Hk. simpl in H.
  destruct (set_each_ok _ _ _ _ H k Hk) as [-> | Hs]; [| exact Hs].
  apply ODFacts.get_In in Hk. contradiction.
Qed.

(** The [unknown] namespace then holds the mapping, key by key. *)
Lemma copy_all_get (d : list (string * value)) k :
  OD.get k (OD.copy_keys d (OD.keys d) []) = OD.get k d.
Proof.
  rewrite ODFacts.get_copy_keys. simpl.
  destruct (mem_str k (OD.keys d)) eqn:E.
  - destruct (OD.get k d); reflexivity.
  - symmetry. apply ODFacts.get_not_In. rewrite <- mem_str_In. congruence.
Qed.

Lemma store_unknown_get d unknown k :
  OD.get "__dict__" d = None ->
  store_unknown (VDict d) = Ok unknown -> OD.get k unknown = OD.get k d.
Proof.
  intros Hd H. rewrite store_unknown_ordinary in H
    by (eapply store_unknown_keys; eassumption).
  injection H as <-. apply copy_all_get.
Qed.

(** Taking the entries under a name that is not special out of a mapping
    without the key [__dict__]: the loop ends with the same exception, or
    with a namespace that differs under that name only. *)
Lemma set_each_filter d k l acc acc0 :
  special_attribute k = false ->
  incl l (OD.keys d) ->
  OD.get "__dict__" d = None ->
  (forall k', k' <> k -> OD.get k' acc = OD.get k' acc0) ->
  match set_each d (filter (fun x => negb (String.eqb x k)) l) acc0 with
  | Ok unknown0 =>
      exists unknown,
        set_each d l acc = Ok unknown
        /\ forall k', k' <> k -> OD.get k' unknown = OD.get k' unknown0
  | Raise e => set_each d l acc = Raise e
  end.
Proof.
  intros Hk Hi Hd. revert acc acc0.
  induction l as [| x l IH]; intros acc acc0 Ha; simpl.
  - eexists. split; [reflexivity | exact Ha].
  - assert (Hx : In x (OD.keys d)) by (apply Hi; now left).
    assert (Hi' : incl l (OD.keys d)) by (intros y Hy; apply Hi; now right).
    destruct (OD.get x d) as [v |] eqn:Ev;
      [| apply ODFacts.get_In in Hx; contradiction].
    destruct (String.eqb_spec x k) as [-> | N]; simpl.
    + rewrite py_setattr_ordinary by assumption. simpl.
      apply (IH Hi'). intros k' N'. rewrite ODFacts.get_set.
      destruct (String.eqb_spec k' k); [contradiction | now apply Ha].
    + rewrite Ev. destruct (special_attribute x) eqn:Es.
      * assert (Hr : exists e, py_setattr acc0 x v = Raise e).
        { unfold py_setattr.
          destruct (String.eqb_spec x "__class__"); [eauto |].
          destruct (String.eqb_spec x "__dict__") as [-> | ]; [congruence |].
          destruct (String.eqb_spec x "__weakref__"); [eauto |].
          assert (special_attribute x = false)
            by (apply special_attribute_spec; auto).
          congruence. }
        destruct Hr as (e & He). rewrite He. simpl.
        rewrite (py_setattr_raise _ acc _ _ _ He). reflexivity.
      * rewrite !py_setattr_ordinary by assumption. simpl.
        apply (IH Hi'). intros k' N'. rewrite !ODFacts.get_set.
        destruct (String.eqb k' x); [reflexivity | now apply Ha].
Qed.

Lemma keys_without (d : list (string * value)) k :
  OD.keys (without k d) = filter (fun x => negb (String.eqb x k)) (OD.keys d).
Proof.
  unfold OD.keys, without. induction d as [| [x v] d IH]; simpl; [reflexivity |].
  destruct (String.eqb x k); simpl; rewrite IH; reflexivity.
Qed.

Lemma get_without_same (d : list (string * value)) k : OD.get k (without k d) = None.
Proof.
  apply ODFacts.get_not_In. rewrite keys_without. intros H.
  apply filter_In in H as [_ H]. rewrite String.eqb_refl in H. discriminate.
Qed.

Lemma store_unknown_without d k :
  special_attribute k = false ->
  OD.get "__dict__" d = None ->
  match store_unknown (VDict (without k d)) with
  | Ok unknown0 =>
      exists unknown,
        store_unknown (VDict d) = Ok unknown
        /\ forall k', k' <> k -> OD.get k' unknown = OD.get k' unknown0
  | Raise e => store_unknown (VDict d) = Raise e
  end.
Proof.
  intros Hk Hd. simpl. rewrite keys_without.
  rewrite (set_each_ext (without k d) d).
  - apply set_each_filter; try assumption; [apply incl_refl | reflexivity].
  - intros x Hx. apply filter_In in Hx as [_ Hx]. apply negb_true_iff in Hx.
    apply String.eqb_neq in Hx. now apply ODFacts.get_without_ne.
Qed.

End UnknownFacts.

(** ** The orchestrator *)

Section ReadFacts.

Context {L : Lowercase}.

Variable format_exc : exn -> string.
Variable ordered_load : string -> res value.
Variable load : value -> res unit.
Variable cosmology : Type.
Variable Cosmology : list (string * value) -> res cosmology.
Variable set_nbkit_cosmo : cosmology -> res unit.

Local Abbreviation read :=
  (ReadConfigFile format_exc ordered_load load cosmology Cosmology set_nbkit_cosmo).
Local Abbreviation plugins := (load_plugins load).
Local Abbreviation cosmo := (load_cosmo cosmology Cosmology set_nbkit_cosmo).

Lemma load_config_dict stream d :
  ordered_load stream = Ok (VDict d) -> load_config ordered_load stream = Ok (VDict d).
Proof. unfold load_config. intros ->. reflexivity. Qed.

Lemma load_plugins_dict d :
  plugins (VDict d) =
  match OD.get "X" d with
  | None => Ok (VDict d)
  | Some p =>
      l <- py_iter (match p with VStr _ => VList [p] | _ => p end) ;;
      _ <- mapM load l ;;
      Ok (VDict (OD.remove "X" d))
  end.
Proof.
  unfold load_plugins, py_contains, OD.mem, py_getitem, py_pop.
  destruct (OD.get "X" d) as [p |]; reflexivity.
Qed.

Lemma load_cosmo_dict d :
  cosmo (VDict d) =
  match OD.get "cosmo" d with
  | None => Ok (VDict d)
  | Some (VDict kw) =>
      c <- Cosmology kw ;; _ <- set_nbkit_cosmo c ;; Ok (VDict (OD.remove "cosmo" d))
  | Some kw =>
      Raise (mkExn TypeError
               ("type object argument after ** must be a mapping, not " ++ type_name kw))
  end.
Proof.
  unfold load_cosmo, py_contains, OD.mem, py_pop.
  destruct (OD.get "cosmo" d) as [[] |]; reflexivity.
Qed.

Lemma load_plugins_result d c k :
  k <> "X" -> plugins (VDict d) = Ok c ->
  exists e, c = VDict e /\ OD.get k e = OD.get k d.
Proof.
  intros N. rewrite load_plugins_dict. destruct (OD.get "X" d) as [p |].
  - destruct (py_iter _) as [l |]; simpl; [| discriminate].
    destruct (mapM load l); simpl; [| discriminate].
    intros [= <-]. eexists; split; [reflexivity |]. now apply ODFacts.get_remove_ne.
  - intros [= <-]. eauto.
Qed.

Lemma load_plugins_without d k :
  k <> "X" -> plugins (VDict (without k d)) = strip_doc k (plugins (VDict d)).
Proof.
  intros N. rewrite !load_plugins_dict.
  rewrite ODFacts.get_without_ne by congruence.
  destruct (OD.get "X" d) as [p |]; [| reflexivity].
  destruct (py_iter _) as [l |]; simpl; [| reflexivity].
  destruct (mapM load l); simpl; [| reflexivity].
  rewrite ODFacts.remove_without by congruence. reflexivity.
Qed.

Lemma load_cosmo_result d c k :
  k <> "cosmo" -> cosmo (VDict d) = Ok c ->
  exists e, c = VDict e /\ OD.get k e = OD.get k d.
Proof.
  intros N. rewrite load_cosmo_dict. destruct (OD.get "cosmo" d) as [[] |];
    try discriminate.
  - destruct (Cosmology _) as [c0 |]; simpl; [| discriminate].
    destruct (set_nbkit_cosmo c0); simpl; [| discriminate].
    intros [= <-]. eexists; split; [reflexivity |]. now apply ODFacts.get_remove_ne.
  - intros [= <-]. eauto.
Qed.

Lemma load_cosmo_without d k :
  k <> "cosmo" -> cosmo (VDict (without k d)) = strip_doc k (cosmo (VDict d)).
Proof.
  intros N. rewrite !load_cosmo_dict.
  rewrite ODFacts.get_without_ne by congruence.
  destruct (OD.get "cosmo" d) as [[] |]; try reflexivity.
  destruct (Cosmology _) as [c0 |]; simpl; [| reflexivity].
  destruct (set_nbkit_cosmo c0); simpl; [| reflexivity].
  rewrite ODFacts.remove_without by congruence. reflexivity.
Qed.

(** What the reserved keys and the fill leave has only keys of the
    document. *)
Lemma load_plugins_keys d e :
  plugins (VDict d) = Ok (VDict e) -> incl (OD.keys e) (OD.keys d).
Proof.
  rewrite load_plugins_dict. destruct (OD.get "X" d) as [p |].
  - destruct (py_iter _) as [l |]; simpl; [| discriminate].
    destruct (mapM load l); simpl; [| discriminate].
    intros [= <-] x. apply ODFacts.keys_remove_incl.
  - intros [= <-]. apply incl_refl.
Qed.

Lemma load_cosmo_keys d e :
  cosmo (VDict d) = Ok (VDict e) -> incl (OD.keys e) (OD.keys d).
Proof.
  rewrite load_cosmo_dict. destruct (OD.get "cosmo" d) as [[] |];
    try discriminate.
  - destruct (Cosmology _) as [c0 |]; simpl; [| discriminate].
    destruct (set_nbkit_cosmo c0); simpl; [| discriminate].
    intros [= <-] x. apply ODFacts.keys_remove_incl.
  - intros [= <-]. apply incl_refl.
Qed.

Lemma get_None_keys {V} k (d e : list (string * V)) :
  incl (OD.keys e) (OD.keys d) -> OD.get k d = None -> OD.get k e = None.
Proof.
  intros Hi H. apply ODFacts.get_not_In. intros Hin.
  apply Hi, ODFacts.get_In in Hin. contradiction.
Qed.

Lemma unmatched_inv schema k :
  unmatched schema k = true ->
  k <> "X" /\ k <> "cosmo"
  /\ forallb (fun p => negb (consumes (snd p) k)) schema = true.
Proof.
  unfold unmatched. intros H.
  apply andb_prop in H as [H H3]. apply andb_prop in H as [H1 H2].
  apply negb_true_iff in H1, H2.
  apply String.eqb_neq in H1, H2. auto.
Qed.

(** C2, as the code has it.  The document is a mapping, the reserved keys
    are handled without an error and leave the mapping [dc], none of whose
    keys is a name that [setattr] refuses or treats apart, and the walk over
    the schema returns with the list [missing].  Then the read raises
    exactly when [missing] is not empty, and what it raises is one
    [ValueError] (not a [ConfigurationError]) whose message is the whole
    list.  A required top-level leaf without a key equal up to case in [dc]
    is in the list, so the read raises; and so is, when sibling names are
    distinct up to case, every required leaf whose containers are all
    present as mappings and whose own mapping has no key equal to it up to
    case. *)
Theorem missing_required_aggregate :
  forall stream schema d d1 dc ns extra missing,
    ordered_load stream = Ok (VDict d) ->
    plugins (VDict d) = Ok (VDict d1) ->
    cosmo (VDict d1) = Ok (VDict dc) ->
    (forall k, In k (OD.keys dc) -> special_attribute k = false) ->
    fill_children format_exc schema [] (VDict dc) [] = Ok (ns, extra, missing) ->
    let raised :=
      read stream schema
      = Raise (mkExn ValueError
                 ("missing required arguments: " ++ PyStr.repr_list missing)) in
    (missing <> [] -> raised)
    /\ (missing = [] -> exists unknown, read stream schema = Ok (ns, unknown))
    /\ (forall k a,
           In (k, a) schema -> subfields a = [] -> required a = true ->
           (forall k', In k' (OD.keys dc) ->
                       str_lower (local_name a) <> str_lower k') ->
           In (name a) missing /\ raised)
    /\ (distinctb (lowered_names schema) = true ->
        forallb (fun p => distinct_names (snd p)) schema = true ->
        forall k a n,
          In (k, a) schema -> unmatched_leaf a dc n -> In n missing /\ raised).
Proof.
  intros stream schema d d1 dc ns extra missing Hd Hp Hc Hs Hfill raised.
  assert (Hread : read stream schema
                  = match missing with
                    | [] => Ok (ns, OD.copy_keys
                                      (match extra with VDict e => e | _ => [] end)
                                      (OD.keys (match extra with VDict e => e | _ => [] end))
                                      [])
                    | _ :: _ =>
                        Raise (mkExn ValueError
                                 ("missing required arguments: "
                                  ++ PyStr.repr_list missing))
                    end).
  { unfold ReadConfigFile. rewrite (load_config_dict _ _ Hd). simpl bind.
    rewrite Hp. simpl bind. rewrite Hc. simpl bind. rewrite Hfill. simpl bind.
    destruct (fill_all_dict_result _ _ _ _ _ _ _ _ Hfill) as (e & -> & Hi).
    rewrite UnknownFacts.store_unknown_ordinary
      by (intros k Hk; apply Hs, Hi, Hk).
    reflexivity. }
  assert (Hraise : missing <> [] -> raised).
  { intros Hm. unfold raised. rewrite Hread.
    destruct missing; [congruence | reflexivity]. }
  assert (Hin : forall n, In n missing -> In n missing /\ raised).
  { intros n Hn. split; [exact Hn |]. apply Hraise. intros ->. destruct Hn. }
  split; [exact Hraise |]. split; [| split].
  - intros ->. rewrite Hread. eauto.
  - intros k a Hk Hsub Hr Hf. apply Hin. apply ODFacts.ci_find_None in Hf.
    eapply fill_all_reports_leaf; eassumption.
  - intros Hdist Hw k a n Hk Hu. apply Hin.
    eapply fill_all_reports; try eassumption.
    apply Forall_forall. intros p _. apply fill_reports.
Qed.

(** C9, as the code has it.  [stream] parses to the document [d], a
    mapping without the key [__dict__]; [stream0] to the same document
    without the key [k]; and [k] is neither reserved nor a key that a
    top-level entry of the schema can take.  Then a read of [d] that returns
    holds in [unknown], under [k], the value [d] has there; more generally
    [unknown] holds, key by key, what the fill left of the document.  And
    when [k] is not one of the names that [setattr] refuses, the read of [d]
    ends as the read without [k] does: with the same exception, or with the
    same namespace and an [unknown] that differs under [k] only. *)
Theorem unknown_keys_pass_through :
  forall stream stream0 schema d k,
    ordered_load stream = Ok (VDict d) ->
    ordered_load stream0 = Ok (VDict (without k d)) ->
    unmatched schema k = true ->
    OD.get "__dict__" d = None ->
    (forall ns unknown,
        read stream schema = Ok (ns, unknown) -> OD.get k unknown = OD.get k d)
    /\ (forall ns unknown,
          read stream schema = Ok (ns, unknown) ->
          exists d1 dc extra,
            plugins (VDict d) = Ok (VDict d1)
            /\ cosmo (VDict d1) = Ok (VDict dc)
            /\ fill_children format_exc schema [] (VDict dc) [] = Ok (ns, VDict extra, [])
            /\ forall k', OD.get k' unknown = OD.get k' extra)
    /\ (special_attribute k = false ->
        match read stream0 schema with
        | Ok (ns, unknown0) =>
            exists unknown,
              read stream schema = Ok (ns, unknown)
              /\ forall k', k' <> k -> OD.get k' unknown = OD.get k' unknown0
        | Raise e => read stream schema = Raise e
        end).
Proof.
  intros stream stream0 schema d k Hd Hd0 Hu Hdict.
  apply unmatched_inv in Hu as (NX & NC & Hall).
  apply load_config_dict in Hd, Hd0.
  unfold ReadConfigFile. rewrite Hd, Hd0. simpl bind.
  rewrite load_plugins_without by assumption.
  destruct (plugins (VDict d)) as [c1 | ex] eqn:E1;
    [| split; [discriminate | split; [discriminate | reflexivity]]].
  destruct (load_plugins_result _ _ _ NX E1) as (e1 & -> & G1). simpl.
  rewrite load_cosmo_without by assumption.
  destruct (cosmo (VDict e1)) as [c2 | ex] eqn:E2;
    [| split; [discriminate | split; [discriminate | reflexivity]]].
  destruct (load_cosmo_result _ _ _ NC E2) as (e2 & -> & G2). simpl.
  rewrite fill_all_without by assumption.
  destruct (fill_children format_exc schema [] (VDict e2) []) as [[[ns c3] m] | ex] eqn:E3;
    [| split; [discriminate | split; [discriminate | reflexivity]]].
  destruct (fill_all_dict_result _ _ _ _ _ _ _ _ E3) as (e3 & -> & Hi3).
  pose proof (fill_all_keeps_key _ _ _ _ _ _ _ _ _ Hall E3) as G3.
  assert (Hdict3 : OD.get "__dict__" e3 = None).
  { apply (get_None_keys _ e2 _ Hi3).
    apply (get_None_keys _ e1 _ (load_cosmo_keys _ _ E2)).
    apply (get_None_keys _ d _ (load_plugins_keys _ _ E1)). exact Hdict. }
  cbn [strip_key bind].
  split; [| split].
  - intros ns' unknown E.
    destruct (store_unknown (VDict e3)) as [u |] eqn:Eu; simpl in E; [| discriminate].
    destruct m; [| discriminate]. injection E as _ <-.
    rewrite (UnknownFacts.store_unknown_get _ _ k Hdict3 Eu). congruence.
  - intros ns' unknown E.
    destruct (store_unknown (VDict e3)) as [u |] eqn:Eu; simpl in E; [| discriminate].
    destruct m; [| discriminate]. injection E as <- <-.
    exists e1, e2, e3. split; [reflexivity |]. split; [exact E2 |]. split; [exact E3 |].
    intros k'. apply (UnknownFacts.store_unknown_get _ _ k' Hdict3 Eu).
  - intros Hk.
    pose proof (UnknownFacts.store_unknown_without e3 k Hk Hdict3) as Hw.
    destruct (store_unknown (VDict (without k e3))) as [u0 |]; cbn [bind].
    + destruct Hw as (u & -> & Hu). cbn [bind].
      destruct m; [| reflexivity]. exists u. split; [reflexivity | exact Hu].
    + rewrite Hw. reflexivity.
Qed.

End ReadFacts.

(** ** Reconciliation with the signature *)

Module SchemaFacts.

Section CopyKeys.
Context {V : Type}.
Implicit Types (d acc : list (string * V)).

Lemma copy_keys_ext d1 d2 l acc :
  (forall k, In k l -> OD.get k d1 = OD.get k d2) ->
  OD.copy_keys d1 l acc = OD.copy_keys d2 l acc.
Proof.
  unfold OD.copy_keys. revert acc.
  induction l as [| x l IH]; intros acc H; simpl; [reflexivity |].
  rewrite (H x) by now left. apply IH. intros k Hk. apply H. now right.
Qed.

Lemma get_In_value k d v : OD.get k d = Some v -> In v (map snd d).
Proof.
  induction d as [| [x w] d IH]; simpl; [discriminate |].
  destruct (String.eqb k x); [intros [= <-]; now left | intros H; right; auto].
Qed.

Lemma set_values k v d w :
  In w (map snd (OD.set k v d)) -> w = v \/ In w (map snd d).
Proof.
  induction d as [| [x u] d IH]; simpl.
  - intros [<- | []]. now left.
  - destruct (String.eqb k x); simpl.
    + intros [<- | H]; auto.
    + intros [<- | H]; auto. destruct (IH H); auto.
Qed.

Lemma copy_keys_values d l acc w :
  In w (map snd (OD.copy_keys d l acc)) ->
  In w (map snd d) \/ In w (map snd acc).
Proof.
  unfold OD.copy_keys. revert acc.
  induction l as [| x l IH]; intros acc; simpl; [auto |].
  intros H. apply IH in H as [H | H]; [now left |].
  destruct (OD.get x d) as [v |] eqn:E; [| now right].
  apply set_values in H as [-> | H]; [left | now right].
  eapply get_In_value; eassumption.
Qed.

Lemma copy_keys_twice d l :
  OD.copy_keys (OD.copy_keys d l []) l [] = OD.copy_keys d l [].
Proof.
  apply copy_keys_ext. intros k Hk. rewrite ODFacts.get_copy_keys.
  rewrite (proj2 (mem_str_In k l) Hk). simpl. destruct (OD.get k d); reflexivity.
Qed.
End CopyKeys.

Section Update.
Variables (args allowed required default_names : list string).
Variable defaults : option (list value).

Local Abbreviation upd :=
  (fun p : string * Argument =>
     (fst p, update_entry required default_names defaults (snd p))).

Lemma update_entry_idem a :
  update_entry required default_names defaults
    (update_entry required default_names defaults a)
  = update_entry required default_names defaults a.
Proof.
  unfold update_entry. simpl.
  destruct (index_of (name a) default_names); reflexivity.
Qed.

Lemma map_upd_idem (s : schema_t) : map upd (map upd s) = map upd s.
Proof.
  rewrite map_map. apply map_ext. intros [k a]. simpl.
  rewrite update_entry_idem. reflexivity.
Qed.

Lemma check_map_upd (s : schema_t) st :
  fold_left (check_entry args allowed) (map snd (map upd s)) st
  = fold_left (check_entry args allowed) (map snd s) st.
Proof.
  revert st. induction s as [| [k a] s IH]; intros st; simpl; [reflexivity |].
  rewrite <- IH. reflexivity.
Qed.

(** Entries taken from an updated schema are updated entries. *)
Lemma map_upd_fixed (s s' : schema_t) :
  (forall a, In a (map snd s') -> In a (map snd (map upd s))) ->
  map upd s' = s'.
Proof.
  intros H. induction s' as [| [k a] s' IH]; simpl; [reflexivity |].
  rewrite IH by (intros b Hb; apply H; now right). f_equal. f_equal.
  specialize (H a (or_introl eq_refl)).
  rewrite map_map in H. apply in_map_iff in H as ([k0 a0] & <- & _). simpl.
  apply update_entry_idem.
Qed.

Lemma reorder_fixed (s : schema_t) :
  map upd (reorder args allowed (map upd s)) = reorder args allowed (map upd s).
Proof.
  apply (map_upd_fixed s). intros a Ha. unfold reorder in Ha.
  apply copy_keys_values in Ha as [Ha | []]. exact Ha.
Qed.
End Update.

End SchemaFacts.

(** C8.  The schema that [update_schema] leaves after a second run against
    the same signature is the schema it left after the first run; so every
    entry has the same [required] flag and the same [default] after two runs
    as after one. *)
Theorem update_schema_idempotent :
  forall schema attrs defaults allowed,
    let once := fst (update_schema schema attrs defaults allowed) in
    let twice := fst (update_schema once attrs defaults allowed) in
    twice = once
    /\ forall k,
        option_map required (OD.get k twice) = option_map required (OD.get k once)
        /\ option_map default (OD.get k twice) = option_map default (OD.get k once).
Proof.
  intros schema attrs defaults allowed once twice.
  assert (E : twice = once); [| rewrite E; auto].
  subst once twice. unfold update_schema.
  destruct (signature_names attrs defaults) as [[args required] default_names].
  set (upd := fun p : string * Argument =>
                (fst p, update_entry required default_names defaults (snd p))).
  destruct (fold_left (check_entry args allowed) (map snd schema)
              ([], (default_names ++ required)%list)) as [extra missing] eqn:Echk.
  assert (Hkeep :
            fst (let '(extra0, missing0) :=
                   fold_left (check_entry args allowed) (map snd (map upd schema))
                     ([], (default_names ++ required)%list) in
                 check_and_reorder args allowed (map upd (map upd schema)) extra0 missing0)
            = fst (check_and_reorder args allowed (map upd schema) extra missing)).
  { subst upd. rewrite SchemaFacts.check_map_upd, Echk.
    rewrite SchemaFacts.map_upd_idem. reflexivity. }
  destruct (check_and_reorder args allowed (map upd schema) extra missing)
    as [s1 r1] eqn:ER.
  simpl fst in *. unfold check_and_reorder in ER.
  destruct missing as [| m0 missing]; [| injection ER as <- <-; exact Hkeep].
  destruct extra as [| x0 extra]; [| injection ER as <- <-; exact Hkeep].
  destruct (list_eqb (filter (fun k => mem_str k args) (OD.keys (map upd schema))) args);
    injection ER as <- <-; [exact Hkeep |].
  clear Hkeep.
  assert (Hfix : map upd (reorder args allowed (map upd schema))
                 = reorder args allowed (map upd schema))
    by (subst upd; apply SchemaFacts.reorder_fixed).
  rewrite Hfix.
  destruct (fold_left (check_entry args allowed)
              (map snd (reorder args allowed (map upd schema))) _)
    as [extra1 missing1].
  unfold check_and_reorder.
  destruct missing1; [| reflexivity]. destruct extra1; [| reflexivity].
  destruct (list_eqb _ args); [reflexivity |].
  simpl. unfold reorder. apply SchemaFacts.copy_keys_twice.
Qed.

(** ** Declaring arguments *)

Module AddFacts.
Import ConstructorSchema.

Lemma map_subfields_id a : map_subfields (fun o => o) a = a.
Proof. destruct a; reflexivity. Qed.

Lemma get_in_subfields k f obj :
  OD.get k (in_subfields k f obj) = option_map (map_subfields f) (OD.get k obj).
Proof.
  induction obj as [| [x a] obj IH]; simpl; [reflexivity |].
  destruct (String.eqb_spec k x) as [-> | N]; simpl.
  - rewrite String.eqb_refl. reflexivity.
  - destruct (String.eqb_spec k x); [contradiction | exact IH].
Qed.

Lemma in_subfields_compose k f g obj :
  in_subfields k g (in_subfields k f obj) = in_subfields k (fun o => g (f o)) obj.
Proof.
  induction obj as [| [x a] obj IH]; simpl; [reflexivity |].
  destruct (String.eqb_spec k x) as [-> | N]; simpl.
  - rewrite String.eqb_refl. reflexivity.
  - destruct (String.eqb_spec k x); [contradiction |]. rewrite IH. reflexivity.
Qed.

Lemma in_subfields_id k obj : in_subfields k (fun o => o) obj = obj.
Proof.
  induction obj as [| [x a] obj IH]; simpl; [reflexivity |].
  destruct (String.eqb k x); [rewrite map_subfields_id | rewrite IH]; reflexivity.
Qed.

Lemma in_subfields_ext k f g obj :
  (forall o, f o = g o) -> in_subfields k f obj = in_subfields k g obj.
Proof.
  intros H. induction obj as [| [x a] obj IH]; simpl; [reflexivity |].
  destruct (String.eqb k x); [| rewrite IH; reflexivity].
  unfold map_subfields. rewrite H. reflexivity.
Qed.

Lemma in_subfields_nonempty k f obj : obj <> [] -> in_subfields k f obj <> [].
Proof.
  destruct obj as [| [x a] obj]; [congruence |]. intros _. simpl.
  destruct (String.eqb k x); discriminate.
Qed.

Lemma set_nonempty {V} k (v : V) d : OD.set k v d <> [].
Proof. destruct d as [| [x w] d]; simpl; [| destruct (String.eqb k x)]; discriminate. Qed.

Lemma at_path_id prefix obj : at_path prefix (fun o => o) obj = obj.
Proof.
  revert obj. induction prefix as [| k rest IH]; intros obj; simpl; [reflexivity |].
  rewrite (in_subfields_ext _ _ (fun o => o)) by exact IH. apply in_subfields_id.
Qed.

(** The walk that creates the parents, followed by a change [f] of the
    mapping it ends in. *)
Lemma declare_cons req seen k rest f obj :
  at_path (k :: rest) f (create_parents req seen (k :: rest) obj)
  = in_subfields k
      (fun o => at_path rest f (create_parents req (seen ++ [k]) rest o))
      (if OD.mem k obj then obj
       else OD.set k (Argument_new (PyStr.join "." (seen ++ [k])) req) obj).
Proof. simpl. apply in_subfields_compose. Qed.

Lemma declare_nonempty req f :
  (forall o, f o <> []) ->
  forall prefix seen obj, at_path prefix f (create_parents req seen prefix obj) <> [].
Proof.
  intros Hf prefix. destruct prefix as [| k rest]; intros seen obj.
  - apply Hf.
  - rewrite declare_cons. apply in_subfields_nonempty.
    unfold OD.mem. destruct (OD.get k obj) eqn:E.
    + destruct obj; [discriminate | discriminate].
    + apply set_nonempty.
Qed.

Lemma lookup_cons k p obj :
  p <> [] ->
  lookup (k :: p) obj
  = match OD.get k obj with
    | Some a => lookup p (subfields a)
    | None => None
    end.
Proof. destruct p; [congruence | reflexivity]. Qed.

Lemma lookup_nil path : lookup path [] = None.
Proof. destruct path as [| k [| k' p]]; reflexivity. Qed.

Lemma created_parent req f :
  forall prefix seen obj i,
    i < List.length prefix ->
    lookup (firstn (S i) prefix) obj = None ->
    exists a,
      lookup (firstn (S i) prefix)
        (at_path prefix f (create_parents req seen prefix obj)) = Some a
      /\ is_created_parent req (seen ++ firstn (S i) prefix) a
      /\ ((forall o, f o <> []) -> subfields a <> []).
Proof.
  induction prefix as [| k rest IH]; intros seen obj i Hi Hnone; [simpl in Hi; lia |].
  rewrite declare_cons.
  set (F := fun o => at_path rest f (create_parents req (seen ++ [k]) rest o)).
  destruct i as [| j].
  - simpl in Hnone. simpl firstn. simpl lookup.
    rewrite get_in_subfields. unfold OD.mem. rewrite Hnone.
    rewrite ODFacts.get_set, String.eqb_refl. simpl.
    eexists. split; [reflexivity |]. split.
    + repeat split.
    + intros Hf. simpl. subst F. apply declare_nonempty. exact Hf.
  - simpl in Hi. assert (Hj : j < List.length rest) by lia.
    assert (Hp : firstn (S j) rest <> []) by (destruct rest; [simpl in Hj; lia | discriminate]).
    change (firstn (S (S j)) (k :: rest)) with (k :: firstn (S j) rest) in *.
    rewrite lookup_cons in * by assumption. rewrite get_in_subfields.
    unfold OD.mem. destruct (OD.get k obj) as [a0 |] eqn:E0.
    + rewrite E0. simpl.
      destruct (IH (seen ++ [k])%list (subfields a0) j Hj Hnone) as (a & Ha & Hc & Hs).
      exists a. split; [exact Ha |]. split; [| exact Hs].
      rewrite <- app_assoc in Hc. exact Hc.
    + rewrite ODFacts.get_set, String.eqb_refl. simpl.
      destruct (IH (seen ++ [k])%list [] j Hj (lookup_nil _)) as (a & Ha & Hc & Hs).
      exists a. split; [exact Ha |]. split; [| exact Hs].
      rewrite <- app_assoc in Hc. exact Hc.
Qed.

End AddFacts.

(** C6, as the code has it.  A parent on the dotted path that did not exist
    before the call exists after it, named by its own dotted prefix, with
    the [required] flag that was given for the leaf and every other field at
    its default; when the call returns, the parent has subfields. *)
Theorem created_parents_take_required_flag :
  forall self nm ty dflt ch na hlp req i,
    let prefix := removelast (PyStr.split_on "."%char nm) in
    let result := ConstructorSchema.add_argument self nm ty dflt ch na hlp req in
    i < List.length prefix ->
    ConstructorSchema.lookup (firstn (S i) prefix) self = None ->
    exists a,
      ConstructorSchema.lookup (firstn (S i) prefix) (fst result) = Some a
      /\ is_created_parent req (firstn (S i) prefix) a
      /\ (snd result = Ok tt -> subfields a <> []).
Proof.
  intros self nm ty dflt ch na hlp req i prefix result Hi Hnone.
  subst result. unfold ConstructorSchema.add_argument. fold prefix.
  set (self1 := ConstructorSchema.create_parents req [] prefix self).
  assert (Hkeep : exists a,
             ConstructorSchema.lookup (firstn (S i) prefix) self1 = Some a
             /\ is_created_parent req (firstn (S i) prefix) a).
  { destruct (AddFacts.created_parent req (fun o => o) prefix [] self i Hi Hnone)
      as (a & Ha & Hc & _).
    rewrite AddFacts.at_path_id in Ha. eauto. }
  assert (Hset : forall x,
             exists a,
               ConstructorSchema.lookup (firstn (S i) prefix)
                 (ConstructorSchema.at_path prefix
                    (OD.set (last (PyStr.split_on "."%char nm) EmptyString) x) self1)
               = Some a
               /\ is_created_parent req (firstn (S i) prefix) a
               /\ subfields a <> []).
  { intros x.
    destruct (AddFacts.created_parent req
                (OD.set (last (PyStr.split_on "."%char nm) EmptyString) x)
                prefix [] self i Hi Hnone) as (a & Ha & Hc & Hs).
    exists a. repeat split; try assumption; try apply Hc.
    apply Hs. intros o. apply AddFacts.set_nonempty. }
  destruct (ConstructorSchema.contains self1 nm) as [[|] | e].
  - destruct (ConstructorSchema.descend prefix self1) as [obj |].
    + destruct (OD.get _ obj) as [old |].
      * destruct (Hset (ConstructorSchema.replace_fields old ty dflt ch na hlp req))
          as (a & Ha & Hc & Hs). exists a. simpl. auto.
      * destruct Hkeep as (a & Ha & Hc). exists a. simpl.
        repeat split; try assumption; try apply Hc. discriminate.
    + destruct Hkeep as (a & Ha & Hc). exists a. simpl.
      repeat split; try assumption; try apply Hc. discriminate.
  - destruct (Hset (mkArgument nm req ty dflt ch na hlp [])) as (a & Ha & Hc & Hs).
    exists a. simpl. auto.
  - destruct Hkeep as (a & Ha & Hc). exists a. simpl.
    repeat split; try assumption; try apply Hc. discriminate.
Qed.

(** A name without a dot: the entry found under it right after the call has
    the declared fields; an entry that was there keeps its name and its
    subfields. *)
Lemma add_argument_round_trip_top :
  forall self nm ty dflt ch na hlp req,
    PyStr.split_on "."%char nm = [nm] ->
    let result := ConstructorSchema.add_argument self nm ty dflt ch na hlp req in
    snd result = Ok tt
    /\ exists a,
        ConstructorSchema.lookup [nm] (fst result) = Some a
        /\ required a = req /\ type a = ty /\ default a = dflt
        /\ choices a = ch /\ nargs a = na /\ help a = hlp
        /\ match OD.get nm self with
           | Some old => name a = name old /\ subfields a = subfields old
           | None => name a = nm /\ subfields a = []
           end.
Proof.
  intros self nm ty dflt ch na hlp req Hsplit result. subst result.
  unfold ConstructorSchema.add_argument, ConstructorSchema.contains.
  rewrite Hsplit. simpl. unfold OD.mem.
  destruct (OD.get nm self) as [old |] eqn:E; simpl.
  - split; [reflexivity |].
    rewrite ODFacts.get_set, String.eqb_refl. eexists. split; [reflexivity |].
    simpl. repeat split.
  - split; [reflexivity |].
    rewrite ODFacts.get_set, String.eqb_refl. eexists. split; [reflexivity |].
    simpl. repeat split.
Qed.

(** C7, on a name of three segments.  On the empty schema,
    [add_argument("a.b.c")] creates the parents [a] and [a.b], and then ends
    in the [KeyError] that [contains] raises when it looks the second segment
    up in the top-level mapping; the leaf is not there afterwards. *)
Theorem add_argument_three_segments_raises :
  forall ty dflt ch na hlp req,
    let result := ConstructorSchema.add_argument [] "a.b.c" ty dflt ch na hlp req in
    snd result = Raise (mkExn KeyError "b")
    /\ ConstructorSchema.contains (fst result) "a.b.c" = Raise (mkExn KeyError "b")
    /\ ConstructorSchema.lookup ["a"; "b"; "c"] (fst result) = None
    /\ option_map name (ConstructorSchema.lookup ["a"; "b"] (fst result)) = Some "a.b".
Proof.
  intros ty dflt ch na hlp req result. subst result. repeat split.
Qed.

(** C1, on a container.  The document spells the container key [Field], the
    schema [field]: the fill pops nothing, sets nothing and records nothing,
    and the key stays in the document; spelled [field], the same document
    fills the namespace, the leaf key [nmesh] matching [Nmesh] up to case
    (names of the ASCII range, lowered as such). *)
Theorem container_key_is_matched_exactly :
  forall (L : Lowercase) format_exc,
    fill_namespace format_exc [] Examples.field
      (VDict [("Field", VDict [("nmesh", VInt 64)])]) []
    = Ok ([], VDict [("Field", VDict [("nmesh", VInt 64)])], [])
    /\ fill_namespace (L := Examples.ascii_names) format_exc [] Examples.field
         (VDict [("field", VDict [("nmesh", VInt 64)])]) []
       = Ok ([("field", VNamespace [("Nmesh", VInt 64)])], VDict [], []).
Proof.
  intros L format_exc. split; reflexivity.
Qed.

(** ** The constructor wrapper *)

Section BindingFacts.

Variable py_eq : value -> value -> bool.
Variable set_order : list string -> list string.
Hypothesis set_order_perm :
  forall l, Permutation (set_order l) (nodup string_dec l).

Variable spec : argspec.
Variable schema : schema_t.
Variable attach_comm attach_cosmo : bool.
Variable class_name : string.
Variable get_nbkit_comm get_nbkit_cosmo : value.
Variable init : namespace -> list value -> namespace -> res namespace.

Lemma In_set_order n l : In n (set_order l) <-> In n l.
Proof.
  split; intros H.
  - apply (nodup_In string_dec).
    eapply Permutation_in; [apply set_order_perm | exact H].
  - eapply Permutation_in; [apply Permutation_sym, set_order_perm |].
    apply (nodup_In string_dec). exact H.
Qed.

Lemma mem_In {V} n (d : list (string * V)) : OD.mem n d = true <-> In n (OD.keys d).
Proof.
  unfold OD.mem. rewrite <- ODFacts.get_In.
  destruct (OD.get n d); split; congruence.
Qed.

Lemma In_duplicated n posargs kwargs :
  In n (duplicated_names set_order posargs kwargs)
  <-> In n (OD.keys posargs) /\ In n (OD.keys kwargs).
Proof.
  unfold duplicated_names. rewrite In_set_order, filter_In, mem_In. reflexivity.
Qed.

Lemma In_missing n posargs kwargs :
  In n (missing_names schema posargs kwargs)
  <-> (exists a, OD.get n schema = Some a /\ required a = true)
      /\ ~ In n (OD.keys posargs) /\ ~ In n (OD.keys kwargs).
Proof.
  unfold missing_names. rewrite !filter_In, andb_true_iff, !negb_true_iff.
  rewrite <- !mem_In. split.
  - intros [[Hk Hr] [Hp Hw]]. destruct (OD.get n schema) as [a |]; [| discriminate].
    split; [eauto |]. split; congruence.
  - intros [(a & Ha & Hr) [Hp Hw]]. rewrite Ha. repeat split; try assumption.
    + unfold OD.mem. rewrite Ha. reflexivity.
    + destruct (OD.mem n posargs); congruence.
    + destruct (OD.mem n kwargs); congruence.
Qed.

Lemma In_extra n posargs kwargs :
  In n (extra_names set_order schema posargs kwargs)
  <-> (In n (OD.keys posargs) \/ In n (OD.keys kwargs)) /\ OD.get n schema = None.
Proof.
  unfold extra_names. rewrite filter_In, In_set_order, in_app_iff, negb_true_iff.
  unfold OD.mem. destruct (OD.get n schema); split; intros [H1 H2];
    split; congruence.
Qed.

Lemma keys_set {V} n k (v : V) d :
  In n (OD.keys (OD.set k v d)) <-> n = k \/ In n (OD.keys d).
Proof.
  induction d as [| [x w] d IH]; simpl.
  - split; [intros [<- | []]; auto | intros [-> | []]; auto].
  - destruct (String.eqb_spec k x) as [-> | N]; simpl.
    + split; [intros [<- | H]; auto | intros [-> | [<- | H]]; auto].
    + rewrite IH. split; [intros [<- | [-> | H]]; auto | intros [-> | [<- | H]]; auto].
Qed.

Lemma bind_positional_keys l :
  forall self posargs self' posargs',
    bind_positional py_eq schema l self posargs = Ok (self', posargs') ->
    forall n, In n (OD.keys posargs') <-> In n (map fst l) \/ In n (OD.keys posargs).
Proof.
  induction l as [| [attr val] l IH]; intros self posargs self' posargs'; simpl.
  - intros [= <- <-] n. tauto.
  - destruct (check_choices py_eq schema attr val); simpl; [| discriminate].
    intros H n. rewrite (IH _ _ _ _ H n), keys_set. intuition congruence.
Qed.

Lemma In_combine_fst {A B} (l1 : list A) (l2 : list B) x :
  In x (map fst (combine l1 l2)) <-> In x (firstn (List.length l2) l1).
Proof.
  revert l2. induction l1 as [| a l1 IH]; intros [| b l2]; simpl; try tauto.
  rewrite IH. tauto.
Qed.

Local Abbreviation bound :=
  (bind_arguments py_eq spec schema attach_comm attach_cosmo
     get_nbkit_comm get_nbkit_cosmo).
Local Abbreviation wrapped :=
  (wrapper py_eq set_order spec schema attach_comm attach_cosmo class_name
     get_nbkit_comm get_nbkit_cosmo init).

Lemma bind_arguments_posargs self args kwargs self' posargs kwargs' :
  bound self args kwargs = Ok (self', posargs, kwargs') ->
  forall n, In n (OD.keys posargs)
            <-> In n (firstn (List.length args) (tl (attrs spec))).
Proof.
  unfold bind_arguments.
  destruct (fold_left pop_allowed _ _) as [self0 kwargs0].
  destruct (bind_positional _ _ _ _ _) as [[self1 posargs1] |] eqn:Ep; simpl;
    [| discriminate].
  destruct (bind_keywords _ _ _ _) as [self2 |]; simpl; [| discriminate].
  intros [= <- <- <-] n.
  rewrite (bind_positional_keys _ _ _ _ _ Ep n), In_combine_fst. simpl. tauto.
Qed.


End BindingFacts.

(** ** The statements at concrete inputs *)

Section Concrete.

#[local] Existing Instance Examples.ascii_names.

Lemma endswith_app (b m : string) : PyStr.endswith (b ++ m) m = true.
Proof.
  induction b as [| c b IH]; simpl.
  - destruct m; simpl; [reflexivity |].
    rewrite Ascii.eqb_refl, String.eqb_refl. reflexivity.
  - match goal with
    | |- (if ?t then _ else _) = _ => destruct t; [reflexivity | exact IH]
    end.
Qed.

(** C2 fails as stated: with two required leaves and a document that has
    neither, the read raises a [ValueError], which is not a
    [ConfigurationError]; and with a required leaf below a container that the
    document does not have, the read returns and reports nothing. *)
Lemma missing_required_is_value_error :
  (Examples.read (VDict [("c", VInt 1)]) Examples.two_required
   = Raise (mkExn ValueError "missing required arguments: ['a', 'b']")
   /\ forall msg,
       Examples.read (VDict [("c", VInt 1)]) Examples.two_required
       <> Raise (mkExn ConfigurationError msg))
  /\ Examples.read (VDict [("c", VInt 1)]) [("field", Examples.field)]
     = Ok ([], [("c", VInt 1)]).
Proof.
  split; [split |]; try reflexivity. intros msg. discriminate.
Qed.

(** The conditions of C2 are needed.  A leaf whose name equals the name of
    a container up to case takes the container's key, and the required leaf
    below the container is then not recorded; and a leftover key [__class__]
    makes the read raise its [TypeError] before the check of [missing]. *)
Lemma missing_required_conditions :
  Examples.read (VDict [("field", VDict [])])
    [("Field", Examples.leaf "Field" false); ("field", Examples.field)]
  = Ok ([("Field", VDict [])], [])
  /\ Examples.read (VDict [("__class__", VInt 1)]) Examples.two_required
     = Raise (mkExn TypeError "__class__ must be set to a class, not 'int' object").
Proof. split; reflexivity. Qed.

Lemma missing_required_aggregate_witness :
  let doc := [("c", VInt 1)] in
  let raised :=
    Examples.read (VDict doc) Examples.two_required
    = Raise (mkExn ValueError
               ("missing required arguments: " ++ PyStr.repr_list ["a"; "b"])) in
  Examples.loads (VDict doc) EmptyString = Ok (VDict doc)
  /\ load_plugins Examples.no_plugin (VDict doc) = Ok (VDict doc)
  /\ load_cosmo unit Examples.no_cosmology Examples.register (VDict doc)
     = Ok (VDict doc)
  /\ (forall k, In k (OD.keys doc) -> special_attribute k = false)
  /\ fill_children Examples.plain_traceback Examples.two_required [] (VDict doc) []
     = Ok ([], VDict doc, ["a"; "b"])
  /\ (forall k', In k' (OD.keys doc) ->
                  str_lower (local_name (Examples.leaf "b" true)) <> str_lower k')
  /\ In "b" ["a"; "b"]
  /\ raised.
Proof.
  intros doc raised.
  assert (Hs : forall k, In k (OD.keys doc) -> special_attribute k = false).
  { intros k [<- | []]. reflexivity. }
  assert (Hb : In ("b", Examples.leaf "b" true) Examples.two_required)
    by (right; left; reflexivity).
  pose proof (missing_required_aggregate Examples.plain_traceback
                (Examples.loads (VDict doc)) Examples.no_plugin unit
                Examples.no_cosmology Examples.register
                EmptyString Examples.two_required doc doc doc
                [] (VDict doc) ["a"; "b"] eq_refl eq_refl eq_refl Hs eq_refl)
    as (_ & _ & Hleaf & _).
  assert (Hno : forall k', In k' (OD.keys doc) ->
                  str_lower (local_name (Examples.leaf "b" true)) <> str_lower k').
  { intros k' [<- | []]. discriminate. }
  destruct (Hleaf "b" (Examples.leaf "b" true) Hb eq_refl eq_refl Hno)
    as [Hi Hr].
  repeat (split; [reflexivity || exact Hs || exact Hno |]).
  split; [exact Hi | exact Hr].
Defined.

Lemma cast_tuple_fallback_witness :
  let arg := mkArgument "x" false (TTuple [Some py_int; Some py_str]) VNone None NNone None [] in
  type arg = TTuple ([Some py_int] ++ [Some py_str])%list
  /\ ConstructorSchema.check_nargs arg (VStr "abc") = Ok (VStr "abc")
  /\ Forall (ConstructorSchema.fails arg (VStr "abc")) [Some py_int]
  /\ ConstructorSchema.cast arg (VStr "abc")
     = ConstructorSchema.cast1 arg (VStr "abc") (Some py_str)
  /\ ConstructorSchema.cast arg (VStr "42") = Ok (VInt 42).
Proof.
  intros arg.
  assert (Hf : Forall (ConstructorSchema.fails arg (VStr "abc")) [Some py_int]).
  { constructor; [| constructor]. eexists. reflexivity. }
  split; [reflexivity |]. split; [reflexivity |]. split; [exact Hf |]. split.
  - exact (proj2 (proj1 cast_tuple_fallback arg (VStr "abc") (VStr "abc")
                    [Some py_int] (Some py_str) [] eq_refl eq_refl Hf) eq_refl).
  - refine (proj1 (proj1 cast_tuple_fallback arg (VStr "42") (VStr "42")
                     [] (Some py_int) [Some py_str] eq_refl eq_refl (Forall_nil _))
              _ (VInt 42) eq_refl).
    discriminate.
Defined.




(** C6 fails as stated: the parent [a] that [add_argument("a.b",
    required=True)] creates is required. *)
Lemma created_parent_is_required :
  exists a,
    ConstructorSchema.lookup ["a"]
      (fst (ConstructorSchema.add_argument [] "a.b" (TSingle None) VNone None NNone None true))
    = Some a
    /\ required a = true
    /\ required a <> false.
Proof.
  eexists. split; [reflexivity |]. split; [reflexivity | discriminate].
Qed.

Lemma created_parents_take_required_flag_witness :
  0 < List.length (removelast (PyStr.split_on "."%char "a.b"))
  /\ ConstructorSchema.lookup (firstn 1 (removelast (PyStr.split_on "."%char "a.b"))) [] = None
  /\ exists a,
      ConstructorSchema.lookup (firstn 1 (removelast (PyStr.split_on "."%char "a.b")))
        (fst (ConstructorSchema.add_argument [] "a.b" (TSingle None) VNone None NNone None true))
      = Some a
      /\ is_created_parent true (firstn 1 (removelast (PyStr.split_on "."%char "a.b"))) a
      /\ (snd (ConstructorSchema.add_argument [] "a.b" (TSingle None) VNone None NNone None true)
          = Ok tt -> subfields a <> []).
Proof.
  assert (H0 : 0 < List.length (removelast (PyStr.split_on "."%char "a.b")))
    by (simpl; lia).
  split; [exact H0 |]. split; [reflexivity |].
  exact (created_parents_take_required_flag [] "a.b" (TSingle None) VNone None NNone None
           true 0 H0 eq_refl).
Defined.

(** C9 fails as stated: a key that no entry takes and that [setattr]
    refuses makes the read fail, and the key [__dict__] does not reach
    [unknown] but replaces its attributes. *)
Lemma special_key_does_not_pass_through :
  let schema := [("a", Examples.leaf "a" true)] in
  unmatched schema "__class__" = true
  /\ unmatched schema "__dict__" = true
  /\ Examples.read (VDict [("a", VInt 1)]) schema = Ok ([("a", VInt 1)], [])
  /\ Examples.read (VDict [("a", VInt 1); ("__class__", VInt 2)]) schema
     = Raise (mkExn TypeError "__class__ must be set to a class, not 'int' object")
  /\ Examples.read (VDict [("a", VInt 1); ("__dict__", VDict [("b", VInt 2)])]) schema
     = Ok ([("a", VInt 1)], [("b", VInt 2)]).
Proof.
  intros schema. repeat split.
Qed.

Lemma unknown_keys_pass_through_witness :
  let d := [("Nmesh", VInt 64); ("extra_key", VStr "v")] in
  let schema := [("Nmesh", Examples.leaf "Nmesh" true)] in
  let loader := fun s : string =>
                  if String.eqb s "full" then Ok (VDict d)
                  else Ok (VDict (without "extra_key" d)) in
  let read := ReadConfigFile Examples.plain_traceback loader Examples.no_plugin unit
                Examples.no_cosmology Examples.register in
  loader "full" = Ok (VDict d)
  /\ loader "short" = Ok (VDict (without "extra_key" d))
  /\ unmatched schema "extra_key" = true
  /\ OD.get "__dict__" d = None
  /\ special_attribute "extra_key" = false
  /\ read "short" schema = Ok ([("Nmesh", VInt 64)], [])
  /\ (forall ns unknown,
        read "full" schema = Ok (ns, unknown) ->
        OD.get "extra_key" unknown = Some (VStr "v"))
  /\ exists unknown,
      read "full" schema = Ok ([("Nmesh", VInt 64)], unknown)
      /\ forall k', k' <> "extra_key" -> OD.get k' unknown = OD.get k' (@nil (string * value)).
Proof.
  intros d schema loader read.
  pose proof (unknown_keys_pass_through Examples.plain_traceback loader
                Examples.no_plugin unit Examples.no_cosmology Examples.register
                "full" "short" schema d "extra_key" eq_refl eq_refl eq_refl eq_refl)
    as (Hget & _ & Hsame).
  repeat (split; [reflexivity |]). split; [exact Hget |].
  exact (Hsame eq_refl).
Defined.

Lemma fill_absent_container_with_container_child_witness :
  OD.get (local_name Examples.outer) (@nil (string * value)) = None
  /\ (exists k child, In (k, child) (subfields Examples.outer) /\ subfields child <> [])
  /\ fill_namespace Examples.plain_traceback [] Examples.outer (VDict []) []
     = Raise (mkExn AttributeError "'NoneType' object has no attribute 'pop'").
Proof.
  assert (Hc : exists k child,
             In (k, child) (subfields Examples.outer) /\ subfields child <> []).
  { eexists. eexists. split; [left; reflexivity | discriminate]. }
  split; [reflexivity |]. split; [exact Hc |].
  exact (proj2 (fill_absent_container_with_container_child Examples.plain_traceback
                  [] Examples.outer [] [] eq_refl Hc)).
Defined.


End Concrete.

(** * Further properties of the module *)

(** ** The cast engine, its errors *)

Module CastErrors.
Import ConstructorSchema.

Lemma try_casts_None arg val cs :
  try_casts arg val cs = None -> Forall (fails arg val) cs.
Proof.
  induction cs as [| c cs IH]; simpl; [constructor |].
  destruct (cast1 arg val c) as [r | e] eqn:E; [discriminate |].
  intros H. constructor; [exists e; exact E | exact (IH H)].
Qed.

Lemma last_cast_spec cs :
  match cs with
  | [] => last_cast cs = Raise (mkExn IndexError "tuple index out of range")
  | _ :: _ => exists pre c, cs = (pre ++ [c])%list /\ last_cast cs = Ok c
               /\ removelast cs = pre
  end.
Proof.
  destruct cs as [| x cs]; [reflexivity |].
  destruct (exists_last (l := x :: cs)) as (pre & c & E); [discriminate |].
  exists pre, c. rewrite E. split; [reflexivity |].
  split; [apply CastFacts.last_cast_snoc | apply removelast_last].
Qed.

Lemma try_casts_Some arg val cs r :
  try_casts arg val cs = Some r ->
  exists before c after,
    cs = (before ++ c :: after)%list
    /\ Forall (fails arg val) before
    /\ cast1 arg val c = Ok r.
Proof.
  induction cs as [| c cs IH]; simpl; [discriminate |].
  destruct (cast1 arg val c) as [r' | e] eqn:E.
  - intros [= <-]. exists [], c, cs. split; [reflexivity |].
    split; [constructor | exact E].
  - intros H. destruct (IH H) as (before & c' & after & -> & Hf & Hc).
    exists (c :: before), c', after. split; [reflexivity |].
    split; [constructor; [exists e; exact E | exact Hf] | exact Hc].
Qed.

End CastErrors.

(** X1.  An exception that [cast] ends in is the one of the cardinality
    checks, or the [IndexError] of an empty tuple of candidates, or the one
    the last candidate raised after every candidate before it had raised:
    what a candidate before the last raises never comes out. *)
Theorem cast_error_provenance :
  forall arg val e,
    ConstructorSchema.cast arg val = Raise e ->
    ConstructorSchema.check_nargs arg val = Raise e
    \/ exists val',
        ConstructorSchema.check_nargs arg val = Ok val'
        /\ ((candidates arg = []
             /\ e = mkExn IndexError "tuple index out of range")
            \/ exists pre c,
                candidates arg = (pre ++ [c])%list
                /\ Forall (ConstructorSchema.fails arg val') pre
                /\ ConstructorSchema.cast1 arg val' c = Raise e).
Proof.
  intros arg val e. unfold ConstructorSchema.cast.
  destruct (ConstructorSchema.check_nargs arg val) as [val' | e0]; simpl;
    [| intros [= <-]; now left].
  fold (candidates arg).
  destruct (ConstructorSchema.try_casts arg val' (removelast (candidates arg)))
    as [r |] eqn:Et; [discriminate |].
  apply CastErrors.try_casts_None in Et.
  pose proof (CastErrors.last_cast_spec (candidates arg)) as Hl.
  destruct (candidates arg) as [| x cs] eqn:Ec.
  - rewrite Hl. simpl. intros [= <-]. right. exists val'. split; [reflexivity |].
    left. split; reflexivity.
  - destruct Hl as (pre & c & E & Hlast & Hrem). rewrite Hlast. simpl.
    intros H. right. exists val'. split; [reflexivity |]. right.
    exists pre, c. rewrite Hrem in Et. auto.
Qed.

(** X2.  With [nargs='+'] the empty list is refused with the [ValueError]
    that names the argument, and every other value passes the cardinality
    checks, a value that is not a list as the list of itself. *)
Theorem cast_one_or_more :
  forall arg,
    nargs arg = NPlus ->
    ConstructorSchema.cast arg (VList [])
    = Raise (mkExn ValueError ("'" ++ name arg ++ "' requires at least one argument"))
    /\ forall val,
        val <> VList [] ->
        ConstructorSchema.check_nargs arg val
        = Ok (match val with VList _ => val | _ => VList [val] end).
Proof.
  intros arg Hn. split.
  - unfold ConstructorSchema.cast, ConstructorSchema.check_nargs, ConstructorSchema.wrap.
    rewrite Hn. reflexivity.
  - intros val Hv. unfold ConstructorSchema.check_nargs, ConstructorSchema.wrap.
    rewrite Hn. destruct val as [| z | s | l | d | d]; try reflexivity.
    destruct l; [congruence | reflexivity].
Qed.

(** X3.  A tuple of candidates that ends in [None] never makes [cast] fail
    on a value that passed the cardinality checks: the result is that of the
    first candidate that returns, every candidate before it having raised,
    and the value itself when every candidate before the final [None]
    raises. *)
Theorem cast_with_final_None_returns :
  forall arg val val' pre,
    type arg = TTuple (pre ++ [None]) ->
    ConstructorSchema.check_nargs arg val = Ok val' ->
    (Forall (ConstructorSchema.fails arg val') pre
     /\ ConstructorSchema.cast arg val = Ok val')
    \/ (exists before c after r,
          pre = (before ++ c :: after)%list
          /\ Forall (ConstructorSchema.fails arg val') before
          /\ ConstructorSchema.cast1 arg val' c = Ok r
          /\ ConstructorSchema.cast arg val = Ok r).
Proof.
  intros arg val val' pre Hty Hchk.
  unfold ConstructorSchema.cast. rewrite Hchk, Hty. simpl.
  rewrite CastFacts.removelast_snoc, CastFacts.last_cast_snoc.
  destruct (ConstructorSchema.try_casts arg val' pre) as [r |] eqn:Et.
  - right. destruct (CastErrors.try_casts_Some _ _ _ _ Et)
      as (before & c & after & E & Hf & Hc).
    exists before, c, after, r. auto.
  - left. split; [exact (CastErrors.try_casts_None _ _ _ Et) | reflexivity].
Qed.

(** ** Key matching *)

(** X4.  [case_insensitive_name_match] returns the first key of the document
    that equals the schema name up to case, spelled as the document spells
    it, and [None] exactly when no key does. *)
Theorem name_match_is_first_match :
  forall (L : Lowercase) schema_name config,
    match case_insensitive_name_match schema_name config with
    | Some k =>
        exists pre v post,
          config = (pre ++ (k, v) :: post)%list
          /\ str_lower k = str_lower schema_name
          /\ Forall (fun p => str_lower (fst p) <> str_lower schema_name) pre
    | None =>
        Forall (fun p => str_lower (fst p) <> str_lower schema_name) config
    end.
Proof.
  intros L n d. rewrite ODFacts.name_match_find.
  induction d as [| [x v] d IH]; simpl; [constructor |].
  destruct (String.eqb_spec (str_lower n) (str_lower x)) as [E | N].
  - exists [], v, d. split; [reflexivity |]. split; [congruence | constructor].
  - destruct (ci_find n d) as [k |].
    + destruct IH as (pre & w & post & -> & El & Hpre).
      exists ((x, v) :: pre), w, post. split; [reflexivity |]. split; [assumption |].
      constructor; [simpl; congruence | assumption].
    + constructor; [simpl; congruence | assumption].
Qed.

(** ** The namespace filler, further *)

Section FillerMore.

Context {L : Lowercase}.

Variable format_exc : exn -> string.

Local Abbreviation fill := (fill_namespace format_exc).
Local Abbreviation fill_all := (fill_children format_exc).

Lemma ci_find_get n d k :
  ci_find n d = Some k -> exists v, OD.get k d = Some v.
Proof.
  intros H. apply ODFacts.ci_find_Some in H as [_ Hin].
  destruct (OD.get k d) as [v |] eqn:E; [eauto |].
  exfalso. apply (proj2 (ODFacts.get_In k d)); assumption.
Qed.

Lemma ci_find_remove_other n k d :
  str_lower n <> str_lower k -> ci_find n (OD.remove k d) = ci_find n d.
Proof.
  intros N. induction d as [| [x v] d IH]; simpl; [reflexivity |].
  destruct (String.eqb_spec k x) as [-> | Nk]; simpl.
  - destruct (String.eqb_spec (str_lower n) (str_lower x)); [contradiction | reflexivity].
  - rewrite IH. reflexivity.
Qed.

(** What one fill leaves of a mapping: the mapping, or the mapping without
    one key that equals the local name up to case. *)
Lemma fill_residual ns arg d missing ns' c missing' :
  fill ns arg (VDict d) missing = Ok (ns', c, missing') ->
  c = VDict d
  \/ exists k v, OD.get k d = Some v
                 /\ str_lower k = str_lower (local_name arg)
                 /\ c = VDict (OD.remove k d).
Proof.
  destruct (subfields arg) as [| s0 subs] eqn:Es.
  - rewrite fill_namespace_leaf by assumption. rewrite ODFacts.name_match_find.
    destruct (ci_find (local_name arg) d) as [km |] eqn:Ef.
    + destruct (ODFacts.ci_find_Some _ _ _ Ef) as [El _].
      unfold py_pop. destruct (OD.get km d) as [v |] eqn:Eg; simpl; [| discriminate].
      destruct (ConstructorSchema.cast arg v); [| discriminate].
      intros [= <- <- <-]. right. exists km, v. auto.
    + destruct (required arg); intros [= <- <- <-]; now left.
  - rewrite fill_namespace_container by congruence.
    unfold py_pop_default.
    destruct (OD.get (local_name arg) d) as [v |] eqn:Eg; simpl;
      (destruct (fill_all _ _ _ _) as [[[subns sc] m1] | ex]; simpl; [| discriminate]);
      (destruct subns as [| p subns];
       [| destruct (ConstructorSchema.cast arg _); [| discriminate]]);
      intros [= <- <- <-]; try (now left);
      right; exists (local_name arg), v; auto.
Qed.

(** What one fill does to the namespace: nothing, or one attribute set
    under the local name. *)
Lemma fill_namespace_attr ns arg c missing ns' c' missing' :
  fill ns arg c missing = Ok (ns', c', missing') ->
  ns' = ns \/ exists r, ns' = OD.set (local_name arg) r ns.
Proof.
  destruct (subfields arg) as [| s0 subs] eqn:Es.
  - rewrite fill_namespace_leaf by assumption.
    destruct c; try discriminate.
    + intros [= <- <- <-]. now left.
    + destruct (case_insensitive_name_match _ d) as [km |].
      * destruct (py_pop (VDict d) km) as [[v c1] |]; simpl; [| discriminate].
        destruct (ConstructorSchema.cast arg v) as [r |]; [| discriminate].
        intros [= <- <- <-]. right. eauto.
      * destruct (required arg); intros [= <- <- <-]; now left.
  - rewrite fill_namespace_container by congruence.
    destruct (py_pop_default c (local_name arg)) as [[sc c1] |]; simpl; [| discriminate].
    destruct (fill_all _ _ _ _) as [[[subns sc'] m1] | ex]; simpl; [| discriminate].
    destruct subns as [| p subns].
    + intros [= <- <- <-]. now left.
    + destruct (ConstructorSchema.cast arg _) as [r |]; [| discriminate].
      intros [= <- <- <-]. right. eauto.
Qed.

Lemma fill_all_leaves_None l ns missing :
  Forall (fun p : string * Argument => subfields (snd p) = []) l ->
  fill_all l ns VNone missing = Ok (ns, VNone, missing).
Proof.
  induction 1 as [| [k a] l Ha _ IH]; [reflexivity |].
  rewrite fill_children_cons, fill_leaf_None by exact Ha. exact IH.
Qed.

(** X5.  A fill ends in no other exception than a [ConfigurationError], an
    [AttributeError] or a [TypeError], whatever the document is; the
    [KeyError] of [config.pop] does not occur. *)
Theorem fill_error_classes :
  forall arg ns config missing e,
    fill ns arg config missing = Raise e ->
    fill_error_class (exn_class_of e) = true.
Proof.
  induction arg as [a IH] using Argument_tree_ind. intros ns c m e.
  destruct (subfields a) as [| s0 subs] eqn:Es.
  - rewrite fill_namespace_leaf by assumption.
    destruct c; try (intros [= <-]; reflexivity); try discriminate.
    rewrite ODFacts.name_match_find.
    destruct (ci_find (local_name a) d) as [km |] eqn:Ef.
    + destruct (ci_find_get _ _ _ Ef) as (v & Eg). unfold py_pop. rewrite Eg. simpl.
      destruct (ConstructorSchema.cast a v); [discriminate |].
      intros [= <-]. reflexivity.
    + destruct (required a); discriminate.
  - rewrite fill_namespace_container by congruence. rewrite <- Es in IH.
    assert (Hall : forall l, Forall (fun p => forall ns c m e,
                       fill ns (snd p) c m = Raise e ->
                       fill_error_class (exn_class_of e) = true) l ->
                   forall ns c m e, fill_all l ns c m = Raise e ->
                                    fill_error_class (exn_class_of e) = true).
    { induction 1 as [| [k0 a0] l Ha _ IHl]; intros ns0 c0 m0 e0; [discriminate |].
      rewrite fill_children_cons.
      destruct (fill ns0 a0 c0 m0) as [[[ns1 c1] m1] | ex] eqn:E1; simpl.
      - apply IHl.
      - intros [= <-]. eapply Ha. exact E1. }
    destruct (py_pop_default c (local_name a)) as [[sc c1] | ex] eqn:Ep; simpl.
    + destruct (fill_all (subfields a) [] sc m) as [[[subns sc'] m1] | ex] eqn:E; simpl.
      * destruct subns as [| p subns]; [discriminate |].
        destruct (ConstructorSchema.cast a _); [discriminate |].
        intros [= <-]. reflexivity.
      * intros [= <-]. eapply Hall; eassumption.
    + intros [= <-]. destruct c; simpl in Ep;
        try (injection Ep as <-; reflexivity).
      destruct (OD.get (local_name a) d); discriminate.
Qed.

(** X6.  A container whose local name is not a key of the document and
    whose children are all leaves: the fill changes nothing; no attribute is
    set and no child is recorded as missing, required or not. *)
Theorem fill_absent_container_of_leaves :
  forall ns arg d missing,
    subfields arg <> [] ->
    OD.get (local_name arg) d = None ->
    Forall (fun p => subfields (snd p) = []) (subfields arg) ->
    fill ns arg (VDict d) missing = Ok (ns, VDict d, missing).
Proof.
  intros ns arg d missing Hs Hget Hleaves.
  rewrite fill_namespace_container by assumption.
  unfold py_pop_default. rewrite Hget. simpl.
  rewrite fill_all_leaves_None by assumption. reflexivity.
Qed.

(** X7.  A fill sets at most the attribute under the local name of its
    entry: every other attribute of the namespace is as before. *)
Theorem fill_sets_only_local_name :
  forall ns arg config missing ns' config' missing',
    fill ns arg config missing = Ok (ns', config', missing') ->
    (ns' = ns \/ exists r, ns' = OD.set (local_name arg) r ns)
    /\ forall k, k <> local_name arg -> OD.get k ns' = OD.get k ns.
Proof.
  intros ns arg c m ns' c' m' H.
  pose proof (fill_namespace_attr _ _ _ _ _ _ _ H) as Hs.
  split; [exact Hs |]. intros k N.
  destruct Hs as [-> | (r & ->)]; [reflexivity |].
  rewrite ODFacts.get_set. destruct (String.eqb_spec k (local_name arg)); congruence.
Qed.

(** X8.  What a fill appends to [missing] are dotted names of required
    leaves at or below its entry, and it removes nothing from the list. *)
Theorem fill_records_required_leaves :
  forall arg ns config missing ns' config' missing',
    fill ns arg config missing = Ok (ns', config', missing') ->
    exists added,
      missing' = (missing ++ added)%list /\ Forall (required_leaf_of arg) added.
Proof.
  induction arg as [a IH] using Argument_tree_ind. intros ns c m ns' c' m'.
  destruct (subfields a) as [| s0 subs] eqn:Es.
  - rewrite fill_namespace_leaf by assumption.
    assert (Hnone : exists added, m = (m ++ added)%list /\ Forall (required_leaf_of a) added)
      by (exists []; rewrite app_nil_r; split; [reflexivity | constructor]).
    destruct c; try discriminate.
    + intros [= <- <- <-]. exact Hnone.
    + destruct (case_insensitive_name_match _ d) as [km |].
      * destruct (py_pop (VDict d) km) as [[v c1] |]; simpl; [| discriminate].
        destruct (ConstructorSchema.cast a v); [| discriminate].
        intros [= <- <- <-]. exact Hnone.
      * destruct (required a) eqn:Er; intros [= <- <- <-]; [| exact Hnone].
        exists [name a]. split; [reflexivity |].
        constructor; [now apply RL_leaf | constructor].
  - rewrite fill_namespace_container by congruence. rewrite <- Es in IH.
    assert (Hall : forall l,
               Forall (fun p => forall ns c m ns' c' m',
                           fill ns (snd p) c m = Ok (ns', c', m') ->
                           exists added, m' = (m ++ added)%list
                                         /\ Forall (required_leaf_of (snd p)) added) l ->
               (forall p, In p l -> In p (subfields a)) ->
               forall ns c m ns' c' m',
                 fill_all l ns c m = Ok (ns', c', m') ->
                 exists added, m' = (m ++ added)%list /\ Forall (required_leaf_of a) added).
    { induction 1 as [| [k0 a0] l Ha _ IHl]; intros Hin ns0 c0 m0 ns1 c1 m1.
      - intros [= <- <- <-]. exists []. rewrite app_nil_r. split; [reflexivity | constructor].
      - rewrite fill_children_cons.
        destruct (fill ns0 a0 c0 m0) as [[[ns2 c2] m2] | ex] eqn:E1; simpl; [| discriminate].
        intros H. destruct (Ha _ _ _ _ _ _ E1) as (add1 & -> & F1).
        destruct (IHl (fun p Hp => Hin p (or_intror Hp)) _ _ _ _ _ _ H) as (add2 & -> & F2).
        exists (add1 ++ add2)%list. rewrite app_assoc. split; [reflexivity |].
        apply Forall_app. split; [| exact F2].
        eapply Forall_impl; [| exact F1]. intros n Hn.
        eapply RL_sub; [apply (Hin (k0, a0)); now left | exact Hn]. }
    destruct (py_pop_default c (local_name a)) as [[sc c1] |]; simpl; [| discriminate].
    destruct (fill_all (subfields a) [] sc m) as [[[subns sc'] m1] | ex] eqn:E;
      simpl; [| discriminate].
    destruct (Hall _ IH (fun p Hp => Hp) _ _ _ _ _ _ E) as (added & -> & F).
    destruct subns as [| p subns];
      [| destruct (ConstructorSchema.cast a _); [| discriminate]];
      intros [= <- <- <-]; eauto.
Qed.

(** X9.  What a fill leaves of a mapping is the mapping itself or the
    mapping without one entry, whose key equals the local name of the entry
    up to case; every other entry stays, in its place and with its value. *)
Theorem fill_takes_at_most_one_key :
  forall ns arg d missing ns' config' missing',
    fill ns arg (VDict d) missing = Ok (ns', config', missing') ->
    config' = VDict d
    \/ exists k v, OD.get k d = Some v
                   /\ str_lower k = str_lower (local_name arg)
                   /\ config' = VDict (OD.remove k d).
Proof.
  intros ns arg d missing ns' c' m'. apply fill_residual.
Qed.

End FillerMore.

(** ** The orchestrator, further *)

Section ReadMore.

Context {L : Lowercase}.

Variable format_exc : exn -> string.
Variable ordered_load : string -> res value.
Variable load : value -> res unit.
Variable cosmology : Type.
Variable Cosmology : list (string * value) -> res cosmology.
Variable set_nbkit_cosmo : cosmology -> res unit.

Local Abbreviation fill := (fill_namespace format_exc).
Local Abbreviation fill_all := (fill_children format_exc).
Local Abbreviation read :=
  (ReadConfigFile format_exc ordered_load load cosmology Cosmology set_nbkit_cosmo).
Local Abbreviation plugins := (load_plugins load).
Local Abbreviation cosmo := (load_cosmo cosmology Cosmology set_nbkit_cosmo).

Lemma fill_all_keeps_attr l :
  forall ns c m ns' c' m' k,
    fill_all l ns c m = Ok (ns', c', m') ->
    (forall p, In p l -> local_name (snd p) <> k) ->
    OD.get k ns' = OD.get k ns.
Proof.
  induction l as [| [k0 a0] l IH]; intros ns c m ns' c' m' k.
  - intros [= <- <- <-] _. reflexivity.
  - rewrite fill_children_cons.
    destruct (fill ns a0 c m) as [[[ns1 c1] m1] | ex] eqn:E1; simpl; [| discriminate].
    intros H Hne. rewrite (IH _ _ _ _ _ _ _ H (fun p Hp => Hne p (or_intror Hp))).
    destruct (fill_namespace_attr _ _ _ _ _ _ _ _ E1) as [-> | (r & ->)]; [reflexivity |].
    rewrite ODFacts.get_set.
    destruct (String.eqb_spec k (local_name a0)) as [-> | N]; [| reflexivity].
    exfalso. apply (Hne (k0, a0)); [now left | reflexivity].
Qed.

Lemma fill_all_attr_declared l :
  forall ns c m ns' c' m' k,
    fill_all l ns c m = Ok (ns', c', m') ->
    OD.get k ns' <> None ->
    OD.get k ns <> None \/ exists p, In p l /\ local_name (snd p) = k.
Proof.
  induction l as [| [k0 a0] l IH]; intros ns c m ns' c' m' k.
  - intros [= <- <- <-] H. now left.
  - rewrite fill_children_cons.
    destruct (fill ns a0 c m) as [[[ns1 c1] m1] | ex] eqn:E1; simpl; [| discriminate].
    intros H Hk. destruct (IH _ _ _ _ _ _ _ H Hk) as [H1 | (p & Hp & E)].
    + destruct (fill_namespace_attr _ _ _ _ _ _ _ _ E1) as [-> | (r & ->)]; [now left |].
      rewrite ODFacts.get_set in H1.
      destruct (String.eqb_spec k (local_name a0)) as [-> | N]; [| now left].
      right. exists (k0, a0). split; [now left | reflexivity].
    + right. exists p. split; [now right | exact E].
Qed.

(** The value a top-level leaf resolves to, in the loop over the schema. *)
Lemma fill_all_leaf_value l :
  forall ns d m ns' c' m' k a km v,
    fill_all l ns (VDict d) m = Ok (ns', c', m') ->
    distinctb (lowered_names l) = true ->
    In (k, a) l -> subfields a = [] ->
    ci_find (local_name a) d = Some km -> OD.get km d = Some v ->
    exists r, ConstructorSchema.cast a v = Ok r /\ OD.get (local_name a) ns' = Some r.
Proof.
  induction l as [| [k0 a0] l IH]; intros ns d m ns' c' m' k a km v; [intros _ _ [] |].
  rewrite fill_children_cons.
  destruct (fill ns a0 (VDict d) m) as [[[ns1 c1] m1] | ex] eqn:E1; simpl; [| discriminate].
  intros Hrest Hd [E | Hin] Hs Hf Hg.
  - injection E as <- <-.
    rewrite fill_namespace_leaf in E1 by assumption.
    rewrite ODFacts.name_match_find, Hf in E1. unfold py_pop in E1. rewrite Hg in E1.
    simpl in E1. destruct (ConstructorSchema.cast a0 v) as [r |]; [| discriminate].
    injection E1 as <- <- <-. exists r. split; [reflexivity |].
    rewrite (fill_all_keeps_attr _ _ _ _ _ _ _ (local_name a0) Hrest).
    + rewrite ODFacts.get_set, String.eqb_refl. reflexivity.
    + intros p Hp E.
      apply (distinctb_cons_inv _ _ (str_lower (local_name (snd p))) Hd).
      * unfold lowered_names. apply in_map_iff. exists p. auto.
      * rewrite E. reflexivity.
  - assert (N : str_lower (local_name a0) <> str_lower (local_name a)).
    { eapply distinctb_cons_inv; [exact Hd |].
      unfold lowered_names. apply in_map_iff. exists (k, a). auto. }
    simpl in Hd. apply andb_prop in Hd as [_ Hd].
    destruct (ODFacts.ci_find_Some _ _ _ Hf) as [El _].
    destruct (fill_residual _ _ _ _ _ _ _ _ E1) as [-> | (k1 & v1 & _ & El1 & ->)].
    + eapply IH; eassumption.
    + eapply IH; try eassumption.
      * rewrite ci_find_remove_other; [exact Hf | congruence].
      * rewrite ODFacts.get_remove_ne; [exact Hg | congruence].
Qed.

Lemma pre_steps_identity d :
  OD.get "X" d = None -> OD.get "cosmo" d = None ->
  plugins (VDict d) = Ok (VDict d) /\ cosmo (VDict d) = Ok (VDict d).
Proof.
  intros HX HC. rewrite load_plugins_dict, load_cosmo_dict, HX, HC. auto.
Qed.

(** X10.  A read that returns: a top-level leaf of a schema whose top-level
    names are distinct up to case, and a document without reserved keys whose
    first key equal to the leaf's local name up to case holds [v].  Then the
    cast of [v] returned, and its result is the attribute of the namespace
    under the name the schema declares. *)
Theorem read_resolves_leaf_to_cast_value :
  forall stream schema d ns unknown k a km v,
    ordered_load stream = Ok (VDict d) ->
    OD.get "X" d = None -> OD.get "cosmo" d = None ->
    distinctb (lowered_names schema) = true ->
    In (k, a) schema -> subfields a = [] ->
    case_insensitive_name_match (local_name a) d = Some km ->
    OD.get km d = Some v ->
    read stream schema = Ok (ns, unknown) ->
    exists r, ConstructorSchema.cast a v = Ok r /\ OD.get (local_name a) ns = Some r.
Proof.
  intros stream schema d ns unknown k a km v Hd HX HC Hdist Hin Hs Hm Hg.
  rewrite ODFacts.name_match_find in Hm.
  destruct (pre_steps_identity d HX HC) as [Hp Hc].
  unfold ReadConfigFile. rewrite (load_config_dict _ _ _ Hd). simpl bind.
  rewrite Hp. simpl bind. rewrite Hc. simpl bind.
  destruct (fill_all schema [] (VDict d) []) as [[[ns1 c1] m1] | ex] eqn:E; simpl;
    [| discriminate].
  destruct (store_unknown c1); simpl; [| discriminate].
  destruct m1; [| discriminate]. intros [= <- <-].
  eapply fill_all_leaf_value; eassumption.
Qed.

(** X11.  Every attribute of the namespace a read returns is the local name
    of a top-level entry of the schema, spelled as the schema declares it. *)
Theorem read_namespace_holds_declared_names :
  forall stream schema ns unknown k,
    read stream schema = Ok (ns, unknown) ->
    In k (OD.keys ns) ->
    exists p, In p schema /\ local_name (snd p) = k.
Proof.
  intros stream schema ns unknown k. unfold ReadConfigFile.
  destruct (load_config ordered_load stream) as [c0 |]; simpl; [| discriminate].
  destruct (plugins c0) as [c1 |]; simpl; [| discriminate].
  destruct (cosmo c1) as [c2 |]; simpl; [| discriminate].
  destruct (py_copy c2) as [c3 |]; simpl; [| discriminate].
  destruct (fill_all schema [] c3 []) as [[[ns1 c4] m1] | ex] eqn:E; simpl;
    [| discriminate].
  destruct (store_unknown c4); simpl; [| discriminate].
  destruct m1; [| discriminate]. intros [= <- <-] Hk.
  apply ODFacts.get_In in Hk.
  destruct (fill_all_attr_declared _ _ _ _ _ _ _ _ E Hk) as [H | H]; [| exact H].
  exfalso. apply H. reflexivity.
Qed.

(** X12.  A loader that yields a bare string or [None] makes the read raise
    the [EmptyConfigurationError] as it is; a loader that raises any other
    exception makes it raise a [ConfigurationError] that quotes the
    loader's message; and the schema plays no part in either. *)
Theorem read_empty_or_unparsable :
  forall stream schema,
    ((exists s, ordered_load stream = Ok (VStr s)) \/ ordered_load stream = Ok VNone ->
     read stream schema = Raise (mkExn EmptyConfigurationError "no valid keys found"))
    /\ (forall e, ordered_load stream = Raise e ->
                  exn_class_of e <> EmptyConfigurationError ->
                  read stream schema
                  = Raise (mkExn ConfigurationError
                             ("error parsing YAML file: " ++ exn_str e))).
Proof.
  intros stream schema. unfold ReadConfigFile, load_config. split.
  - intros [[s ->] | ->]; reflexivity.
  - intros e -> Hc. destruct e as [cls msg]. simpl in *.
    destruct cls; try reflexivity. congruence.
Qed.

Lemma keys_not_In_get {V} k (d : list (string * V)) :
  OD.get k d = None -> ~ In k (OD.keys d).
Proof. intros H Hin. apply ODFacts.get_In in Hin. congruence. Qed.

Lemma get_remove_same_NoDup {V} k (d : list (string * V)) :
  NoDup (OD.keys d) -> OD.get k (OD.remove k d) = None.
Proof.
  induction d as [| [x v] d IH]; simpl; [reflexivity |].
  intros Hnd. inversion Hnd as [| ? ? Hx Hnd']; subst.
  destruct (String.eqb_spec k x) as [-> | N].
  - apply ODFacts.get_not_In. exact Hx.
  - simpl. destruct (String.eqb_spec k x); [contradiction |]. now apply IH.
Qed.

Lemma get_None_incl {V} k (d e : list (string * V)) :
  incl (OD.keys e) (OD.keys d) -> OD.get k d = None -> OD.get k e = None.
Proof.
  intros Hi H. apply ODFacts.get_not_In. intros Hin.
  apply (keys_not_In_get _ _ H). apply Hi. exact Hin.
Qed.

Lemma keys_remove_NoDup {V} k (d : list (string * V)) :
  NoDup (OD.keys d) -> NoDup (OD.keys (OD.remove k d)).
Proof.
  induction d as [| [x v] d IH]; simpl; [constructor |].
  intros Hnd. inversion Hnd as [| ? ? Hx Hnd']; subst.
  destruct (String.eqb k x); [assumption |]. simpl. constructor; [| now apply IH].
  intros Hin. apply Hx. eapply ODFacts.keys_remove_incl. exact Hin.
Qed.

(** X13.  The reserved keys [X] and [cosmo] of a document (a mapping, one
    entry per key, that does not use the key [__dict__] to replace the
    attributes of [unknown]) never reach the [unknown] output of a read that
    returns, whatever the schema declares. *)
Theorem reserved_keys_never_unknown :
  forall stream schema d ns unknown,
    ordered_load stream = Ok (VDict d) ->
    NoDup (OD.keys d) ->
    OD.get "__dict__" d = None ->
    read stream schema = Ok (ns, unknown) ->
    OD.get "X" unknown = None /\ OD.get "cosmo" unknown = None.
Proof.
  intros stream schema d ns unknown Hd Hnd Hdict.
  unfold ReadConfigFile. rewrite (load_config_dict _ _ _ Hd). simpl bind.
  rewrite load_plugins_dict.
  assert (H1 : forall c1, match OD.get "X" d with
                          | Some p =>
                              l <- py_iter (match p with VStr _ => VList [p] | _ => p end) ;;
                              _ <- mapM load l ;; Ok (VDict (OD.remove "X" d))
                          | None => Ok (VDict d)
                          end = Ok c1 ->
               exists d1, c1 = VDict d1 /\ OD.get "X" d1 = None /\ NoDup (OD.keys d1)
                          /\ OD.get "__dict__" d1 = None).
  { intros c1. destruct (OD.get "X" d) as [p |] eqn:EX.
    - destruct (py_iter _) as [l |]; simpl; [| discriminate].
      destruct (mapM load l); simpl; [| discriminate].
      intros [= <-]. eexists. split; [reflexivity |].
      split; [now apply get_remove_same_NoDup |].
      split; [now apply keys_remove_NoDup |].
      rewrite ODFacts.get_remove_ne by discriminate. exact Hdict.
    - intros [= <-]. eauto. }
  match goal with
  | |- context [bind ?m _] => destruct m as [c1 |] eqn:E1; simpl; [| discriminate]
  end.
  destruct (H1 _ eq_refl) as (d1 & -> & HX & Hnd1 & Hdict1).
  rewrite load_cosmo_dict.
  assert (H2 : forall c2, match OD.get "cosmo" d1 with
                          | Some (VDict kw) =>
                              c <- Cosmology kw ;; _ <- set_nbkit_cosmo c ;;
                              Ok (VDict (OD.remove "cosmo" d1))
                          | Some kw =>
                              Raise (mkExn TypeError
                                       ("type object argument after ** must be a mapping, not "
                                        ++ type_name kw))
                          | None => Ok (VDict d1)
                          end = Ok c2 ->
               exists d2, c2 = VDict d2 /\ OD.get "X" d2 = None
                          /\ OD.get "cosmo" d2 = None
                          /\ OD.get "__dict__" d2 = None).
  { intros c2. destruct (OD.get "cosmo" d1) as [[] |] eqn:EC; try discriminate.
    - destruct (Cosmology _) as [c0 |]; simpl; [| discriminate].
      destruct (set_nbkit_cosmo c0); simpl; [| discriminate].
      intros [= <-]. eexists. split; [reflexivity |]. split; [| split].
      + eapply get_None_incl; [| exact HX]. intros x. apply ODFacts.keys_remove_incl.
      + now apply get_remove_same_NoDup.
      + rewrite ODFacts.get_remove_ne by discriminate. exact Hdict1.
    - intros [= <-]. eauto. }
  match goal with
  | |- context [bind ?m _] => destruct m as [c2 |] eqn:E2; simpl; [| discriminate]
  end.
  destruct (H2 _ eq_refl) as (d2 & -> & HX2 & HC2 & Hdict2). cbn [py_copy bind].
  destruct (fill_all schema [] (VDict d2) []) as [[[ns1 c3] m1] | ex] eqn:E;
    cbn [bind]; [| discriminate].
  destruct (fill_all_dict_result _ _ _ _ _ _ _ _ E) as (e3 & -> & Hi).
  destruct (store_unknown (VDict e3)) as [u |] eqn:Eu; cbn [bind]; [| discriminate].
  destruct m1; [| discriminate]. intros [= <- <-].
  assert (Hdict3 : OD.get "__dict__" e3 = None)
    by (eapply get_None_incl; eassumption).
  rewrite !(UnknownFacts.store_unknown_get _ _ _ Hdict3 Eu).
  split; eapply get_None_incl; eassumption.
Qed.

End ReadMore.

(** ** Declaring arguments, further *)

Module AddMore.
Import ConstructorSchema.

Lemma split_on_nonempty sep s : PyStr.split_on sep s <> [].
Proof.
  destruct s as [| c r]; simpl; [discriminate |].
  destruct (Ascii.eqb c sep); [discriminate |].
  destruct (PyStr.split_on sep r); discriminate.
Qed.

Lemma keys_in_subfields k f obj : OD.keys (in_subfields k f obj) = OD.keys obj.
Proof.
  induction obj as [| [x a] obj IH]; simpl; [reflexivity |].
  destruct (String.eqb k x); simpl; [reflexivity | rewrite IH; reflexivity].
Qed.

Lemma get_in_subfields_ne k k' f obj :
  k <> k' -> OD.get k (in_subfields k' f obj) = OD.get k obj.
Proof.
  intros N. induction obj as [| [x a] obj IH]; simpl; [reflexivity |].
  destruct (String.eqb_spec k' x) as [-> | N']; simpl.
  - destruct (String.eqb_spec k x); [contradiction | reflexivity].
  - rewrite IH. reflexivity.
Qed.

Lemma keys_set_list {V} k (v : V) d :
  OD.keys (OD.set k v d) = if OD.mem k d then OD.keys d else (OD.keys d ++ [k])%list.
Proof.
  unfold OD.mem. induction d as [| [x w] d IH]; simpl; [reflexivity |].
  destruct (String.eqb_spec k x) as [-> | N]; simpl; [reflexivity |].
  rewrite IH. destruct (OD.get k d); reflexivity.
Qed.

Lemma mem_set_same {V} k (v : V) d : OD.mem k (OD.set k v d) = true.
Proof. unfold OD.mem. rewrite ODFacts.get_set, String.eqb_refl. reflexivity. Qed.

(** The top level after the walk that creates the parents and a change at
    the end of the path. *)
Lemma declare_top req k rest f obj :
  let result := at_path (k :: rest) f (create_parents req [] (k :: rest) obj) in
  OD.keys result = (if OD.mem k obj then OD.keys obj else (OD.keys obj ++ [k])%list)
  /\ forall x, x <> k -> OD.get x result = OD.get x obj.
Proof.
  intros result. subst result. rewrite AddFacts.declare_cons. split.
  - rewrite keys_in_subfields. destruct (OD.mem k obj) eqn:E; [reflexivity |].
    rewrite keys_set_list, E. reflexivity.
  - intros x N. rewrite get_in_subfields_ne by assumption.
    destruct (OD.mem k obj); [reflexivity |].
    rewrite ODFacts.get_set. destruct (String.eqb_spec x k); [contradiction | reflexivity].
Qed.

Lemma contains_top self nm k :
  PyStr.split_on "."%char nm = [k] -> contains self nm = Ok (OD.mem k self).
Proof. intros H. unfold contains. rewrite H. reflexivity. Qed.

Lemma contains_two self nm k1 k2 :
  PyStr.split_on "."%char nm = [k1; k2] ->
  contains self nm
  = match OD.get k1 self with
    | Some a => Ok (OD.mem k2 (subfields a))
    | None => Raise (mkExn KeyError k1)
    end.
Proof.
  intros H. unfold contains. rewrite H. simpl.
  destruct (OD.get k1 self); reflexivity.
Qed.

End AddMore.

(** X14.  For a name of one or two segments [contains] answers whether the
    sequential lookup finds an entry, except that it raises the [KeyError]
    of the first segment, instead of answering [False], when the schema has
    no entry under the first of two segments. *)
Theorem contains_up_to_two_segments :
  forall self nm,
    (forall k, PyStr.split_on "."%char nm = [k] ->
               exists b, ConstructorSchema.contains self nm = Ok b
                         /\ (b = true <-> ConstructorSchema.lookup [k] self <> None))
    /\ (forall k1 k2, PyStr.split_on "."%char nm = [k1; k2] ->
          (OD.get k1 self = None ->
           ConstructorSchema.contains self nm = Raise (mkExn KeyError k1))
          /\ (OD.get k1 self <> None ->
              exists b, ConstructorSchema.contains self nm = Ok b
                        /\ (b = true
                            <-> ConstructorSchema.lookup [k1; k2] self <> None))).
Proof.
  intros self nm. split.
  - intros k H. rewrite (AddMore.contains_top _ _ _ H). eexists. split; [reflexivity |].
    simpl. unfold OD.mem. destruct (OD.get k self); split; congruence.
  - intros k1 k2 H. rewrite (AddMore.contains_two _ _ _ _ H). simpl.
    destruct (OD.get k1 self) as [a |]; split; try congruence.
    intros _. eexists. split; [reflexivity |].
    unfold OD.mem. destruct (OD.get k2 (subfields a)); split; congruence.
Qed.

(** X15.  A name of two segments: the call returns, and the sequential
    lookup right after it finds an Argument with the declared [required],
    [type], [default], [choices], [nargs] and [help]; a leaf that was there
    keeps its name and its subfields, a new one has the declared name and no
    subfields. *)
Theorem add_argument_round_trip_nested :
  forall self nm k1 k2 ty dflt ch na hlp req,
    PyStr.split_on "."%char nm = [k1; k2] ->
    let result := ConstructorSchema.add_argument self nm ty dflt ch na hlp req in
    snd result = Ok tt
    /\ exists a,
        ConstructorSchema.lookup [k1; k2] (fst result) = Some a
        /\ required a = req /\ type a = ty /\ default a = dflt
        /\ choices a = ch /\ nargs a = na /\ help a = hlp
        /\ match ConstructorSchema.lookup [k1; k2] self with
           | Some old => name a = name old /\ subfields a = subfields old
           | None => name a = nm /\ subfields a = []
           end.
Proof.
  intros self nm k1 k2 ty dflt ch na hlp req Hsplit result. subst result.
  unfold ConstructorSchema.add_argument. rewrite Hsplit.
  change (removelast [k1; k2]) with [k1]. change (last [k1; k2] EmptyString) with k2.
  set (self1 := ConstructorSchema.create_parents req [] [k1] self).
  rewrite (AddMore.contains_two _ _ _ _ Hsplit).
  assert (Hself1 : exists p,
             OD.get k1 self1 = Some p
             /\ match OD.get k1 self with
                | Some p0 => subfields p = subfields p0
                | None => subfields p = []
                end).
  { subst self1. simpl. rewrite AddFacts.get_in_subfields.
    unfold OD.mem. destruct (OD.get k1 self) as [p0 |] eqn:E0.
    - rewrite E0. simpl. eexists. split; [reflexivity | reflexivity].
    - rewrite ODFacts.get_set, String.eqb_refl. simpl. eexists.
      split; [reflexivity | reflexivity]. }
  destruct Hself1 as (p & Hp & Hsub). rewrite Hp.
  assert (Hold : ConstructorSchema.lookup [k1; k2] self = OD.get k2 (subfields p)).
  { simpl. destruct (OD.get k1 self) as [p0 |]; [rewrite Hsub; reflexivity |].
    rewrite Hsub. reflexivity. }
  rewrite Hold.
  assert (Hlook : forall x,
             ConstructorSchema.lookup [k1; k2]
               (ConstructorSchema.at_path [k1] (OD.set k2 x) self1) = Some x).
  { intros x. simpl. rewrite AddFacts.get_in_subfields, Hp. simpl.
    rewrite ODFacts.get_set, String.eqb_refl. reflexivity. }
  unfold OD.mem. simpl ConstructorSchema.descend. rewrite Hp.
  destruct (OD.get k2 (subfields p)) as [old |] eqn:Eold.
  - cbn [fst snd]. split; [reflexivity |]. rewrite Hlook. eexists.
    split; [reflexivity |]. simpl. repeat split.
  - cbn [fst snd]. split; [reflexivity |]. rewrite Hlook. eexists.
    split; [reflexivity |]. simpl. repeat split.
Qed.

(** X16.  Whatever the name and however the call ends, [add_argument] keeps
    the declaration order of the top level: the keys that were there stay in
    their order, the first segment of the name is appended when it is new,
    and every entry under another key is left as it was. *)
Theorem add_argument_keeps_declaration_order :
  forall self nm ty dflt ch na hlp req,
    let first := hd EmptyString (PyStr.split_on "."%char nm) in
    let result := ConstructorSchema.add_argument self nm ty dflt ch na hlp req in
    OD.keys (fst result)
    = (if OD.mem first self then OD.keys self else (OD.keys self ++ [first])%list)
    /\ forall k, k <> first -> OD.get k (fst result) = OD.get k self.
Proof.
  intros self nm ty dflt ch na hlp req first result. subst first result.
  unfold ConstructorSchema.add_argument.
  destruct (PyStr.split_on "."%char nm) as [| x [| y l]] eqn:Hsplit.
  - exfalso. exact (AddMore.split_on_nonempty _ _ Hsplit).
  - rewrite (AddMore.contains_top _ _ _ Hsplit). simpl.
    assert (Hset : forall v,
               OD.keys (OD.set x v self)
               = (if OD.mem x self then OD.keys self else (OD.keys self ++ [x])%list)
               /\ forall k, k <> x -> OD.get k (OD.set x v self) = OD.get k self).
    { intros v. split; [apply AddMore.keys_set_list |].
      intros k N. rewrite ODFacts.get_set.
      destruct (String.eqb_spec k x); [contradiction | reflexivity]. }
    unfold OD.mem in *. destruct (OD.get x self) as [old |] eqn:E; simpl; apply Hset.
  - set (prefix := removelast (x :: y :: l)).
    assert (Hp : prefix = x :: removelast (y :: l)) by reflexivity.
    simpl hd.
    assert (Hbase : OD.keys (ConstructorSchema.create_parents req [] prefix self)
                    = (if OD.mem x self then OD.keys self else (OD.keys self ++ [x])%list)
                    /\ forall k, k <> x ->
                         OD.get k (ConstructorSchema.create_parents req [] prefix self)
                         = OD.get k self).
    { rewrite <- (AddFacts.at_path_id prefix
                    (ConstructorSchema.create_parents req [] prefix self)).
      rewrite Hp. apply AddMore.declare_top. }
    assert (Hchange : forall f,
               OD.keys (ConstructorSchema.at_path prefix f
                          (ConstructorSchema.create_parents req [] prefix self))
               = (if OD.mem x self then OD.keys self else (OD.keys self ++ [x])%list)
               /\ forall k, k <> x ->
                    OD.get k (ConstructorSchema.at_path prefix f
                                (ConstructorSchema.create_parents req [] prefix self))
                    = OD.get k self).
    { intros f. rewrite Hp. apply AddMore.declare_top. }
    match goal with
    | |- context [ConstructorSchema.contains ?s nm] =>
        destruct (ConstructorSchema.contains s nm) as [[|] | e]
    end.
    + match goal with
      | |- context [ConstructorSchema.descend ?q ?s] =>
          destruct (ConstructorSchema.descend q s) as [obj |]; [| exact Hbase]
      end.
      match goal with
      | |- context [OD.get ?q obj] =>
          destruct (OD.get q obj) as [old |]; [apply Hchange | exact Hbase]
      end.
    + apply Hchange.
    + exact Hbase.
Qed.

(** ** Reconciliation with the signature, further *)

Module UpdateMore.

Lemma get_map_values (f : Argument -> Argument) k (s : schema_t) :
  OD.get k (map (fun p => (fst p, f (snd p))) s) = option_map f (OD.get k s).
Proof.
  induction s as [| [x a] s IH]; simpl; [reflexivity |].
  destruct (String.eqb k x); [reflexivity | exact IH].
Qed.

Lemma In_remove_first x n l :
  In x l -> x = n \/ In x (remove_first n l).
Proof.
  induction l as [| y l IH]; simpl; [tauto |].
  destruct (String.eqb_spec n y) as [-> | N].
  - intros [-> | H]; auto.
  - intros [-> | H]; [right; now left |].
    destruct (IH H); [auto | right; now right].
Qed.

Lemma check_fold args al l :
  forall extra missing extra' missing',
    fold_left (check_entry args al) l (extra, missing) = (extra', missing') ->
    (extra' = [] ->
     extra = [] /\ forall a, In a l -> In (name a) args \/ In (name a) al)
    /\ (forall x, In x missing -> In x missing' \/ exists a, In a l /\ name a = x).
Proof.
  induction l as [| a0 l IH]; intros extra missing extra' missing'; simpl.
  - intros [= <- <-]. split; [intros ->; split; [reflexivity | intros a []] | auto].
  - destruct (andb (negb (mem_str (name a0) args)) (negb (mem_str (name a0) al))) eqn:Eb.
    + intros H. destruct (IH _ _ _ _ H) as [H1 H2]. split.
      * intros E. destruct (H1 E) as [Hx _]. destruct extra; discriminate.
      * intros x Hx. destruct (H2 x Hx) as [? | (a & Ha & En)]; [now left |].
        right. exists a. auto.
    + assert (Hin : In (name a0) args \/ In (name a0) al).
      { apply andb_false_iff in Eb as [Eb | Eb]; apply negb_false_iff in Eb;
          apply mem_str_In in Eb; auto. }
      destruct (mem_str (name a0) missing) eqn:Em; intros H;
        destruct (IH _ _ _ _ H) as [H1 H2]; split.
      * intros E. destruct (H1 E) as [-> Hall]. split; [reflexivity |].
        intros a [<- | Ha]; auto.
      * intros x Hx. destruct (In_remove_first x (name a0) missing Hx) as [-> | Hx'].
        -- right. exists a0. auto.
        -- destruct (H2 x Hx') as [? | (a & Ha & En)]; [now left |].
           right. exists a. auto.
      * intros E. destruct (H1 E) as [-> Hall]. split; [reflexivity |].
        intros a [<- | Ha]; auto.
      * intros x Hx. destruct (H2 x Hx) as [? | (a & Ha & En)]; [now left |].
        right. exists a. auto.
Qed.

Lemma signature_names_cover attrs ds args required default_names :
  signature_names attrs ds = (args, required, default_names) ->
  args = tl attrs
  /\ forall x, In x args -> In x (default_names ++ required)%list.
Proof.
  unfold signature_names. destruct ds as [[| d ds] |]; intros [= <- <- <-];
    (split; [reflexivity |]); intros x Hx; try assumption.
  apply in_or_app. rewrite <- (firstn_skipn (List.length (tl attrs) - List.length (d :: ds)) (tl attrs)) in Hx.
  apply in_app_or in Hx. destruct Hx as [Hx | Hx]; [right | left]; exact Hx.
Qed.

Section Keys.
Context {V : Type}.
Implicit Types (d acc : list (string * V)).

Lemma mem_keys k d : OD.mem k d = mem_str k (OD.keys d).
Proof.
  unfold OD.mem. induction d as [| [x v] d IH]; simpl; [reflexivity |].
  destruct (String.eqb k x); [reflexivity | exact IH].
Qed.

Lemma keys_copy_keys d l acc :
  OD.keys (OD.copy_keys d l acc) = append_keys d l (OD.keys acc).
Proof.
  unfold OD.copy_keys, append_keys. revert acc.
  induction l as [| k l IH]; intros acc; simpl; [reflexivity |].
  rewrite IH. f_equal. unfold OD.mem at 1.
  destruct (OD.get k d) as [v |]; simpl; [| reflexivity].
  rewrite AddMore.keys_set_list, mem_keys.
  destruct (mem_str k (OD.keys acc)); reflexivity.
Qed.

Lemma append_keys_app d l1 l2 ks :
  append_keys d (l1 ++ l2) ks = append_keys d l2 (append_keys d l1 ks).
Proof. unfold append_keys. apply fold_left_app. Qed.

Lemma append_keys_fresh d l :
  forall ks,
    NoDup l -> (forall k, In k l -> ~ In k ks) ->
    append_keys d l ks = (ks ++ filter (fun k => OD.mem k d) l)%list.
Proof.
  unfold append_keys.
  induction l as [| x l IH]; intros ks Hnd Hfresh; simpl; [now rewrite app_nil_r |].
  inversion Hnd as [| ? ? Hx Hnd']; subst.
  assert (Hm : mem_str x ks = false).
  { destruct (mem_str x ks) eqn:E; [| reflexivity].
    exfalso. apply (Hfresh x); [now left | now apply mem_str_In]. }
  rewrite Hm. destruct (OD.mem x d); simpl.
  - rewrite IH; [rewrite <- app_assoc; reflexivity | assumption |].
    intros k Hk Hin. apply in_app_or in Hin as [Hin | [<- | []]].
    + apply (Hfresh k); [now right | assumption].
    + contradiction.
  - apply IH; [assumption |]. intros k Hk. apply Hfresh. now right.
Qed.

Lemma append_keys_filter (P : string -> bool) d l :
  forall ks,
    (forall k, In k l -> P k = true -> OD.mem k d = true -> In k ks) ->
    filter P (append_keys d l ks) = filter P ks.
Proof.
  unfold append_keys.
  induction l as [| x l IH]; intros ks H; simpl; [reflexivity |].
  destruct (andb (OD.mem x d) (negb (mem_str x ks))) eqn:Eb.
  - apply andb_prop in Eb as [Em En]. apply negb_true_iff in En.
    assert (HP : P x = false).
    { destruct (P x) eqn:EP; [| reflexivity].
      assert (Hin : In x ks) by (apply H; [now left | assumption | assumption]).
      apply mem_str_In in Hin. congruence. }
    rewrite IH.
    + rewrite filter_app. simpl. rewrite HP. apply app_nil_r.
    + intros k Hk HPk Hmk. apply in_or_app. left. apply H; [now right | |]; assumption.
  - apply IH. intros k Hk. apply H. now right.
Qed.
End Keys.

Lemma filter_all_true {A} (P : A -> bool) l :
  (forall x, In x l -> P x = true) -> filter P l = l.
Proof.
  induction l as [| x l IH]; intros H; simpl; [reflexivity |].
  rewrite (H x) by now left. rewrite IH; [reflexivity |].
  intros y Hy. apply H. now right.
Qed.

End UpdateMore.

(** X17.  Every entry of the schema that [update_schema] leaves is an entry
    of the schema it was given, under the same key, rebuilt from the
    signature: it is required exactly when its name is a parameter without a
    default, its default is that of the signature when its name is a
    defaulted parameter and its own otherwise, and every other field is
    kept. *)
Theorem update_schema_entries :
  forall schema attrs defaults allowed k a',
    OD.get k (fst (update_schema schema attrs defaults allowed)) = Some a' ->
    exists a,
      OD.get k schema = Some a
      /\ name a' = name a
      /\ required a' = mem_str (name a) (snd (fst (signature_names attrs defaults)))
      /\ default a'
         = match index_of (name a) (snd (signature_names attrs defaults)) with
           | Some i => nth i (match defaults with Some ds => ds | None => [] end) VNone
           | None => default a
           end
      /\ type a' = type a /\ choices a' = choices a /\ nargs a' = nargs a
      /\ help a' = help a /\ subfields a' = subfields a.
Proof.
  intros schema attrs defaults allowed k a'. unfold update_schema.
  destruct (signature_names attrs defaults) as [[args req_names] dflt_names].
  destruct (fold_left _ _ _) as [extra missing].
  assert (Hmap : OD.get k
                   (map (fun p => (fst p, update_entry req_names dflt_names defaults (snd p)))
                      schema) = Some a' ->
                 exists a, OD.get k schema = Some a
                           /\ a' = update_entry req_names dflt_names defaults a).
  { rewrite UpdateMore.get_map_values. destruct (OD.get k schema) as [a |]; simpl;
      [| discriminate]. intros [= <-]. eauto. }
  assert (Hfields : (exists a, OD.get k schema = Some a
                               /\ a' = update_entry req_names dflt_names defaults a) ->
                    exists a,
                      OD.get k schema = Some a
                      /\ name a' = name a
                      /\ required a' = mem_str (name a) req_names
                      /\ default a'
                         = match index_of (name a) dflt_names with
                           | Some i => nth i (match defaults with
                                              | Some ds => ds | None => [] end) VNone
                           | None => default a
                           end
                      /\ type a' = type a /\ choices a' = choices a
                      /\ nargs a' = nargs a
                      /\ help a' = help a /\ subfields a' = subfields a).
  { intros (a & Ha & ->). exists a. simpl. repeat split; assumption. }
  simpl fst. simpl snd. intros H. apply Hfields, Hmap.
  unfold check_and_reorder in H.
  destruct missing; [| exact H]. destruct extra; [| exact H].
  destruct (list_eqb _ args); [exact H |].
  simpl in H. unfold reorder in H. rewrite ODFacts.get_copy_keys in H.
  destruct (mem_str k (args ++ allowed)); [| discriminate].
  destruct (OD.get k (map _ schema)); [exact H | discriminate].
Qed.

(** X18.  When [update_schema] returns, schema and signature agree: every
    parameter after the receiver is the name of an entry, and the name of
    every entry is a parameter or an allowed name.  Otherwise it ends in a
    [ValueError]. *)
Theorem update_schema_accepts_agreement :
  forall schema attrs defaults allowed,
    match snd (update_schema schema attrs defaults allowed) with
    | Ok _ =>
        (forall x, In x (tl attrs) -> exists p, In p schema /\ name (snd p) = x)
        /\ (forall p, In p schema ->
                      In (name (snd p)) (tl attrs) \/ In (name (snd p)) allowed)
    | Raise e => exn_class_of e = ValueError
    end.
Proof.
  intros schema attrs defaults allowed. unfold update_schema.
  destruct (signature_names attrs defaults) as [[args required] default_names] eqn:Es.
  destruct (UpdateMore.signature_names_cover _ _ _ _ _ Es) as [-> Hcover].
  destruct (fold_left _ _ _) as [extra missing] eqn:Ef.
  destruct (UpdateMore.check_fold _ _ _ _ _ _ _ Ef) as [H1 H2].
  unfold check_and_reorder.
  destruct missing; [| reflexivity]. destruct extra; [| reflexivity].
  destruct (H1 eq_refl) as [_ Hall].
  assert (Hres : (forall x, In x (tl attrs) -> exists p, In p schema /\ name (snd p) = x)
                 /\ (forall p, In p schema ->
                               In (name (snd p)) (tl attrs) \/ In (name (snd p)) allowed)).
  { split.
    - intros x Hx. destruct (H2 x (Hcover x Hx)) as [[] | (a & Ha & En)].
      apply in_map_iff in Ha as (p & <- & Hp). eauto.
    - intros p Hp. apply Hall. apply in_map. exact Hp. }
  destruct (list_eqb _ _); exact Hres.
Qed.

(** X19.  When [update_schema] returns for a signature without a repeated
    parameter, the keys of the schema that are parameters come in the order
    of the signature: filtered for the parameters, the keys are the
    parameters that the schema has as keys. *)
Theorem update_schema_signature_order :
  forall schema attrs defaults allowed,
    NoDup (tl attrs) ->
    snd (update_schema schema attrs defaults allowed) = Ok tt ->
    filter (fun k => mem_str k (tl attrs))
      (OD.keys (fst (update_schema schema attrs defaults allowed)))
    = filter (fun k => OD.mem k schema) (tl attrs).
Proof.
  intros schema attrs defaults allowed Hnd. unfold update_schema.
  destruct (signature_names attrs defaults) as [[args req_names] dflt_names] eqn:Es.
  destruct (UpdateMore.signature_names_cover _ _ _ _ _ Es) as [-> _].
  destruct (fold_left _ _ _) as [extra missing].
  set (s1 := map (fun p => (fst p, update_entry req_names dflt_names defaults (snd p)))
               schema).
  assert (Hkeys : OD.keys s1 = OD.keys schema).
  { subst s1. unfold OD.keys. rewrite map_map. reflexivity. }
  assert (Hmem : forall k, OD.mem k s1 = OD.mem k schema).
  { intros k. rewrite !UpdateMore.mem_keys, Hkeys. reflexivity. }
  unfold check_and_reorder.
  destruct missing; [| discriminate]. destruct extra; [| discriminate].
  destruct (list_eqb _ _) eqn:El; intros _.
  - unfold list_eqb in El.
    destruct (list_eq_dec string_dec _ _) as [E |]; [| discriminate].
    simpl fst. rewrite E. symmetry. apply UpdateMore.filter_all_true.
    intros x Hx. rewrite <- E in Hx. apply filter_In in Hx as [Hx _].
    rewrite UpdateMore.mem_keys, <- Hkeys. now apply mem_str_In.
  - simpl fst. unfold reorder. rewrite UpdateMore.keys_copy_keys.
    change (OD.keys (@nil (string * Argument))) with (@nil string).
    rewrite UpdateMore.append_keys_app.
    rewrite (UpdateMore.append_keys_fresh s1 (tl attrs) []) by (auto; intros k _ []).
    simpl app.
    rewrite UpdateMore.append_keys_filter.
    + rewrite (filter_ext _ _ Hmem).
      apply UpdateMore.filter_all_true. intros x Hx. apply filter_In in Hx as [Hx _].
      now apply mem_str_In.
    + intros k _ HP Hm. apply filter_In. split; [now apply mem_str_In | exact Hm].
Qed.

Module DeclareMore.

Lemma signature_names_incl attrs ds args req_names dflt_names :
  signature_names attrs ds = (args, req_names, dflt_names) ->
  incl req_names (tl attrs) /\ incl dflt_names (tl attrs).
Proof.
  unfold signature_names. destruct ds as [[| d ds] |]; intros [= <- <- <-];
    split; try apply incl_refl; try (intros x []).
  - intros x Hx.
    rewrite <- (firstn_skipn (List.length (tl attrs) - List.length (d :: ds)) (tl attrs)).
    apply in_or_app. left. exact Hx.
  - intros x Hx.
    rewrite <- (firstn_skipn (List.length (tl attrs) - List.length (d :: ds)) (tl attrs)).
    apply in_or_app. right. exact Hx.
Qed.

Lemma update_schema_get_allowed schema attrs ds al k :
  snd (update_schema schema attrs ds al) = Ok tt ->
  In k al ->
  OD.get k (fst (update_schema schema attrs ds al))
  = option_map (update_entry (snd (fst (signature_names attrs ds)))
                  (snd (signature_names attrs ds)) ds)
      (OD.get k schema).
Proof.
  unfold update_schema.
  destruct (signature_names attrs ds) as [[args req_names] dflt_names].
  destruct (fold_left _ _ _) as [extra missing]. simpl fst. simpl snd.
  unfold check_and_reorder.
  destruct missing; [| discriminate]. destruct extra; [| discriminate].
  destruct (list_eqb _ _); intros _ Hk; simpl fst.
  - apply UpdateMore.get_map_values.
  - unfold reorder. rewrite ODFacts.get_copy_keys.
    assert (Hm : mem_str k (args ++ al) = true)
      by (apply mem_str_In, in_or_app; now right).
    rewrite Hm, UpdateMore.get_map_values.
    destruct (OD.get k schema); reflexivity.
Qed.

Lemma declare_ambient_spec nm hlp schema :
  PyStr.split_on "."%char nm = [nm] ->
  snd (declare_ambient nm hlp schema) = Ok tt
  /\ (forall k, k <> nm ->
                OD.get k (fst (declare_ambient nm hlp schema)) = OD.get k schema)
  /\ OD.get nm (fst (declare_ambient nm hlp schema))
     = match OD.get nm schema with
       | Some a => Some a
       | None => Some (mkArgument nm false (TSingle None) VNone None NNone (Some hlp) [])
       end.
Proof.
  intros Hsplit. unfold declare_ambient, OD.mem.
  destruct (OD.get nm schema) as [a |] eqn:E.
  - simpl. rewrite E. auto.
  - unfold ConstructorSchema.add_argument.
    rewrite (AddMore.contains_top _ _ _ Hsplit). rewrite Hsplit. simpl.
    unfold OD.mem. rewrite E. simpl. split; [reflexivity |]. split.
    + intros k N. rewrite ODFacts.get_set.
      destruct (String.eqb_spec k nm); [contradiction | reflexivity].
    + rewrite ODFacts.get_set, String.eqb_refl. reflexivity.
Qed.

End DeclareMore.

(** X20.  When the declaration that [autoassign] makes returns, every
    ambient name it allows ([cosmo], [comm]) is a key of the schema; an
    ambient argument that the decorator declared itself, and that is not a
    parameter of the signature, is there under its own name, optional and
    with the default [None]. *)
Theorem autoassign_declares_ambient :
  forall schema spec attach_comm attach_cosmo nm,
    In nm (allowed attach_comm attach_cosmo) ->
    snd (autoassign_declare schema spec attach_comm attach_cosmo) = Ok tt ->
    exists a,
      OD.get nm (fst (autoassign_declare schema spec attach_comm attach_cosmo)) = Some a
      /\ (OD.get nm schema = None -> ~ In nm (tl (attrs spec)) ->
          name a = nm /\ required a = false /\ default a = VNone).
Proof.
  intros schema spec attach_comm attach_cosmo nm Hnm. unfold autoassign_declare.
  set (s1 := if attach_cosmo then declare_ambient "cosmo" cosmo_help schema
             else (schema, Ok tt)).
  assert (H1 : snd s1 = Ok tt
               /\ (forall k, k <> "cosmo" -> OD.get k (fst s1) = OD.get k schema)
               /\ (attach_cosmo = true ->
                   OD.get "cosmo" (fst s1)
                   = match OD.get "cosmo" schema with
                     | Some a => Some a
                     | None => Some (mkArgument "cosmo" false (TSingle None) VNone None
                                       NNone (Some cosmo_help) [])
                     end)).
  { subst s1. destruct attach_cosmo.
    - destruct (DeclareMore.declare_ambient_spec "cosmo" cosmo_help schema eq_refl)
        as (Ha & Hb & Hc). auto.
    - simpl. split; [reflexivity |]. split; [reflexivity | discriminate]. }
  destruct s1 as [schema1 r1]. simpl in H1. destruct H1 as (-> & Hk1 & Hc1).
  set (s2 := if attach_comm then declare_ambient "comm" comm_help schema1
             else (schema1, Ok tt)).
  assert (H2 : snd s2 = Ok tt
               /\ (forall k, k <> "comm" -> OD.get k (fst s2) = OD.get k schema1)
               /\ (attach_comm = true ->
                   OD.get "comm" (fst s2)
                   = match OD.get "comm" schema1 with
                     | Some a => Some a
                     | None => Some (mkArgument "comm" false (TSingle None) VNone None
                                       NNone (Some comm_help) [])
                     end)).
  { subst s2. destruct attach_comm.
    - destruct (DeclareMore.declare_ambient_spec "comm" comm_help schema1 eq_refl)
        as (Ha & Hb & Hc). auto.
    - simpl. split; [reflexivity |]. split; [reflexivity | discriminate]. }
  destruct s2 as [schema2 r2]. simpl in H2. destruct H2 as (-> & Hk2 & Hc2).
  intros Hok.
  rewrite (DeclareMore.update_schema_get_allowed _ _ _ _ nm Hok Hnm).
  destruct (signature_names (attrs spec) (Some (defaults spec)))
    as [[args req_names] dflt_names] eqn:Es.
  destruct (DeclareMore.signature_names_incl _ _ _ _ _ Es) as [Hreq Hdf].
  simpl fst. simpl snd.
  assert (Hget : exists a0,
             OD.get nm schema2 = Some a0
             /\ (OD.get nm schema = None ->
                 name a0 = nm /\ default a0 = VNone)).
  { unfold allowed in Hnm. apply in_app_or in Hnm as [Hn | Hn].
    - destruct attach_cosmo; [| destruct Hn]. destruct Hn as [<- | []].
      rewrite Hk2 by discriminate. rewrite (Hc1 eq_refl).
      destruct (OD.get "cosmo" schema) as [a0 |]; eexists; split; try reflexivity;
        [discriminate | auto].
    - destruct attach_comm; [| destruct Hn]. destruct Hn as [<- | []].
      rewrite (Hc2 eq_refl).
      destruct (OD.get "comm" schema1) as [a0 |] eqn:E1.
      + eexists. split; [reflexivity |]. intros Hnone.
        destruct attach_cosmo.
        * rewrite Hk1 in E1 by discriminate. congruence.
        * rewrite Hk1 in E1 by discriminate. congruence.
      + eexists. split; [reflexivity |]. auto. }
  destruct Hget as (a0 & Ha0 & Hnew). rewrite Ha0. simpl.
  eexists. split; [reflexivity |]. intros Hnone Hnot.
  destruct (Hnew Hnone) as [Hn Hd]. simpl. rewrite Hn. split; [reflexivity |]. split.
  - destruct (mem_str nm req_names) eqn:Em; [| reflexivity].
    exfalso. apply Hnot, Hreq. now apply mem_str_In.
  - destruct (index_of nm dflt_names) as [i |] eqn:Ei; [| exact Hd].
    exfalso. apply Hnot, Hdf.
    clear -Ei. revert i Ei. induction dflt_names as [| y l IH]; simpl; [discriminate |].
    intros i. destruct (String.eqb_spec nm y) as [-> | N]; [intros _; now left |].
    destruct (index_of nm l); simpl; [| discriminate].
    intros _. right. eapply IH. reflexivity.
Qed.

(** ** The constructor wrapper, further *)

Section BindingMore.

Variable py_eq : value -> value -> bool.
Variable set_order : list string -> list string.
Hypothesis set_order_perm :
  forall l, Permutation (set_order l) (nodup string_dec l).

Variable spec : argspec.
Variable schema : schema_t.
Variable attach_comm attach_cosmo : bool.
Variable class_name : string.
Variable get_nbkit_comm get_nbkit_cosmo : value.

Local Abbreviation bound :=
  (bind_arguments py_eq spec schema attach_comm attach_cosmo
     get_nbkit_comm get_nbkit_cosmo).

Lemma check_choices_error attr val e :
  check_choices py_eq schema attr val = Raise e -> exn_class_of e = ValueError.
Proof.
  unfold check_choices. destruct (OD.get attr schema) as [arg |]; [| discriminate].
  destruct (choices arg) as [cs |]; [| discriminate].
  destruct (existsb (py_eq val) cs); [discriminate |]. intros [= <-]. reflexivity.
Qed.

Lemma fold_set_other (l : list (string * value)) :
  forall s k, ~ In k (map fst l) ->
    OD.get k (fold_left (fun s p => OD.set (fst p) (snd p) s) l s) = OD.get k s.
Proof.
  induction l as [| [x v] l IH]; intros s k Hk; simpl; [reflexivity |].
  rewrite IH by (intros H; apply Hk; now right).
  rewrite ODFacts.get_set. destruct (String.eqb_spec k x) as [-> | N]; [| reflexivity].
  exfalso. apply Hk. now left.
Qed.

Lemma fold_set_In (l : list (string * value)) :
  forall s k v, NoDup (map fst l) -> In (k, v) l ->
    OD.get k (fold_left (fun s p => OD.set (fst p) (snd p) s) l s) = Some v.
Proof.
  induction l as [| [x w] l IH]; intros s k v Hnd Hin; [destruct Hin |].
  simpl in *. inversion Hnd as [| ? ? Hx Hnd']; subst.
  destruct Hin as [E | Hin].
  - injection E as -> ->. rewrite fold_set_other by assumption.
    rewrite ODFacts.get_set, String.eqb_refl. reflexivity.
  - now apply IH.
Qed.

Lemma bind_positional_get l :
  forall self posargs self' posargs',
    bind_positional py_eq schema l self posargs = Ok (self', posargs') ->
    (forall k, ~ In k (map fst l) -> OD.get k self' = OD.get k self)
    /\ (NoDup (map fst l) -> forall k v, In (k, v) l -> OD.get k self' = Some v).
Proof.
  induction l as [| [x w] l IH]; intros self posargs self' posargs'; simpl.
  - intros [= <- <-]. split; [reflexivity | intros _ k v []].
  - destruct (check_choices py_eq schema x w); simpl; [| discriminate].
    intros H. destruct (IH _ _ _ _ H) as [Ho Hi]. split.
    + intros k Hk. rewrite Ho by (intros Hin; apply Hk; now right).
      rewrite ODFacts.get_set. destruct (String.eqb_spec k x) as [-> | N]; [| reflexivity].
      exfalso. apply Hk. now left.
    + intros Hnd k v Hin. inversion Hnd as [| ? ? Hx Hnd']; subst.
      destruct Hin as [E | Hin]; [| now apply Hi].
      injection E as -> ->. rewrite Ho by assumption.
      rewrite ODFacts.get_set, String.eqb_refl. reflexivity.
Qed.

Lemma bind_keywords_get l :
  forall self self',
    bind_keywords py_eq schema l self = Ok self' ->
    (forall k, ~ In k (map fst l) -> OD.get k self' = OD.get k self)
    /\ (NoDup (map fst l) -> forall k v, In (k, v) l -> OD.get k self' = Some v).
Proof.
  induction l as [| [x w] l IH]; intros self self'; simpl.
  - intros [= <-]. split; [reflexivity | intros _ k v []].
  - destruct (check_choices py_eq schema x w); simpl; [| discriminate].
    intros H. destruct (IH _ _ H) as [Ho Hi]. split.
    + intros k Hk. rewrite Ho by (intros Hin; apply Hk; now right).
      rewrite ODFacts.get_set. destruct (String.eqb_spec k x) as [-> | N]; [| reflexivity].
      exfalso. apply Hk. now left.
    + intros Hnd k v Hin. inversion Hnd as [| ? ? Hx Hnd']; subst.
      destruct Hin as [E | Hin]; [| now apply Hi].
      injection E as -> ->. rewrite Ho by assumption.
      rewrite ODFacts.get_set, String.eqb_refl. reflexivity.
Qed.

Lemma get_In_pair {V} k (v : V) d : OD.get k d = Some v -> In (k, v) d.
Proof.
  induction d as [| [x w] d IH]; simpl; [discriminate |].
  destruct (String.eqb_spec k x) as [-> | N]; [intros [= ->]; now left | auto].
Qed.

Lemma NoDup_combine_fst {A B} (l1 : list A) (l2 : list B) :
  NoDup l1 -> NoDup (map fst (combine l1 l2)).
Proof.
  revert l2. induction l1 as [| a l1 IH]; intros [| b l2] Hnd; simpl; try constructor.
  - inversion Hnd as [| ? ? Ha Hnd']; subst. intros Hin. apply Ha.
    apply in_map_iff in Hin as ([x y] & <- & Hin). eapply in_combine_l. exact Hin.
  - inversion Hnd; subst. now apply IH.
Qed.

Lemma pop_allowed_kwargs l :
  forall self kwargs selfa kwargsa,
    fold_left pop_allowed l (self, kwargs) = (selfa, kwargsa) ->
    NoDup (OD.keys kwargs) ->
    NoDup (OD.keys kwargsa)
    /\ forall k,
        OD.get k kwargsa = if mem_str k l then None else OD.get k kwargs.
Proof.
  induction l as [| x l IH]; intros self kwargs selfa kwargsa; simpl.
  - intros [= <- <-] Hnd. split; [assumption | reflexivity].
  - destruct (OD.get x kwargs) as [v |] eqn:E; intros Hf Hnd.
    + destruct (IH _ _ _ _ Hf) as [Hn Hg]; [now apply keys_remove_NoDup |].
      split; [exact Hn |]. intros k. rewrite Hg.
      destruct (String.eqb_spec k x) as [-> | N]; simpl.
      * rewrite get_remove_same_NoDup by assumption. destruct (mem_str x l); reflexivity.
      * rewrite ODFacts.get_remove_ne by assumption. reflexivity.
    + destruct (IH _ _ _ _ Hf Hnd) as [Hn Hg]. split; [exact Hn |].
      intros k. rewrite Hg.
      destruct (String.eqb_spec k x) as [-> | N]; simpl; [| reflexivity].
      rewrite E. destruct (mem_str x l); reflexivity.
Qed.

(** The stages of [bind_arguments], named. *)
Lemma bind_arguments_stages self args kwargs self' posargs kwargs' :
  bound self args kwargs = Ok (self', posargs, kwargs') ->
  exists self0 selfa self1,
    fold_left pop_allowed (allowed attach_comm attach_cosmo) (self0, kwargs)
    = (selfa, kwargs')
    /\ bind_positional py_eq schema (combine (tl (attrs spec)) args)
         (fold_left (fun s p => OD.set (fst p) (snd p) s)
            (combine (rev (attrs spec)) (rev (defaults spec))) selfa) []
       = Ok (self1, posargs)
    /\ bind_keywords py_eq schema kwargs'
         (match varargs spec with
          | Some va => OD.set va (VList (skipn (List.length (tl (attrs spec))) args)) self1
          | None => self1
          end) = Ok self'.
Proof.
  unfold bind_arguments.
  set (self0 := if attach_cosmo then _ else _). clearbody self0.
  destruct (fold_left pop_allowed _ (self0, kwargs)) as [selfa kwargsa] eqn:Ea.
  destruct (bind_positional _ _ _ _ _) as [[self1 posargs1] |] eqn:Ep; simpl;
    [| discriminate].
  destruct (bind_keywords _ _ _ _) as [self2 |] eqn:Ek; simpl; [| discriminate].
  intros [= <- <- <-]. exists self0, selfa, self1. auto.
Qed.

(** X21.  The attributes of the instance when the wrapper reaches the call
    of [init], for a signature without a repeated name and keywords with one
    entry per name: a keyword that is passed on is an attribute with its
    value; a parameter bound positionally and not by keyword has the
    positional value; a defaulted parameter bound neither way has its
    default. *)
Theorem binding_precedence :
  forall self args kwargs self' posargs kwargs',
    NoDup (attrs spec) ->
    NoDup (OD.keys kwargs) ->
    bound self args kwargs = Ok (self', posargs, kwargs') ->
    (forall k v, OD.get k kwargs' = Some v -> OD.get k self' = Some v)
    /\ (forall k v,
          In (k, v) (combine (tl (attrs spec)) args) ->
          OD.get k kwargs' = None -> varargs spec <> Some k ->
          OD.get k self' = Some v)
    /\ (forall k v,
          In (k, v) (combine (rev (attrs spec)) (rev (defaults spec))) ->
          ~ In k (map fst (combine (tl (attrs spec)) args)) ->
          OD.get k kwargs' = None -> varargs spec <> Some k ->
          OD.get k self' = Some v).
Proof.
  intros self args kwargs self' posargs kwargs' Hnd Hkw Hb.
  destruct (bind_arguments_stages _ _ _ _ _ _ Hb)
    as (self0 & selfa & self1 & Ea & Hpos & Hkey).
  destruct (pop_allowed_kwargs _ _ _ _ _ Ea Hkw) as [Hnd' _].
  destruct (bind_keywords_get _ _ _ Hkey) as [Hko Hki].
  destruct (bind_positional_get _ _ _ _ _ Hpos) as [Hpo Hpi].
  assert (Hnkw : forall k, OD.get k kwargs' = None -> ~ In k (map fst kwargs')).
  { intros k Hk. apply keys_not_In_get. exact Hk. }
  assert (Hva : forall k s, varargs spec <> Some k ->
                  OD.get k (match varargs spec with
                            | Some va => OD.set va
                                           (VList (skipn (List.length (tl (attrs spec))) args)) s
                            | None => s
                            end) = OD.get k s).
  { intros k s Hv. destruct (varargs spec) as [va |]; [| reflexivity].
    rewrite ODFacts.get_set. destruct (String.eqb_spec k va); [congruence | reflexivity]. }
  assert (Hndt : NoDup (tl (attrs spec))).
  { destruct (attrs spec); [constructor |]. inversion Hnd; assumption. }
  split; [| split].
  - intros k v Hk. apply Hki; [exact Hnd' | now apply get_In_pair].
  - intros k v Hin Hk Hv. rewrite Hko by now apply Hnkw. rewrite Hva by assumption.
    apply Hpi; [now apply NoDup_combine_fst | exact Hin].
  - intros k v Hin Hnp Hk Hv. rewrite Hko by now apply Hnkw. rewrite Hva by assumption.
    rewrite Hpo by assumption. apply fold_set_In; [| exact Hin].
    apply NoDup_combine_fst. apply NoDup_rev. exact Hnd.
Qed.

(** X22.  Of keywords with one entry per name, the ambient names the
    wrapper allows are taken out before the call of [init]; every other
    keyword is passed on as it was given. *)
Theorem ambient_keywords_are_popped :
  forall self args kwargs self' posargs kwargs',
    NoDup (OD.keys kwargs) ->
    bound self args kwargs = Ok (self', posargs, kwargs') ->
    forall k,
      OD.get k kwargs'
      = if mem_str k (allowed attach_comm attach_cosmo) then None else OD.get k kwargs.
Proof.
  intros self args kwargs self' posargs kwargs' Hkw Hb k.
  destruct (bind_arguments_stages _ _ _ _ _ _ Hb)
    as (self0 & selfa & self1 & Ea & _).
  destruct (pop_allowed_kwargs _ _ _ _ _ Ea Hkw) as [_ Hg]. apply Hg.
Qed.

Lemma errmsg_line_nonempty s names : errmsg_line s names <> EmptyString.
Proof. unfold errmsg_line. discriminate. Qed.

Lemma errmsg_part_empty s names : errmsg_part s names = EmptyString <-> names = [].
Proof.
  destruct names as [| n names]; simpl; [split; reflexivity |].
  split; [intros H; exfalso; exact (errmsg_line_nonempty _ _ H) | discriminate].
Qed.

Lemma append_empty (a b : string) :
  (a ++ b)%string = EmptyString <-> a = EmptyString /\ b = EmptyString.
Proof.
  destruct a; simpl.
  - split; [intros H; split; [reflexivity | exact H] | intros [_ H]; exact H].
  - split; [discriminate | intros [H _]; discriminate H].
Qed.

(** X23.  The diagnostic of [get_init_errmsg] is empty exactly when the call
    agrees with the schema: no name is bound both positionally and by
    keyword, every required name of the schema is bound, and every bound
    name is a key of the schema. *)
Theorem diagnostic_empty_iff_consistent :
  forall posargs kwargs,
    get_init_errmsg set_order schema posargs kwargs = EmptyString
    <-> (forall n, ~ (In n (OD.keys posargs) /\ In n (OD.keys kwargs)))
        /\ (forall n a, OD.get n schema = Some a -> required a = true ->
                        In n (OD.keys posargs) \/ In n (OD.keys kwargs))
        /\ (forall n, In n (OD.keys posargs) \/ In n (OD.keys kwargs) ->
                      OD.get n schema <> None).
Proof.
  intros posargs kwargs. unfold get_init_errmsg.
  rewrite !append_empty, !errmsg_part_empty.
  assert (Hnil : forall l : list string, l = [] <-> forall n, ~ In n l).
  { intros l. split; [intros -> n [] |].
    destruct l as [| x l]; [reflexivity |]. intros H. exfalso. apply (H x). now left. }
  rewrite !Hnil. split.
  - intros (Hd & Hm & He). split; [| split].
    + intros n Hn. apply (Hd n). apply In_duplicated; assumption.
    + intros n a Ha Hr.
      destruct (in_dec string_dec n (OD.keys posargs)) as [? | Np]; [now left |].
      destruct (in_dec string_dec n (OD.keys kwargs)) as [? | Nk]; [now right |].
      exfalso. apply (Hm n). apply In_missing. split; [eauto | auto].
    + intros n Hn Hnone. apply (He n). apply In_extra; auto.
  - intros (Hd & Hm & He). split; [| split].
    + intros n Hn. apply In_duplicated in Hn; [| assumption]. exact (Hd n Hn).
    + intros n Hn. apply In_missing in Hn as [(a & Ha & Hr) [Np Nk]].
      destruct (Hm n a Ha Hr); contradiction.
    + intros n Hn. apply In_extra in Hn as [Hb Hnone]; [| assumption].
      exact (He n Hb Hnone).
Qed.

End BindingMore.


Lemma remove_set_same {V} k (v : V) d : OD.remove k (OD.set k v d) = OD.remove k d.
Proof.
  induction d as [| [x w] d IH]; simpl.
  - rewrite String.eqb_refl. reflexivity.
  - destruct (String.eqb_spec k x) as [-> | N]; simpl.
    + rewrite String.eqb_refl. reflexivity.
    + destruct (String.eqb_spec k x); [contradiction |]. rewrite IH. reflexivity.
Qed.

(** X25.  A bare string under the reserved key [X] is read as the list of
    that one plugin: the read of a document ends as the read of the same
    document with the string replaced by the one-element list. *)
Theorem bare_plugin_string_is_one_element_list :
  forall (L : Lowercase) format_exc ordered_load load cosmology
         (Cosmology : list (string * value) -> res cosmology) set_nbkit_cosmo
         stream stream' schema d p,
    ordered_load stream = Ok (VDict d) ->
    ordered_load stream' = Ok (VDict (OD.set "X" (VList [VStr p]) d)) ->
    OD.get "X" d = Some (VStr p) ->
    ReadConfigFile format_exc ordered_load load cosmology Cosmology set_nbkit_cosmo
      stream schema
    = ReadConfigFile format_exc ordered_load load cosmology Cosmology set_nbkit_cosmo
        stream' schema.
Proof.
  intros L format_exc ordered_load load cosmology Cosmology set_nbkit_cosmo
         stream stream' schema d p Hd Hd' HX.
  unfold ReadConfigFile.
  rewrite (load_config_dict _ _ _ Hd), (load_config_dict _ _ _ Hd'). simpl bind.
  rewrite !load_plugins_dict. rewrite HX, ODFacts.get_set, String.eqb_refl.
  rewrite remove_set_same. reflexivity.
Qed.

(** ** The further statements at concrete inputs *)

Section FurtherConcrete.

#[local] Existing Instance Examples.ascii_names.

Lemma cast_error_provenance_witness :
  ConstructorSchema.cast MoreExamples.int_only (VStr "abc")
  = Raise (mkExn ValueError "invalid literal for int() with base 10: 'abc'")
  /\ (ConstructorSchema.check_nargs MoreExamples.int_only (VStr "abc")
      = Raise (mkExn ValueError "invalid literal for int() with base 10: 'abc'")
      \/ exists val',
          ConstructorSchema.check_nargs MoreExamples.int_only (VStr "abc") = Ok val'
          /\ ((candidates MoreExamples.int_only = []
               /\ mkExn ValueError "invalid literal for int() with base 10: 'abc'"
                  = mkExn IndexError "tuple index out of range")
              \/ exists pre c,
                  candidates MoreExamples.int_only = (pre ++ [c])%list
                  /\ Forall (ConstructorSchema.fails MoreExamples.int_only val') pre
                  /\ ConstructorSchema.cast1 MoreExamples.int_only val' c
                     = Raise (mkExn ValueError
                                "invalid literal for int() with base 10: 'abc'"))).
Proof.
  split; [reflexivity |].
  exact (cast_error_provenance MoreExamples.int_only (VStr "abc") _ eq_refl).
Defined.

Lemma cast_one_or_more_witness :
  nargs MoreExamples.one_or_more = NPlus
  /\ ConstructorSchema.cast MoreExamples.one_or_more (VList [])
     = Raise (mkExn ValueError "'files' requires at least one argument")
  /\ ConstructorSchema.check_nargs MoreExamples.one_or_more (VStr "a.dat")
     = Ok (VList [VStr "a.dat"]).
Proof.
  split; [reflexivity |]. split.
  - exact (proj1 (cast_one_or_more MoreExamples.one_or_more eq_refl)).
  - refine (proj2 (cast_one_or_more MoreExamples.one_or_more eq_refl) (VStr "a.dat") _).
    discriminate.
Defined.

Lemma cast_with_final_None_returns_witness :
  let arg := MoreExamples.int_or_raw in
  type arg = TTuple ([Some py_int] ++ [None])%list
  /\ ConstructorSchema.check_nargs arg (VStr "42") = Ok (VStr "42")
  /\ ((Forall (ConstructorSchema.fails arg (VStr "42")) [Some py_int]
       /\ ConstructorSchema.cast arg (VStr "42") = Ok (VStr "42"))
      \/ (exists before c after r,
            [Some py_int] = (before ++ c :: after)%list
            /\ Forall (ConstructorSchema.fails arg (VStr "42")) before
            /\ ConstructorSchema.cast1 arg (VStr "42") c = Ok r
            /\ ConstructorSchema.cast arg (VStr "42") = Ok r)).
Proof.
  intros arg. split; [reflexivity |]. split; [reflexivity |].
  exact (cast_with_final_None_returns arg (VStr "42") (VStr "42") [Some py_int]
           eq_refl eq_refl).
Defined.

Lemma fill_error_classes_witness :
  fill_namespace Examples.plain_traceback [] Examples.outer (VDict []) []
  = Raise (mkExn AttributeError "'NoneType' object has no attribute 'pop'")
  /\ fill_error_class AttributeError = true.
Proof.
  split; [reflexivity |].
  exact (fill_error_classes Examples.plain_traceback Examples.outer [] (VDict []) []
           (mkExn AttributeError "'NoneType' object has no attribute 'pop'") eq_refl).
Defined.

Lemma fill_absent_container_of_leaves_witness :
  subfields Examples.field <> []
  /\ OD.get (local_name Examples.field) [("mode", VStr "1d")] = None
  /\ Forall (fun p : string * Argument => subfields (snd p) = [])
       (subfields Examples.field)
  /\ fill_namespace Examples.plain_traceback [] Examples.field
       (VDict [("mode", VStr "1d")]) []
     = Ok ([], VDict [("mode", VStr "1d")], []).
Proof.
  assert (H1 : subfields Examples.field <> []) by discriminate.
  assert (H3 : Forall (fun p : string * Argument => subfields (snd p) = [])
                 (subfields Examples.field))
    by (constructor; [reflexivity | constructor]).
  split; [exact H1 |]. split; [reflexivity |]. split; [exact H3 |].
  exact (fill_absent_container_of_leaves Examples.plain_traceback [] Examples.field
           [("mode", VStr "1d")] [] H1 eq_refl H3).
Defined.

Lemma fill_sets_only_local_name_witness :
  fill_namespace Examples.plain_traceback [("mode", VStr "1d")] MoreExamples.nmesh
    (VDict MoreExamples.nmesh_doc) []
  = Ok ([("mode", VStr "1d"); ("Nmesh", VInt 64)], VDict [("mode", VStr "1d")], [])
  /\ OD.get "mode" [("mode", VStr "1d"); ("Nmesh", VInt 64)]
     = OD.get "mode" [("mode", VStr "1d")].
Proof.
  split; [reflexivity |].
  refine (proj2 (fill_sets_only_local_name Examples.plain_traceback
                   [("mode", VStr "1d")] MoreExamples.nmesh
                   (VDict MoreExamples.nmesh_doc) [] _ _ _ eq_refl) "mode" _).
  discriminate.
Defined.

Lemma fill_records_required_leaves_witness :
  fill_namespace Examples.plain_traceback [] Examples.field
    (VDict [("field", VDict [("mode", VStr "1d")])]) ["a"]
  = Ok ([], VDict [], ["a"; "field.Nmesh"])
  /\ exists added,
      ["a"; "field.Nmesh"] = (["a"] ++ added)%list
      /\ Forall (required_leaf_of Examples.field) added.
Proof.
  split; [reflexivity |].
  exact (fill_records_required_leaves Examples.plain_traceback Examples.field []
           (VDict [("field", VDict [("mode", VStr "1d")])]) ["a"] _ _ _ eq_refl).
Defined.

Lemma fill_takes_at_most_one_key_witness :
  fill_namespace Examples.plain_traceback [] MoreExamples.nmesh
    (VDict MoreExamples.nmesh_doc) []
  = Ok ([("Nmesh", VInt 64)], VDict [("mode", VStr "1d")], [])
  /\ (VDict [("mode", VStr "1d")] = VDict MoreExamples.nmesh_doc
      \/ exists k v,
          OD.get k MoreExamples.nmesh_doc = Some v
          /\ str_lower k = str_lower (local_name MoreExamples.nmesh)
          /\ VDict [("mode", VStr "1d")] = VDict (OD.remove k MoreExamples.nmesh_doc)).
Proof.
  split; [reflexivity |].
  exact (fill_takes_at_most_one_key Examples.plain_traceback [] MoreExamples.nmesh
           MoreExamples.nmesh_doc [] _ _ _ eq_refl).
Defined.

Lemma read_resolves_leaf_to_cast_value_witness :
  let loader := Examples.loads (VDict MoreExamples.nmesh_doc) in
  let schema := [("Nmesh", MoreExamples.nmesh)] in
  loader EmptyString = Ok (VDict MoreExamples.nmesh_doc)
  /\ OD.get "X" MoreExamples.nmesh_doc = None
  /\ OD.get "cosmo" MoreExamples.nmesh_doc = None
  /\ distinctb (lowered_names schema) = true
  /\ In ("Nmesh", MoreExamples.nmesh) schema
  /\ subfields MoreExamples.nmesh = []
  /\ case_insensitive_name_match (local_name MoreExamples.nmesh) MoreExamples.nmesh_doc
     = Some "nmesh"
  /\ OD.get "nmesh" MoreExamples.nmesh_doc = Some (VStr "64")
  /\ MoreExamples.read_from loader EmptyString schema
     = Ok ([("Nmesh", VInt 64)], [("mode", VStr "1d")])
  /\ exists r,
      ConstructorSchema.cast MoreExamples.nmesh (VStr "64") = Ok r
      /\ OD.get (local_name MoreExamples.nmesh) [("Nmesh", VInt 64)] = Some r.
Proof.
  intros loader schema.
  assert (Hin : In ("Nmesh", MoreExamples.nmesh) schema) by (left; reflexivity).
  repeat (split; [reflexivity || exact Hin |]).
  exact (read_resolves_leaf_to_cast_value Examples.plain_traceback loader
           Examples.no_plugin unit Examples.no_cosmology Examples.register
           EmptyString schema MoreExamples.nmesh_doc _ _ "Nmesh" MoreExamples.nmesh
           "nmesh" (VStr "64") eq_refl eq_refl eq_refl eq_refl Hin eq_refl eq_refl
           eq_refl eq_refl).
Defined.

Lemma read_namespace_holds_declared_names_witness :
  let loader := Examples.loads (VDict MoreExamples.nmesh_doc) in
  let schema := [("Nmesh", MoreExamples.nmesh)] in
  MoreExamples.read_from loader EmptyString schema
  = Ok ([("Nmesh", VInt 64)], [("mode", VStr "1d")])
  /\ In "Nmesh" (OD.keys [("Nmesh", VInt 64)])
  /\ exists p, In p schema /\ local_name (snd p) = "Nmesh".
Proof.
  intros loader schema.
  assert (Hin : In "Nmesh" (OD.keys [("Nmesh", VInt 64)])) by (left; reflexivity).
  split; [reflexivity |]. split; [exact Hin |].
  exact (read_namespace_holds_declared_names Examples.plain_traceback loader
           Examples.no_plugin unit Examples.no_cosmology Examples.register
           EmptyString schema _ _ "Nmesh" eq_refl Hin).
Defined.

Lemma read_empty_or_unparsable_witness :
  MoreExamples.no_document "empty" = Ok VNone
  /\ MoreExamples.read_from MoreExamples.no_document "empty" Examples.two_required
     = Raise (mkExn EmptyConfigurationError "no valid keys found")
  /\ MoreExamples.no_document "broken"
     = Raise (mkExn (OtherError "ScannerError") "mapping values are not allowed here")
  /\ OtherError "ScannerError" <> EmptyConfigurationError
  /\ MoreExamples.read_from MoreExamples.no_document "broken" Examples.two_required
     = Raise (mkExn ConfigurationError
                ("error parsing YAML file: "
                 ++ exn_str (mkExn (OtherError "ScannerError")
                               "mapping values are not allowed here"))).
Proof.
  assert (Hc : OtherError "ScannerError" <> EmptyConfigurationError) by discriminate.
  split; [reflexivity |]. split.
  - exact (proj1 (read_empty_or_unparsable Examples.plain_traceback
                    MoreExamples.no_document Examples.no_plugin unit
                    Examples.no_cosmology Examples.register "empty"
                    Examples.two_required) (or_intror eq_refl)).
  - split; [reflexivity |]. split; [exact Hc |].
    exact (proj2 (read_empty_or_unparsable Examples.plain_traceback
                    MoreExamples.no_document Examples.no_plugin unit
                    Examples.no_cosmology Examples.register "broken"
                    Examples.two_required) _ eq_refl Hc).
Defined.

Lemma reserved_keys_never_unknown_witness :
  let loader := Examples.loads (VDict MoreExamples.plugin_doc) in
  let schema := [("Nmesh", MoreExamples.nmesh)] in
  loader EmptyString = Ok (VDict MoreExamples.plugin_doc)
  /\ NoDup (OD.keys MoreExamples.plugin_doc)
  /\ OD.get "__dict__" MoreExamples.plugin_doc = None
  /\ MoreExamples.read_from loader EmptyString schema = Ok ([("Nmesh", VInt 64)], [])
  /\ OD.get "X" (@nil (string * value)) = None
  /\ OD.get "cosmo" (@nil (string * value)) = None.
Proof.
  intros loader schema.
  assert (Hnd : NoDup (OD.keys MoreExamples.plugin_doc)).
  { repeat constructor; simpl; intuition discriminate. }
  split; [reflexivity |]. split; [exact Hnd |]. split; [reflexivity |].
  split; [reflexivity |].
  exact (reserved_keys_never_unknown Examples.plain_traceback loader
           Examples.no_plugin unit Examples.no_cosmology Examples.register
           EmptyString schema MoreExamples.plugin_doc _ _ eq_refl Hnd eq_refl eq_refl).
Defined.

(** Beyond the ASCII range: the key in capitals is the first match of the
    name in small letters, and its value is the one the read takes. *)
Lemma name_match_beyond_ascii :
  let doc := [(MoreExamples.ECOLE, VInt 1); (MoreExamples.ecole, VInt 2)] in
  let schema := [(MoreExamples.ecole, Examples.leaf MoreExamples.ecole true)] in
  case_insensitive_name_match (L := MoreExamples.latin_names) MoreExamples.ecole doc
  = Some MoreExamples.ECOLE
  /\ ReadConfigFile (L := MoreExamples.latin_names) Examples.plain_traceback
       (Examples.loads (VDict doc)) Examples.no_plugin unit Examples.no_cosmology
       Examples.register EmptyString schema
     = Ok ([(MoreExamples.ecole, VInt 1)], [(MoreExamples.ecole, VInt 2)]).
Proof. split; reflexivity. Qed.

(** Without the condition on [__dict__]: the mapping under that key becomes
    the attributes of [unknown], an entry [X] of it included. *)
Lemma dict_key_replaces_unknown :
  MoreExamples.read_from
    (Examples.loads (VDict [("__dict__", VDict [("X", VInt 1)])])) EmptyString []
  = Ok ([], [("X", VInt 1)]).
Proof. reflexivity. Qed.

Lemma contains_up_to_two_segments_witness :
  let self := [("field", Examples.field)] in
  PyStr.split_on "."%char "ghost.Nmesh" = ["ghost"; "Nmesh"]
  /\ OD.get "ghost" self = None
  /\ ConstructorSchema.contains self "ghost.Nmesh" = Raise (mkExn KeyError "ghost").
Proof.
  intros self. split; [reflexivity |]. split; [reflexivity |].
  exact (proj1 (proj2 (contains_up_to_two_segments self "ghost.Nmesh")
                  "ghost" "Nmesh" eq_refl) eq_refl).
Defined.

Lemma add_argument_round_trip_nested_witness :
  let result :=
    ConstructorSchema.add_argument [] "field.Nmesh" (TSingle (Some py_int)) VNone
      None NNone None true in
  PyStr.split_on "."%char "field.Nmesh" = ["field"; "Nmesh"]
  /\ snd result = Ok tt
  /\ exists a,
      ConstructorSchema.lookup ["field"; "Nmesh"] (fst result) = Some a
      /\ required a = true /\ type a = TSingle (Some py_int) /\ default a = VNone
      /\ choices a = None /\ nargs a = NNone /\ help a = None
      /\ name a = "field.Nmesh" /\ subfields a = [].
Proof.
  intros result. split; [reflexivity |].
  exact (add_argument_round_trip_nested [] "field.Nmesh" "field" "Nmesh"
           (TSingle (Some py_int)) VNone None NNone None true eq_refl).
Defined.

Lemma add_argument_keeps_declaration_order_witness :
  let result :=
    ConstructorSchema.add_argument Examples.two_required "b.x" (TSingle None) VNone
      None NNone None false in
  "a" <> "b"
  /\ OD.keys (fst result) = ["a"; "b"]
  /\ OD.get "a" (fst result) = OD.get "a" Examples.two_required.
Proof.
  intros result.
  assert (H : "a" <> "b") by discriminate.
  split; [exact H |]. split.
  - exact (proj1 (add_argument_keeps_declaration_order Examples.two_required "b.x"
                    (TSingle None) VNone None NNone None false)).
  - exact (proj2 (add_argument_keeps_declaration_order Examples.two_required "b.x"
                    (TSingle None) VNone None NNone None false) "a" H).
Defined.

Lemma update_schema_entries_witness :
  let a' := mkArgument "size" false (TSingle (Some py_int)) (VInt 10) None NNone None [] in
  let signature := attrs Examples.box_spec in
  let values := Some (defaults Examples.box_spec) in
  OD.get "size" (fst (update_schema Examples.box_schema signature values [])) = Some a'
  /\ exists a,
      OD.get "size" Examples.box_schema = Some a
      /\ name a' = name a
      /\ required a' = mem_str (name a) (snd (fst (signature_names signature values)))
      /\ default a'
         = match index_of (name a) (snd (signature_names signature values)) with
           | Some i => nth i (defaults Examples.box_spec) VNone
           | None => default a
           end
      /\ type a' = type a /\ choices a' = choices a /\ nargs a' = nargs a
      /\ help a' = help a /\ subfields a' = subfields a.
Proof.
  intros a' signature values. split; [reflexivity |].
  exact (update_schema_entries Examples.box_schema signature values [] "size" a'
           eq_refl).
Defined.

Lemma update_schema_accepts_agreement_witness :
  (forall x, In x (tl (attrs Examples.box_spec)) ->
             exists p, In p Examples.box_schema /\ name (snd p) = x)
  /\ (forall p, In p Examples.box_schema ->
                In (name (snd p)) (tl (attrs Examples.box_spec))
                \/ In (name (snd p)) (@nil string)).
Proof.
  exact (update_schema_accepts_agreement Examples.box_schema
           (attrs Examples.box_spec) (Some (defaults Examples.box_spec)) []).
Defined.

Lemma update_schema_signature_order_witness :
  let signature := attrs Examples.box_spec in
  let values := Some (defaults Examples.box_spec) in
  NoDup (tl signature)
  /\ snd (update_schema MoreExamples.box_schema_reversed signature values []) = Ok tt
  /\ OD.keys MoreExamples.box_schema_reversed = ["size"; "name"]
  /\ filter (fun k => mem_str k (tl signature))
       (OD.keys (fst (update_schema MoreExamples.box_schema_reversed signature values [])))
     = filter (fun k => OD.mem k MoreExamples.box_schema_reversed) (tl signature).
Proof.
  intros signature values.
  assert (Hnd : NoDup (tl signature)).
  { repeat constructor; simpl; intuition discriminate. }
  split; [exact Hnd |]. split; [reflexivity |]. split; [reflexivity |].
  exact (update_schema_signature_order MoreExamples.box_schema_reversed signature
           values [] Hnd eq_refl).
Defined.

Lemma autoassign_declares_ambient_witness :
  let declared := autoassign_declare Examples.box_schema Examples.box_spec true true in
  In "cosmo" (allowed true true)
  /\ snd declared = Ok tt
  /\ exists a,
      OD.get "cosmo" (fst declared) = Some a
      /\ (OD.get "cosmo" Examples.box_schema = None ->
          ~ In "cosmo" (tl (attrs Examples.box_spec)) ->
          name a = "cosmo" /\ required a = false /\ default a = VNone).
Proof.
  intros declared.
  assert (Hin : In "cosmo" (allowed true true)) by (simpl; tauto).
  split; [exact Hin |]. split; [reflexivity |].
  exact (autoassign_declares_ambient Examples.box_schema Examples.box_spec true true
           "cosmo" Hin eq_refl).
Defined.

Lemma binding_precedence_witness :
  let self' := [("size", VInt 3); ("name", VStr "b")] in
  NoDup (attrs Examples.box_spec)
  /\ NoDup (OD.keys [("size", VInt 3)])
  /\ bind_arguments MoreExamples.scalar_eq Examples.box_spec Examples.box_schema
       false false VNone VNone [] [VStr "b"] [("size", VInt 3)]
     = Ok (self', [("name", VStr "b")], [("size", VInt 3)])
  /\ OD.get "size" self' = Some (VInt 3)
  /\ OD.get "name" self' = Some (VStr "b").
Proof.
  intros self'.
  assert (H1 : NoDup (attrs Examples.box_spec)).
  { repeat constructor; simpl; intuition discriminate. }
  assert (H2 : NoDup (OD.keys [("size", VInt 3)])).
  { repeat constructor; simpl; intuition discriminate. }
  pose proof (binding_precedence MoreExamples.scalar_eq Examples.box_spec
                Examples.box_schema false false VNone VNone [] [VStr "b"]
                [("size", VInt 3)] self' [("name", VStr "b")] [("size", VInt 3)]
                H1 H2 eq_refl) as (Hkw & Hpos & _).
  split; [exact H1 |]. split; [exact H2 |]. split; [reflexivity |]. split.
  - exact (Hkw "size" (VInt 3) eq_refl).
  - refine (Hpos "name" (VStr "b") (or_introl eq_refl) eq_refl _). discriminate.
Defined.

Lemma ambient_keywords_are_popped_witness :
  let kwargs := [("comm", VStr "mine"); ("size", VInt 3)] in
  NoDup (OD.keys kwargs)
  /\ bind_arguments MoreExamples.scalar_eq Examples.box_spec Examples.box_schema
       true false (VStr "world") VNone [] [VStr "b"] kwargs
     = Ok ([("comm", VStr "mine"); ("size", VInt 3); ("name", VStr "b")],
           [("name", VStr "b")], [("size", VInt 3)])
  /\ OD.get "comm" [("size", VInt 3)] = None
  /\ OD.get "size" [("size", VInt 3)] = OD.get "size" kwargs.
Proof.
  intros kwargs.
  assert (H : NoDup (OD.keys kwargs)).
  { repeat constructor; simpl; intuition discriminate. }
  pose proof (ambient_keywords_are_popped MoreExamples.scalar_eq Examples.box_spec
                Examples.box_schema true false (VStr "world") VNone [] [VStr "b"]
                kwargs _ _ _ H eq_refl) as Hk.
  split; [exact H |]. split; [reflexivity |]. split.
  - exact (Hk "comm").
  - exact (Hk "size").
Defined.

Lemma diagnostic_empty_iff_consistent_witness :
  let posargs := [("name", VStr "b")] in
  let kwargs := [("size", VInt 3)] in
  get_init_errmsg (nodup string_dec) Examples.box_schema posargs kwargs = EmptyString
  /\ (forall n, ~ (In n (OD.keys posargs) /\ In n (OD.keys kwargs)))
  /\ (forall n a, OD.get n Examples.box_schema = Some a -> required a = true ->
                  In n (OD.keys posargs) \/ In n (OD.keys kwargs))
  /\ (forall n, In n (OD.keys posargs) \/ In n (OD.keys kwargs) ->
                OD.get n Examples.box_schema <> None).
Proof.
  intros posargs kwargs. split; [reflexivity |].
  exact (proj1 (diagnostic_empty_iff_consistent (nodup string_dec)
                  (fun l => Permutation_refl (nodup string_dec l))
                  Examples.box_schema posargs kwargs) eq_refl).
Defined.


Lemma bare_plugin_string_is_one_element_list_witness :
  let d := MoreExamples.plugin_doc in
  let d' := OD.set "X" (VList [VStr "plugin.py"]) d in
  let loader := MoreExamples.two_streams d d' in
  let schema := [("Nmesh", MoreExamples.nmesh)] in
  loader "first" = Ok (VDict d)
  /\ loader "second" = Ok (VDict d')
  /\ OD.get "X" d = Some (VStr "plugin.py")
  /\ MoreExamples.read_from loader "first" schema
     = MoreExamples.read_from loader "second" schema.
Proof.
  intros d d' loader schema.
  split; [reflexivity |]. split; [reflexivity |]. split; [reflexivity |].
  exact (bare_plugin_string_is_one_element_list Examples.ascii_names
           Examples.plain_traceback loader
           Examples.no_plugin unit Examples.no_cosmology Examples.register
           "first" "second" schema d "plugin.py" eq_refl eq_refl eq_refl).
Defined.

End FurtherConcrete.
